(** * promo-pos: machine identity, the two encryption domains, the
    encrypted settings store and the configuration manager

    A shallow embedding of
    - [internal/security/encryption.go]: [ConfigEncryption],
      [DatabaseEncryption] and the server-key helpers;
    - the machine-identity resolver: [GetMachineID], [generateMachineID] and
      [getPrimaryMACAddress], over the functions each platform file
      provides, with [machine_id_windows.go] and [machine_id_linux.go] both
      worked out;
    - the settings methods, [Transaction], [Close] and [Ping] of
      [internal/database/sqlite.go], over a model of the [settings] table
      and of [database/sql] transactions;
    - the config package: [Config.Validate] and the [Manager] with
      [NewManager], [Load], [Save], [Get] and [Update], over a model of the
      files and of the heap of [Config] objects.

    Go values are modelled as follows.  A [string] and a [[]byte] are both
    sequences of bytes: a Go string is a Rocq [string], a byte slice is a
    [list byte], and the conversions [[]byte(s)] and [string(b)] are
    [bytes_of_string] and [string_of_bytes].  A Go [error] is a value of the
    inductive [error], one constructor per way the modelled code builds
    one; an error is identified by how it was built (its text and what it
    wraps).  A function returning [(T, error)] returns [result T].  Mutable
    state (the entropy source, the SQL connection, the cached machine id,
    the registry, the files, standard output) is passed in and out
    explicitly.  Calls are sequential; a mutex is modelled where the code
    takes it twice (the [Manager]), and not otherwise.

    Packages outside the repository are handled in two ways.
    [encoding/base64], [encoding/hex] and the ASCII part of [strings] are
    modelled in full.  The cryptographic primitives (AES-GCM,
    ChaCha20-Poly1305, PBKDF2, SHA-3, SHA-256) are taken through their
    interface ([CryptoLib]), with the contract the code relies on stated as
    laws ([CryptoLaws]); [encoding/json], [path/filepath] and the Unicode
    part of [strings.TrimSpace] are taken through interfaces without laws.

    The file has four parts: the model, lemmas about it, the theorems that
    settle the specification's statements, and further properties of the
    code. *)

From Stdlib Require Import Ascii String.
From stdpp Require Import base numbers option list strings gmap.

Local Open Scope Z_scope.

(** ** Bytes *)

Abbreviation byte := ascii (only parsing).

Definition byte_to_Z (b : byte) : Z := Z.of_N (N_of_ascii b).

(** The Go conversion [byte(x)] of an unsigned integer: the low eight bits. *)
Definition byte_of_Z (z : Z) : byte := ascii_of_N (Z.to_N (z mod 256)).

(** [[]byte(s)] and [string(b)]. *)
Definition bytes_of_string (s : string) : list byte := list_ascii_of_string s.
Definition string_of_bytes (b : list byte) : string := string_of_list_ascii b.

(** ** Errors *)

(** One constructor per shape of error value the modelled code creates.  The
    [fmt_Errorf_*] constructors keep the format string and the arguments
    apart; the suffix lists the verbs of the format in order.  An error made
    with [%w] wraps its argument (see [errors_Unwrap]). *)
Inductive error : Type :=
| errors_New (text : string)
| fmt_Errorf (format : string)
| fmt_Errorf_s (format : string) (s : string)
| fmt_Errorf_d_d (format : string) (d1 d2 : Z)
| fmt_Errorf_w (format : string) (err : error)
| fmt_Errorf_w_d (format : string) (err : error) (d : Z)
| fmt_Errorf_v_w (format : string) (v : error) (err : error)
| base64_CorruptInputError (offset : Z)
| aes_KeySizeError (size : Z).

#[global] Instance error_eq_dec : EqDecision error.
Proof. solve_decision. Defined.

Definition errors_Unwrap (e : error) : option error :=
  match e with
  | fmt_Errorf_w _ err | fmt_Errorf_w_d _ err _ | fmt_Errorf_v_w _ _ err => Some err
  | _ => None
  end.

(** [errors.Is]: [target] is [e] or is reached from [e] by unwrapping. *)
Fixpoint errors_Is (e target : error) : bool :=
  bool_decide (e = target) ||
  match e with
  | fmt_Errorf_w _ err | fmt_Errorf_w_d _ err _ | fmt_Errorf_v_w _ _ err =>
      errors_Is err target
  | _ => false
  end.

(** Results of functions that return [(T, error)], with a bind for the
    [if err != nil { return ..., err }] idiom. *)
Definition result (A : Type) : Type := error + A.

Definition bind_result {A B : Type} (r : result A) (k : A → result B) : result B :=
  match r with
  | inl e => inl e
  | inr a => k a
  end.

(** [wrap_err f r]: [if err != nil { return fmt.Errorf(f, err) }]. *)
Definition wrap_err {A : Type} (format : string) (r : result A) : result A :=
  match r with
  | inl e => inl (fmt_Errorf_w format e)
  | inr a => inr a
  end.

Notation "'let!' x ':=' r 'in' k" := (bind_result r (fun x => k))
  (at level 10, x name, r at level 100, k at level 200).

Definition is_err {A : Type} (r : result A) : Prop :=
  match r with inl _ => True | inr _ => False end.

(** ** encoding/base64, [StdEncoding] *)

Definition encodeStd : string :=
  "ABCDEFGHIJKLMNOPQRSTUVWXYZabcdefghijklmnopqrstuvwxyz0123456789+/".

Definition padChar : byte := "="%char.
Definition newline_LF : byte := "010"%char.
Definition newline_CR : byte := "013"%char.

(** [enc.encode[i]] *)
Definition enc_encode (i : Z) : byte :=
  nth (Z.to_nat i) (list_ascii_of_string encodeStd) padChar.

Fixpoint index_of (c : byte) (l : list byte) (i : Z) : Z :=
  match l with
  | [] => 255
  | x :: l' => if bool_decide (x = c) then i else index_of c l' (i + 1)
  end.

(** [enc.decodeMap[c]]: the position of [c] in the alphabet, [0xff] for a
    byte outside it. *)
Definition enc_decodeMap (c : byte) : Z :=
  index_of c (list_ascii_of_string encodeStd) 0.

(** [Encoding.Encode]: three input bytes give four characters; a tail of one
    or two bytes is padded with [=]. *)
Fixpoint base64_Encode (src : list byte) : list byte :=
  match src with
  | [] => []
  | [b0] =>
      let val := byte_to_Z b0 ≪ 16 in
      [enc_encode (Z.land (val ≫ 18) 63); enc_encode (Z.land (val ≫ 12) 63);
       padChar; padChar]
  | [b0; b1] =>
      let val := Z.lor (byte_to_Z b0 ≪ 16) (byte_to_Z b1 ≪ 8) in
      [enc_encode (Z.land (val ≫ 18) 63); enc_encode (Z.land (val ≫ 12) 63);
       enc_encode (Z.land (val ≫ 6) 63); padChar]
  | b0 :: b1 :: b2 :: rest =>
      let val :=
        Z.lor (Z.lor (byte_to_Z b0 ≪ 16) (byte_to_Z b1 ≪ 8)) (byte_to_Z b2) in
      enc_encode (Z.land (val ≫ 18) 63) :: enc_encode (Z.land (val ≫ 12) 63) ::
      enc_encode (Z.land (val ≫ 6) 63) :: enc_encode (Z.land val 63) ::
      base64_Encode rest
  end.

Definition base64_EncodeToString (src : list byte) : string :=
  string_of_bytes (base64_Encode src).

Definition is_newline (c : byte) : bool :=
  bool_decide (c = newline_LF) || bool_decide (c = newline_CR).

(** The [for si < len(src) && (src[si] == '\n' || src[si] == '\r')] loops of
    [decodeQuantum]. *)
Fixpoint skip_newlines (src : list byte) (si : nat) : list byte * nat :=
  match src with
  | c :: rest => if is_newline c then skip_newlines rest (S si) else (src, si)
  | [] => ([], si)
  end.

(** The 24-bit value of a quantum, [dbuf[0]<<18 | dbuf[1]<<12 | dbuf[2]<<6 | dbuf[3]]. *)
Definition quantum_val (d0 d1 d2 d3 : Z) : Z :=
  Z.lor (Z.lor (Z.lor (d0 ≪ 18) (d1 ≪ 12)) (d2 ≪ 6)) d3.

(** [Encoding.Decode] (the loop over [decodeQuantum], non-strict mode):
    [src] is what is left of the input, [si] its offset in the whole input,
    [dbuf] the sextets of the quantum read so far, [dst] the bytes decoded so
    far.  Newlines are skipped; anything else outside the alphabet, misplaced
    or missing padding and text after the padding give a [CorruptInputError]
    with the offset Go reports. *)
Fixpoint base64_decode_from (src : list byte) (si : nat) (dbuf : list Z)
    (dst : list byte) : result (list byte) :=
  match src with
  | [] =>
      match dbuf with
      | [] => inr dst
      | _ => inl (base64_CorruptInputError (Z.of_nat si - Z.of_nat (length dbuf)))
      end
  | c :: rest =>
      let out := enc_decodeMap c in
      if negb (out =? 255) then
        match dbuf with
        | [d0; d1; d2] =>
            let val := quantum_val d0 d1 d2 out in
            base64_decode_from rest (S si) []
              (dst ++ [byte_of_Z (val ≫ 16); byte_of_Z (val ≫ 8); byte_of_Z val])
        | _ => base64_decode_from rest (S si) (dbuf ++ [out]) dst
        end
      else if is_newline c then base64_decode_from rest (S si) dbuf dst
      else if negb (bool_decide (c = padChar)) then
        inl (base64_CorruptInputError (Z.of_nat si))
      else
        match dbuf with
        | [d0; d1] =>
            (* "==" is expected, the first "=" is already consumed *)
            let '(rest1, si1) := skip_newlines rest (S si) in
            match rest1 with
            | [] => inl (base64_CorruptInputError (Z.of_nat si1))
            | c2 :: rest2 =>
                if negb (bool_decide (c2 = padChar)) then
                  inl (base64_CorruptInputError (Z.of_nat si1 - 1))
                else
                  let '(rest3, si3) := skip_newlines rest2 (S si1) in
                  match rest3 with
                  | [] => inr (dst ++ [byte_of_Z (quantum_val d0 d1 0 0 ≫ 16)])
                  | _ => inl (base64_CorruptInputError (Z.of_nat si3))
                  end
            end
        | [d0; d1; d2] =>
            let '(rest1, si1) := skip_newlines rest (S si) in
            match rest1 with
            | [] =>
                let val := quantum_val d0 d1 d2 0 in
                inr (dst ++ [byte_of_Z (val ≫ 16); byte_of_Z (val ≫ 8)])
            | _ => inl (base64_CorruptInputError (Z.of_nat si1))
            end
        | _ => (* padding in the first or second position *)
            inl (base64_CorruptInputError (Z.of_nat si))
        end
  end.

Definition base64_DecodeString (s : string) : result (list byte) :=
  base64_decode_from (bytes_of_string s) 0 [] [].

(** ** encoding/hex *)

Definition hextable : string := "0123456789abcdef".

Definition hex_digit (i : Z) : byte :=
  nth (Z.to_nat i) (list_ascii_of_string hextable) "0"%char.

(** [hex.Encode]: [dst[2i] = hextable[v>>4]], [dst[2i+1] = hextable[v&0x0f]]. *)
Fixpoint hex_Encode (src : list byte) : list byte :=
  match src with
  | [] => []
  | v :: rest =>
      hex_digit (byte_to_Z v ≫ 4) :: hex_digit (Z.land (byte_to_Z v) 15) ::
      hex_Encode rest
  end.

Definition hex_EncodeToString (src : list byte) : string :=
  string_of_bytes (hex_Encode src).

(** ** io and crypto/rand *)

(** [rand.Reader], the process-wide entropy source, as the bytes it will
    still deliver.  A source that runs dry makes [io.ReadFull] fail. *)
Definition Reader : Type := list byte.

Definition io_EOF : error := errors_New "EOF".
Definition io_ErrUnexpectedEOF : error := errors_New "unexpected EOF".

(** [io.ReadFull(r, buf)] with [len(buf) = n]: exactly [n] bytes, or [EOF]
    when none could be read, or [ErrUnexpectedEOF] after a short read. *)
Definition io_ReadFull (r : Reader) (n : nat) : result (list byte) * Reader :=
  if bool_decide (n = 0%nat) then (inr [], r)
  else if bool_decide (r = []) then (inl io_EOF, r)
  else if bool_decide (length r < n)%nat then (inl io_ErrUnexpectedEOF, [])
  else (inr (take n r), drop n r).

(** ** crypto/cipher, crypto/aes, x/crypto: the interface *)

(** [cipher.AEAD].  [Seal dst nonce plaintext additionalData] and
    [Open dst nonce ciphertext additionalData], as in Go. *)
Record AEAD : Type := {
  NonceSize : nat;
  Overhead : nat;
  Seal : list byte → list byte → list byte → list byte → list byte;
  Open : list byte → list byte → list byte → list byte → result (list byte);
}.

(** What the documentation of [cipher.AEAD] promises and the repository
    relies on: [Seal] appends to [dst], and [Open] returns what was sealed
    under the same nonce and additional data. *)
Record AEAD_contract (a : AEAD) : Prop := {
  Seal_appends : ∀ dst nonce plaintext ad,
    Seal a dst nonce plaintext ad = dst ++ Seal a [] nonce plaintext ad;
  Open_Seal : ∀ nonce plaintext ad,
    length nonce = NonceSize a →
    Open a [] nonce (Seal a [] nonce plaintext ad) ad = inr plaintext;
}.

(** The functions of [crypto/aes], [crypto/cipher], [crypto/sha256],
    [x/crypto/chacha20poly1305], [x/crypto/pbkdf2] and [x/crypto/sha3] that
    the repository calls. *)
Class CryptoLib : Type := {
  cipher_Block : Type;
  aes_NewCipher : list byte → result cipher_Block;
  cipher_NewGCM : cipher_Block → result AEAD;
  chacha20poly1305_New : list byte → result AEAD;
  hash_func : Type;
  sha3_New256 : hash_func;
  pbkdf2_Key : list byte → list byte → Z → Z → hash_func → list byte;
  sha256_Sum256 : list byte → list byte;
}.

(** The contract of those functions, as far as the proofs below use it:
    a 32-byte key gives a working AEAD with the standard 12-byte nonce, in
    either construction; [pbkdf2.Key] returns [keyLen] bytes; a SHA-256
    digest has 32 bytes (the Go type is [[32]byte]). *)
Class CryptoLaws (L : CryptoLib) : Prop := {
  aes_gcm_256 : ∀ key, length key = 32%nat →
    ∃ block gcm, aes_NewCipher key = inr block ∧ cipher_NewGCM block = inr gcm ∧
                 NonceSize gcm = 12%nat ∧ AEAD_contract gcm;
  chacha20poly1305_256 : ∀ key, length key = 32%nat →
    ∃ aead, chacha20poly1305_New key = inr aead ∧
            NonceSize aead = 12%nat ∧ AEAD_contract aead;
  pbkdf2_Key_length : ∀ password salt iter keyLen h, 0 ≤ keyLen →
    length (pbkdf2_Key password salt iter keyLen h) = Z.to_nat keyLen;
  sha256_Sum256_length : ∀ data, length (sha256_Sum256 data) = 32%nat;
}.

(** ** internal/security/encryption.go *)

Definition pbkdf2Iterations : Z := 10000.
Definition aes256KeySize : Z := 32.
Definition chacha20KeySize : Z := 32.

Definition hardcodedEncryptionKey : string :=
  "YourSuperSecretHardcodedKeyHere-ChangeInProduction!".

Definition ErrInvalidCiphertext : error := errors_New "invalid ciphertext".
Definition ErrInvalidKey : error := errors_New "invalid encryption key".

Record ConfigEncryption : Type := {
  ce_machineID : string;
  ce_key : list byte;
}.

Record DatabaseEncryption : Type := {
  serverKey : list byte;
}.

Section Encryption.
Context {L : CryptoLib}.

Definition NewConfigEncryption (machineID : string) : result ConfigEncryption :=
  if bool_decide (machineID = "") then
    inl (errors_New "machine ID cannot be empty")
  else
    let key :=
      pbkdf2_Key (bytes_of_string hardcodedEncryptionKey)
        (bytes_of_string machineID) pbkdf2Iterations aes256KeySize sha3_New256 in
    inr {| ce_machineID := machineID; ce_key := key |}.

(** [ConfigEncryption.Encrypt]; [rnd] is [rand.Reader] before the call,
    the second component of the result is [rand.Reader] after it. *)
Definition ConfigEncryption_Encrypt (ce : ConfigEncryption) (plaintext : list byte)
    (rnd : Reader) : result string * Reader :=
  match aes_NewCipher (ce_key ce) with
  | inl err => (inl (fmt_Errorf_w "failed to create cipher: %w" err), rnd)
  | inr block =>
      match cipher_NewGCM block with
      | inl err => (inl (fmt_Errorf_w "failed to create GCM: %w" err), rnd)
      | inr gcm =>
          match io_ReadFull rnd (NonceSize gcm) with
          | (inl err, rnd') =>
              (inl (fmt_Errorf_w "failed to generate nonce: %w" err), rnd')
          | (inr nonce, rnd') =>
              let ciphertext := Seal gcm nonce nonce plaintext [] in
              (inr (base64_EncodeToString ciphertext), rnd')
          end
      end
  end.

Definition ConfigEncryption_Decrypt (ce : ConfigEncryption) (ciphertextB64 : string)
    : result (list byte) :=
  let! ciphertext :=
    wrap_err "failed to decode base64: %w" (base64_DecodeString ciphertextB64) in
  let! block := wrap_err "failed to create cipher: %w" (aes_NewCipher (ce_key ce)) in
  let! gcm := wrap_err "failed to create GCM: %w" (cipher_NewGCM block) in
  let nonceSize := NonceSize gcm in
  if bool_decide (length ciphertext < nonceSize)%nat then inl ErrInvalidCiphertext
  else
    let nonce := take nonceSize ciphertext in
    let ciphertext := drop nonceSize ciphertext in
    let! plaintext :=
      wrap_err "failed to decrypt: %w" (Open gcm [] nonce ciphertext []) in
    inr plaintext.

Definition NewDatabaseEncryption (key : list byte) : result DatabaseEncryption :=
  if bool_decide (Z.of_nat (length key) ≠ chacha20KeySize) then
    inl (fmt_Errorf_w_d "%w: server key must be %d bytes" ErrInvalidKey chacha20KeySize)
  else inr {| serverKey := key |}.

Definition DatabaseEncryption_Encrypt (de : DatabaseEncryption) (plaintext : list byte)
    (rnd : Reader) : result string * Reader :=
  match chacha20poly1305_New (serverKey de) with
  | inl err => (inl (fmt_Errorf_w "failed to create chacha20poly1305: %w" err), rnd)
  | inr aead =>
      match io_ReadFull rnd (NonceSize aead) with
      | (inl err, rnd') =>
          (inl (fmt_Errorf_w "failed to generate nonce: %w" err), rnd')
      | (inr nonce, rnd') =>
          let ciphertext := Seal aead nonce nonce plaintext [] in
          (inr (base64_EncodeToString ciphertext), rnd')
      end
  end.

Definition DatabaseEncryption_Decrypt (de : DatabaseEncryption) (ciphertextB64 : string)
    : result (list byte) :=
  let! ciphertext :=
    wrap_err "failed to decode base64: %w" (base64_DecodeString ciphertextB64) in
  let! aead :=
    wrap_err "failed to create chacha20poly1305: %w"
      (chacha20poly1305_New (serverKey de)) in
  let nonceSize := NonceSize aead in
  if bool_decide (length ciphertext < nonceSize)%nat then inl ErrInvalidCiphertext
  else
    let nonce := take nonceSize ciphertext in
    let ciphertext := drop nonceSize ciphertext in
    let! plaintext :=
      wrap_err "failed to decrypt: %w" (Open aead [] nonce ciphertext []) in
    inr plaintext.

End Encryption.

Definition GenerateServerKey (rnd : Reader) : result (list byte) * Reader :=
  match io_ReadFull rnd (Z.to_nat chacha20KeySize) with
  | (inl err, rnd') => (inl (fmt_Errorf_w "failed to generate server key: %w" err), rnd')
  | (inr key, rnd') => (inr key, rnd')
  end.

Definition ServerKeyToBase64 (key : list byte) : string :=
  base64_EncodeToString key.

Definition ServerKeyFromBase64 (keyB64 : string) : result (list byte) :=
  let! key := wrap_err "failed to decode server key: %w" (base64_DecodeString keyB64) in
  if bool_decide (Z.of_nat (length key) ≠ chacha20KeySize) then
    inl (fmt_Errorf_d_d "invalid server key length: expected %d, got %d"
           chacha20KeySize (Z.of_nat (length key)))
  else inr key.

(** ** An instance of the interface

    AES-GCM and ChaCha20-Poly1305 share one shape: the plaintext is xored
    with a keystream that depends on key and nonce, and a 16-byte tag
    computed from key, nonce, additional data and ciphertext is appended;
    [Open] recomputes the tag, compares, and removes the keystream.
    [stream_mac_AEAD] is that shape over an arbitrary keystream and tag
    function.  It satisfies [AEAD_contract] whatever the two functions are
    (see [stream_mac_AEAD_contract]). *)

Definition xor_byte (a b : byte) : byte :=
  match a, b with
  | Ascii a0 a1 a2 a3 a4 a5 a6 a7, Ascii b0 b1 b2 b3 b4 b5 b6 b7 =>
      Ascii (xorb a0 b0) (xorb a1 b1) (xorb a2 b2) (xorb a3 b3)
            (xorb a4 b4) (xorb a5 b5) (xorb a6 b6) (xorb a7 b7)
  end.

Definition xor_keystream (keystream : nat → byte) (data : list byte) : list byte :=
  imap (λ i b, xor_byte b (keystream i)) data.

(** A tag is 16 bytes: cut or zero-filled to that size. *)
Definition tag16 (t : list byte) : list byte :=
  take 16 (t ++ replicate 16 zero).

Definition stream_mac_AEAD (keystream : list byte → nat → byte)
    (mac : list byte → list byte → list byte → list byte) (errOpen : error) : AEAD :=
  {| NonceSize := 12;
     Overhead := 16;
     Seal dst nonce plaintext ad :=
       let ct := xor_keystream (keystream nonce) plaintext in
       dst ++ ct ++ tag16 (mac nonce ad ct);
     Open dst nonce ciphertext ad :=
       if bool_decide (length ciphertext < 16)%nat then inl errOpen
       else
         let n := (length ciphertext - 16)%nat in
         let ct := take n ciphertext in
         let tag := drop n ciphertext in
         if bool_decide (tag = tag16 (mac nonce ad ct)) then
           inr (dst ++ xor_keystream (keystream nonce) ct)
         else inl errOpen |}.

(** Stand-ins for the primitives, so that the model runs on concrete
    inputs: a keystream and a checksum that mix key, nonce and data.  They
    have the shapes of the real functions (key sizes, output lengths) and
    none of their strength; the general theorems do not mention them. *)

Definition sim_checksum (seed : Z) (data : list byte) : byte :=
  byte_of_Z (fold_left (λ acc b, (acc * 31 + byte_to_Z b + 7) mod 256) data seed).

Definition sim_keystream (key nonce : list byte) (i : nat) : byte :=
  sim_checksum (Z.of_nat i) (key ++ nonce).

Definition sim_digest (n : nat) (seed : Z) (data : list byte) : list byte :=
  map (λ j, sim_checksum (seed + Z.of_nat j) data) (seq 0 n).

Definition sim_mac (domain : Z) (key nonce ad ct : list byte) : list byte :=
  sim_digest 16 domain (key ++ nonce ++ ad ++ ct).

Definition sim_aes_NewCipher (key : list byte) : result (list byte) :=
  if bool_decide (length key = 16 ∨ length key = 24 ∨ length key = 32)%nat
  then inr key
  else inl (aes_KeySizeError (Z.of_nat (length key))).

Definition sim_NewGCM (key : list byte) : result AEAD :=
  inr (stream_mac_AEAD (sim_keystream key) (sim_mac 1 key)
         (errors_New "cipher: message authentication failed")).

Definition sim_chacha20poly1305_New (key : list byte) : result AEAD :=
  if bool_decide (length key = 32%nat) then
    inr (stream_mac_AEAD (sim_keystream key) (sim_mac 2 key)
           (errors_New "chacha20poly1305: message authentication failed"))
  else inl (errors_New "chacha20poly1305: bad key length").

Definition sim_pbkdf2_Key (password salt : list byte) (iter keyLen : Z) (h : unit)
    : list byte :=
  sim_digest (Z.to_nat keyLen) iter (password ++ salt).

Definition sim_crypto : CryptoLib :=
  {| cipher_Block := list byte;
     aes_NewCipher := sim_aes_NewCipher;
     cipher_NewGCM := sim_NewGCM;
     chacha20poly1305_New := sim_chacha20poly1305_New;
     hash_func := unit;
     sha3_New256 := tt;
     pbkdf2_Key := sim_pbkdf2_Key;
     sha256_Sum256 := sim_digest 32 0 |}.

(** ** Standard output *)

(** A line written with [fmt.Printf]: the format and its arguments. *)
Inductive printed : Type :=
| fmt_Printf_v (format : string) (v : error)
| fmt_Printf_s_v (format : string) (s : string) (v : error).

(** ** Machine identity *)

(** What the host answers to the portable queries: [net.Interfaces()] and
    [os.Hostname()]. *)
Record net_Interface : Type := {
  Flags : Z;
  HardwareAddr : list byte;
}.

Definition net_FlagUp : Z := 1.
Definition net_FlagLoopback : Z := 4.

Record Host : Type := {
  net_Interfaces : result (list net_Interface);
  os_Hostname : result string;
}.

(** [HardwareAddr.String]: two hex digits per byte, separated by colons. *)
Fixpoint HardwareAddr_digits (i : nat) (a : list byte) : list byte :=
  match a with
  | [] => []
  | b :: rest =>
      (if bool_decide (0 < i)%nat then [":"%char] else []) ++
      [hex_digit (byte_to_Z b ≫ 4); hex_digit (Z.land (byte_to_Z b) 15)] ++
      HardwareAddr_digits (S i) rest
  end.

Definition HardwareAddr_String (a : list byte) : string :=
  if bool_decide (length a = 0%nat) then ""
  else string_of_bytes (HardwareAddr_digits 0 a).

(** The loop of [getPrimaryMACAddress] over the interfaces. *)
Fixpoint getPrimaryMACAddress_loop (interfaces : list net_Interface) : result string :=
  match interfaces with
  | [] => inl (fmt_Errorf "no valid network interface found")
  | iface :: rest =>
      if negb (Z.land (Flags iface) net_FlagLoopback =? 0) ||
         (Z.land (Flags iface) net_FlagUp =? 0)
      then getPrimaryMACAddress_loop rest
      else
        let mac := HardwareAddr_String (HardwareAddr iface) in
        if negb (bool_decide (mac = "")) then inr mac
        else getPrimaryMACAddress_loop rest
  end.

Definition getPrimaryMACAddress (h : Host) : result string :=
  let! interfaces := net_Interfaces h in
  getPrimaryMACAddress_loop interfaces.

(** The functions each platform file ([machine_id_windows.go],
    [machine_id_linux.go]) provides to the portable code; [OS] is the state
    of what they read and write (the registry, or the files). *)
Class Platform (OS : Type) : Type := {
  readMachineIDFromRegistry : OS → result string;
  saveMachineIDToRegistry : string → OS → option error * OS;
  platformSpecificID : OS → result (list string);
}.

(** The process: the package variable [cachedMachineID], the platform
    state, and what was printed. *)
Record Process (OS : Type) : Type := {
  cachedMachineID : string;
  platform_state : OS;
  stdout : list printed;
}.
Arguments cachedMachineID {OS} _.
Arguments platform_state {OS} _.
Arguments stdout {OS} _.

Definition LF : string := String newline_LF EmptyString.

Section MachineID.
Context {L : CryptoLib} {OS : Type} {P : Platform OS}.

Definition generateMachineID (h : Host) (os : OS) : result string :=
  let data : list string := [] in
  let data :=
    match platformSpecificID os with
    | inr platformData => data ++ platformData
    | inl _ => data
    end in
  let data :=
    match getPrimaryMACAddress h with
    | inr macAddr => data ++ [macAddr]
    | inl _ => data
    end in
  let data :=
    match os_Hostname h with
    | inr hostname => data ++ [hostname]
    | inl _ => data
    end in
  if bool_decide (length data = 0%nat) then
    inl (fmt_Errorf "could not collect any machine-specific data")
  else
    let combined := fold_left (λ combined d, combined +:+ d +:+ "|") data "" in
    let hash := sha256_Sum256 (bytes_of_string combined) in
    inr (hex_EncodeToString hash).

Definition GetMachineID (h : Host) (p : Process OS) : result string * Process OS :=
  if negb (bool_decide (cachedMachineID p = "")) then (inr (cachedMachineID p), p)
  else
    let fromStore :=
      match readMachineIDFromRegistry (platform_state p) with
      | inr machineID =>
          if negb (bool_decide (machineID = "")) then Some machineID else None
      | inl _ => None
      end in
    match fromStore with
    | Some machineID =>
        (inr machineID,
         {| cachedMachineID := machineID; platform_state := platform_state p;
            stdout := stdout p |})
    | None =>
        match generateMachineID h (platform_state p) with
        | inl err => (inl (fmt_Errorf_w "failed to generate machine ID: %w" err), p)
        | inr machineID =>
            let '(saveErr, os') := saveMachineIDToRegistry machineID (platform_state p) in
            let out :=
              match saveErr with
              | Some err =>
                  stdout p ++
                  [fmt_Printf_v ("Warning: failed to save machine ID: %v" +:+ LF) err]
              | None => stdout p
              end in
            (inr machineID,
             {| cachedMachineID := machineID; platform_state := os'; stdout := out |})
        end
    end.

End MachineID.

(** *** The Windows platform

    The registry under [HKEY_LOCAL_MACHINE]: the values of each key, and
    whether the process may write. *)
Record Registry : Type := {
  reg_keys : gmap string (gmap string string);
  reg_writable : bool;
}.

Definition registry_ErrNotExist : error :=
  errors_New "The system cannot find the file specified.".
Definition registry_ERROR_ACCESS_DENIED : error := errors_New "Access is denied.".

Definition registry_OpenKey (r : Registry) (path : string) : result (gmap string string) :=
  match reg_keys r !! path with
  | Some k => inr k
  | None => inl registry_ErrNotExist
  end.

Definition registry_GetStringValue (k : gmap string string) (name : string)
    : result string :=
  match k !! name with
  | Some v => inr v
  | None => inl registry_ErrNotExist
  end.

(** [registry.CreateKey] followed by [SetStringValue] on the key it returns. *)
Definition registry_CreateKey_SetStringValue (r : Registry) (path name value : string)
    : option error * Registry :=
  if negb (reg_writable r) then (Some registry_ERROR_ACCESS_DENIED, r)
  else
    let k := default ∅ (reg_keys r !! path) in
    (None, {| reg_keys := <[path := <[name := value]> k]> (reg_keys r);
              reg_writable := reg_writable r |}).

Definition registryPath : string := "SOFTWARE\POSService".
Definition machineIDKey : string := "MachineID".

Definition windows_getWindowsProductID (r : Registry) : result string :=
  let! k := registry_OpenKey r "SOFTWARE\Microsoft\Windows NT\CurrentVersion" in
  let! productID := registry_GetStringValue k "ProductId" in
  inr productID.

Definition windows_getCPUInfo (r : Registry) : result string :=
  let! k := registry_OpenKey r "HARDWARE\DESCRIPTION\System\CentralProcessor\0" in
  let! cpuName := registry_GetStringValue k "ProcessorNameString" in
  match registry_GetStringValue k "Identifier" with
  | inr identifier => inr (cpuName +:+ "|" +:+ identifier)
  | inl _ => inr cpuName
  end.

Definition windows_readMachineIDFromRegistry (r : Registry) : result string :=
  let! k := registry_OpenKey r registryPath in
  let! machineID := registry_GetStringValue k machineIDKey in
  inr machineID.

Definition windows_saveMachineIDToRegistry (machineID : string) (r : Registry)
    : option error * Registry :=
  registry_CreateKey_SetStringValue r registryPath machineIDKey machineID.

Definition windows_platformSpecificID (r : Registry) : result (list string) :=
  let data : list string := [] in
  let data :=
    match windows_getWindowsProductID r with
    | inr productID => data ++ [productID]
    | inl _ => data
    end in
  let data :=
    match windows_getCPUInfo r with
    | inr cpuInfo => data ++ [cpuInfo]
    | inl _ => data
    end in
  if bool_decide (length data = 0%nat) then
    inl (fmt_Errorf "could not collect Windows-specific data")
  else inr data.

#[global] Instance windows_platform : Platform Registry :=
  {| readMachineIDFromRegistry := windows_readMachineIDFromRegistry;
     saveMachineIDToRegistry := windows_saveMachineIDToRegistry;
     platformSpecificID := windows_platformSpecificID |}.

(** ** database/sql over the [settings] table

    The table of [initSchema]: [key] is the primary key, [value] the
    envelope, and the two timestamps.  A table is the list of its rows in
    storage order.  [Time] is a value of [CURRENT_TIMESTAMP]. *)

Definition Time : Type := Z.

Record Row : Type := {
  row_key : string;
  row_value : string;
  row_created_at : Time;
  row_updated_at : Time;
}.

Definition has_key (key : string) (r : Row) : bool := bool_decide (row_key r = key).

(** The statements the repository executes, with their bound parameters;
    a statement that mentions [CURRENT_TIMESTAMP] carries the value it takes
    when the statement runs. *)
Inductive Stmt : Type :=
| UpsertSetting (key value : string) (now : Time)
    (* INSERT INTO settings (key, value, created_at, updated_at)
       VALUES (?, ?, CURRENT_TIMESTAMP, CURRENT_TIMESTAMP)
       ON CONFLICT(key) DO UPDATE SET value = excluded.value,
                                      updated_at = CURRENT_TIMESTAMP
       (the trigger settings_updated_at then stores the same
       CURRENT_TIMESTAMP in updated_at once more) *)
| InsertSetting (key value : string) (now : Time)
    (* INSERT INTO settings (key, value) VALUES (?, ?) *)
| DeleteSettingWhere (key : string).
    (* DELETE FROM settings WHERE key = ? *)

Definition sqlite_constraint_PRIMARYKEY : error :=
  errors_New "constraint failed: UNIQUE constraint failed: settings.key (1555)".

Definition update_row (value : string) (now : Time) (r : Row) : Row :=
  {| row_key := row_key r; row_value := value;
     row_created_at := row_created_at r; row_updated_at := now |}.

(** A statement on a table: the new table and [RowsAffected]. *)
Definition exec_stmt (stmt : Stmt) (tbl : list Row) : result (list Row * Z) :=
  match stmt with
  | UpsertSetting key value now =>
      if existsb (has_key key) tbl then
        inr (map (λ r, if has_key key r then update_row value now r else r) tbl, 1)
      else
        inr (tbl ++ [{| row_key := key; row_value := value;
                        row_created_at := now; row_updated_at := now |}], 1)
  | InsertSetting key value now =>
      if existsb (has_key key) tbl then inl sqlite_constraint_PRIMARYKEY
      else
        inr (tbl ++ [{| row_key := key; row_value := value;
                        row_created_at := now; row_updated_at := now |}], 1)
  | DeleteSettingWhere key =>
      inr (filter (λ r, row_key r ≠ key) tbl,
           Z.of_nat (length (filter (λ r, row_key r = key) tbl)))
  end.

(** [SELECT value FROM settings WHERE key = ?], scanned with [QueryRow]:
    the first matching row, [sql.ErrNoRows] when there is none. *)
Definition sql_ErrNoRows : error := errors_New "sql: no rows in result set".
Definition sql_ErrTxDone : error :=
  errors_New "sql: transaction has already been committed or rolled back".
Definition sql_errDBClosed : error := errors_New "sql: database is closed".

Definition select_value (key : string) (tbl : list Row) : result string :=
  match find (has_key key) tbl with
  | Some r => inr (row_value r)
  | None => inl sql_ErrNoRows
  end.

(** [*sql.DB]: the stored table, and whether [Close] was called. *)
Record sql_DB : Type := {
  db_closed : bool;
  db_settings : list Row;
}.

Definition sql_DB_Exec (c : sql_DB) (stmt : Stmt) : result Z * sql_DB :=
  if db_closed c then (inl sql_errDBClosed, c)
  else
    match exec_stmt stmt (db_settings c) with
    | inl err => (inl err, c)
    | inr (tbl, n) => (inr n, {| db_closed := false; db_settings := tbl |})
    end.

Definition sql_DB_QueryRow_value (c : sql_DB) (key : string) : result string :=
  if db_closed c then inl sql_errDBClosed else select_value key (db_settings c).

(** [SELECT key, value FROM settings] *)
Definition sql_DB_Query_all (c : sql_DB) : result (list (string * string)) :=
  if db_closed c then inl sql_errDBClosed
  else inr (map (λ r, (row_key r, row_value r)) (db_settings c)).

(** [SELECT EXISTS(SELECT 1 FROM settings WHERE key = ?)] *)
Definition sql_DB_QueryRow_exists (c : sql_DB) (key : string) : result bool :=
  if db_closed c then inl sql_errDBClosed
  else inr (existsb (has_key key) (db_settings c)).

(** [*sql.Tx]: the table as the transaction sees it, and whether the
    transaction was committed or rolled back. *)
Record sql_Tx : Type := {
  tx_settings : list Row;
  tx_done : bool;
}.

Definition sql_DB_Begin (c : sql_DB) : result sql_Tx :=
  if db_closed c then inl sql_errDBClosed
  else inr {| tx_settings := db_settings c; tx_done := false |}.

Definition sql_Tx_Exec (tx : sql_Tx) (stmt : Stmt) : result Z * sql_Tx :=
  if tx_done tx then (inl sql_ErrTxDone, tx)
  else
    match exec_stmt stmt (tx_settings tx) with
    | inl err => (inl err, tx)
    | inr (tbl, n) => (inr n, {| tx_settings := tbl; tx_done := false |})
    end.

Definition sql_Tx_QueryRow_value (tx : sql_Tx) (key : string) : result string :=
  if tx_done tx then inl sql_ErrTxDone else select_value key (tx_settings tx).

Definition sql_Tx_Commit (tx : sql_Tx) (c : sql_DB) : option error * sql_Tx * sql_DB :=
  if tx_done tx then (Some sql_ErrTxDone, tx, c)
  else (None, {| tx_settings := tx_settings tx; tx_done := true |},
        {| db_closed := db_closed c; db_settings := tx_settings tx |}).

Definition sql_Tx_Rollback (tx : sql_Tx) (c : sql_DB) : option error * sql_Tx * sql_DB :=
  if tx_done tx then (Some sql_ErrTxDone, tx, c)
  else (None, {| tx_settings := tx_settings tx; tx_done := true |}, c).

(** A function [func(tx *sql.Tx) error], as the calls it makes on the handle
    and what it does with each answer, until it returns or panics. *)
Inductive TxBody : Type :=
| Tx_return (err : option error)
| Tx_panic (v : string)
| Tx_Exec (stmt : Stmt) (k : result Z → TxBody)
| Tx_QueryRow (key : string) (k : result string → TxBody)
| Tx_Commit (k : option error → TxBody)
| Tx_Rollback (k : option error → TxBody).

(** How a call ends: it returns its [error] result, or a panic unwinds
    through it. *)
Inductive outcome : Type :=
| Returned (err : option error)
| Panicked (v : string).

Fixpoint run_TxBody (fn : TxBody) (tx : sql_Tx) (c : sql_DB)
    : outcome * sql_Tx * sql_DB :=
  match fn with
  | Tx_return err => (Returned err, tx, c)
  | Tx_panic v => (Panicked v, tx, c)
  | Tx_Exec stmt k =>
      let '(r, tx') := sql_Tx_Exec tx stmt in run_TxBody (k r) tx' c
  | Tx_QueryRow key k => run_TxBody (k (sql_Tx_QueryRow_value tx key)) tx c
  | Tx_Commit k =>
      let '(r, tx', c') := sql_Tx_Commit tx c in run_TxBody (k r) tx' c'
  | Tx_Rollback k =>
      let '(r, tx', c') := sql_Tx_Rollback tx c in run_TxBody (k r) tx' c'
  end.

(** ** internal/database/sqlite.go *)

Record DB : Type := {
  conn : sql_DB;
  encryption : DatabaseEncryption;
  dbPath : string;
}.

Definition with_conn (db : DB) (c : sql_DB) : DB :=
  {| conn := c; encryption := encryption db; dbPath := dbPath db |}.

Section Database.
Context {L : CryptoLib}.

Definition DB_GetSetting (db : DB) (key : string) : result string :=
  match sql_DB_QueryRow_value (conn db) key with
  | inl err =>
      if bool_decide (err = sql_ErrNoRows) then
        inl (fmt_Errorf_s "setting not found: %s" key)
      else inl (fmt_Errorf_w "failed to query setting: %w" err)
  | inr encryptedValue =>
      match DatabaseEncryption_Decrypt (encryption db) encryptedValue with
      | inl err => inl (fmt_Errorf_w "failed to decrypt setting value: %w" err)
      | inr decryptedValue => inr (string_of_bytes decryptedValue)
      end
  end.

(** [now] is the value of [CURRENT_TIMESTAMP] when the statement runs. *)
Definition DB_SetSetting (db : DB) (key value : string) (now : Time) (rnd : Reader)
    : option error * DB * Reader :=
  match DatabaseEncryption_Encrypt (encryption db) (bytes_of_string value) rnd with
  | (inl err, rnd') =>
      (Some (fmt_Errorf_w "failed to encrypt setting value: %w" err), db, rnd')
  | (inr encryptedValue, rnd') =>
      match sql_DB_Exec (conn db) (UpsertSetting key encryptedValue now) with
      | (inl err, c') =>
          (Some (fmt_Errorf_w "failed to set setting: %w" err), with_conn db c', rnd')
      | (inr _, c') => (None, with_conn db c', rnd')
      end
  end.

(** [result.RowsAffected()] cannot fail on this driver; its error branch has
    no counterpart here. *)
Definition DB_DeleteSetting (db : DB) (key : string) : option error * DB :=
  match sql_DB_Exec (conn db) (DeleteSettingWhere key) with
  | (inl err, c') =>
      (Some (fmt_Errorf_w "failed to delete setting: %w" err), with_conn db c')
  | (inr rowsAffected, c') =>
      if rowsAffected =? 0 then
        (Some (fmt_Errorf_s "setting not found: %s" key), with_conn db c')
      else (None, with_conn db c')
  end.

(** The loop body of [GetAllSettings] on one row. *)
Definition GetAllSettings_row (db : DB)
    (acc : gmap string string * list printed) (row : string * string)
    : gmap string string * list printed :=
  let '(settings, out) := acc in
  let '(key, encryptedValue) := row in
  match DatabaseEncryption_Decrypt (encryption db) encryptedValue with
  | inl err =>
      (settings,
       out ++ [fmt_Printf_s_v ("Warning: failed to decrypt setting %s: %v" +:+ LF)
                 key err])
  | inr decryptedValue => (<[key := string_of_bytes decryptedValue]> settings, out)
  end.

(** The map, and the warnings printed on the way.  [rows.Scan] and
    [rows.Err] report failures of the storage engine during the iteration;
    the engine modelled here has none once the query has started. *)
Definition DB_GetAllSettings (db : DB) : result (gmap string string) * list printed :=
  match sql_DB_Query_all (conn db) with
  | inl err => (inl (fmt_Errorf_w "failed to query settings: %w" err), [])
  | inr rows =>
      let '(settings, out) := fold_left (GetAllSettings_row db) rows (∅, []) in
      (inr settings, out)
  end.

Definition DB_SettingExists (db : DB) (key : string) : result bool :=
  wrap_err "failed to check setting existence: %w" (sql_DB_QueryRow_exists (conn db) key).

End Database.

(** [Transaction]: begin, run the function, then roll back or commit
    according to how it ended.  The deferred function of the source runs
    only when the function panics. *)
Definition DB_Transaction (db : DB) (fn : TxBody) : outcome * DB :=
  match sql_DB_Begin (conn db) with
  | inl err => (Returned (Some (fmt_Errorf_w "failed to begin transaction: %w" err)), db)
  | inr tx =>
      match run_TxBody fn tx (conn db) with
      | (Panicked v, tx', c') =>
          (* the deferred function: recover, roll back, panic again *)
          let '(_, _, c'') := sql_Tx_Rollback tx' c' in
          (Panicked v, with_conn db c'')
      | (Returned (Some err), tx', c') =>
          match sql_Tx_Rollback tx' c' with
          | (Some rbErr, _, c'') =>
              (Returned (Some (fmt_Errorf_v_w
                 "failed to rollback transaction: %v (original error: %w)" rbErr err)),
               with_conn db c'')
          | (None, _, c'') => (Returned (Some err), with_conn db c'')
          end
      | (Returned None, tx', c') =>
          match sql_Tx_Commit tx' c' with
          | (Some err, _, c'') =>
              (Returned (Some (fmt_Errorf_w "failed to commit transaction: %w" err)),
               with_conn db c'')
          | (None, _, c'') => (Returned None, with_conn db c'')
          end
      end
  end.

(** ** Predicates used in the statements *)

Definition is_lower_hex (c : byte) : bool :=
  bool_decide (c ∈ list_ascii_of_string hextable).

(** A fingerprint as [generateMachineID] makes it: 64 lower-case hex digits. *)
Definition well_formed_fingerprint (s : string) : Prop :=
  length (bytes_of_string s) = 64%nat ∧
  Forall (λ c, is_lower_hex c = true) (bytes_of_string s).

(** The primary-key constraint of the [settings] table. *)
Definition unique_keys (tbl : list Row) : Prop := NoDup (map row_key tbl).

(** The [DO UPDATE] branch of the upsert, on every row. *)
Definition update_matching (key value : string) (now : Time) (tbl : list Row) : list Row :=
  map (λ r, if has_key key r then update_row value now r else r) tbl.

(** The [created_at] of the row an upsert leaves for [key]: that of the row
    it replaced, or the time of the statement. *)
Definition created_at_after_upsert (key : string) (now : Time) (tbl : list Row) : Time :=
  match find (has_key key) tbl with
  | Some r => row_created_at r
  | None => now
  end.

(** The line [GetAllSettings] prints for a row it skips. *)
Definition decrypt_warning (key : string) (err : error) : printed :=
  fmt_Printf_s_v ("Warning: failed to decrypt setting %s: %v" +:+ LF) key err.

(** A typical transactional function: execute the statements in order and
    return the first error, [nil] when all went through. *)
Fixpoint exec_all (stmts : list Stmt) : TxBody :=
  match stmts with
  | [] => Tx_return None
  | stmt :: rest =>
      Tx_Exec stmt (λ r,
        match r with
        | inl err => Tx_return (Some err)
        | inr _ => exec_all rest
        end)
  end.

(** The statements applied to a table one after the other, stopping at
    the first that fails. *)
Fixpoint exec_stmts (stmts : list Stmt) (tbl : list Row) : result (list Row) :=
  match stmts with
  | [] => inr tbl
  | stmt :: rest =>
      match exec_stmt stmt tbl with
      | inl err => inl err
      | inr (tbl', _) => exec_stmts rest tbl'
      end
  end.

(** ** Example data

    Concrete inputs on which the model is run below: entropy, a server key,
    a host, registries, stores and transactional functions. *)

(** Twelve bytes of entropy and a 32-byte server key for the examples. *)
Definition example_entropy : Reader := bytes_of_string "0123456789ab".
Definition example_server_key : list byte :=
  bytes_of_string "0123456789abcdef0123456789abcdef".

(** A host with one loopback and one Ethernet interface, and two registries:
    an empty writable one, and one whose stored machine id was damaged. *)
Definition example_host : Host :=
  {| net_Interfaces :=
       inr [ {| Flags := 5; HardwareAddr := [] |};
             {| Flags := 3; HardwareAddr := bytes_of_string "POS-01" |} ];
     os_Hostname := inr "pos-01" |}.

Definition fresh_registry : Registry :=
  {| reg_keys := ∅; reg_writable := true |}.


Definition start_process (r : Registry) : Process Registry :=
  {| cachedMachineID := ""; platform_state := r; stdout := [] |}.

(** An open store on an empty table, keyed with [example_server_key], and
    entropy for three nonces. *)
Definition example_db : DB :=
  {| conn := {| db_closed := false; db_settings := [] |};
     encryption := {| serverKey := example_server_key |};
     dbPath := "data.db" |}.

Definition example_entropy36 : Reader :=
  bytes_of_string "0123456789abcdefghijklmnopqrstuvwxyz".

(** A table with one row sealed under [example_server_key] (the envelope
    [sim_crypto] makes of ["value1"] with nonce ["0123456789ab"]) and one
    row whose value is not an envelope at all. *)
Definition example_db_damaged : DB :=
  {| conn :=
       {| db_closed := false;
          db_settings :=
            [ {| row_key := "key1";
                 row_value := "MDEyMzQ1Njc4OWFiAJYUjB/KMfKzdDX2t3g5+rt8Pf6/gA==";
                 row_created_at := 100; row_updated_at := 100 |};
              {| row_key := "key2"; row_value := "damaged!";
                 row_created_at := 101; row_updated_at := 101 |} ] |};
     encryption := {| serverKey := example_server_key |};
     dbPath := "data.db" |}.

(** A function that inserts a row, commits the handle itself and then
    reports an error; and one that inserts, rolls back itself and reports
    success. *)
Definition commit_then_fail : TxBody :=
  Tx_Exec (InsertSetting "tx_key" "tx_value" 1)
    (λ _, Tx_Commit (λ _, Tx_return (Some (errors_New "boom")))).

Definition rollback_then_succeed : TxBody :=
  Tx_Exec (InsertSetting "tx_key" "tx_value" 1)
    (λ _, Tx_Rollback (λ _, Tx_return None)).
(** ** internal/database/sqlite.go: the life cycle of the connection *)

(** [sql.DB.Close]: from then on the handle refuses every statement; closing
    a closed handle is accepted.  [sql.DB.Ping] reports a closed handle. *)
Definition sql_DB_Close (c : sql_DB) : option error * sql_DB :=
  (None, {| db_closed := true; db_settings := db_settings c |}).

Definition sql_DB_Ping (c : sql_DB) : option error :=
  if db_closed c then Some sql_errDBClosed else None.

(** A [DB] is made by [New] alone and holds its connection from then on:
    the branches of [Close] and [Ping] for a missing connection have no
    counterpart here. *)
Definition DB_Close (db : DB) : option error * DB :=
  let '(err, c') := sql_DB_Close (conn db) in (err, with_conn db c').

Definition DB_Ping (db : DB) : option error := sql_DB_Ping (conn db).

Definition DB_GetConnection (db : DB) : sql_DB := conn db.

(** ** os: environment variables and files

    An error of the [os] package is a [*PathError] or a [*LinkError] around
    a system error number.  The file system is the regular files by path,
    with what the process is refused: the paths it may not create, replace
    or remove, and the files it may not read.  Directories are not tracked;
    a path can be created unless the file system refuses it. *)

Inductive syscall_Errno : Type := ENOENT | EACCES | ENOTDIR.

Definition Errno_Error (e : syscall_Errno) : string :=
  match e with
  | ENOENT => "no such file or directory"
  | EACCES => "permission denied"
  | ENOTDIR => "not a directory"
  end.

Inductive os_error : Type :=
| fs_PathError (op path : string) (errno : syscall_Errno)
| os_LinkError (op old new : string) (errno : syscall_Errno).

(** The error as a value of type [error]: the text names the operation and
    the path, and it unwraps to the error number. *)
Definition error_of_os (e : os_error) : error :=
  match e with
  | fs_PathError op path errno =>
      fmt_Errorf_w (op +:+ " " +:+ path +:+ ": %w") (errors_New (Errno_Error errno))
  | os_LinkError op old new errno =>
      fmt_Errorf_w (op +:+ " " +:+ old +:+ " " +:+ new +:+ ": %w")
        (errors_New (Errno_Error errno))
  end.

Definition os_IsNotExist (err : option os_error) : bool :=
  match err with
  | Some (fs_PathError _ _ ENOENT) | Some (os_LinkError _ _ _ ENOENT) => true
  | _ => false
  end.

Record FileSystem : Type := {
  fs_files : gmap string (list byte);
  fs_denied : gset string;
  fs_unreadable : gset string;
}.

Definition with_files (fs : FileSystem) (files : gmap string (list byte)) : FileSystem :=
  {| fs_files := files; fs_denied := fs_denied fs; fs_unreadable := fs_unreadable fs |}.

Definition os_Stat (fs : FileSystem) (name : string) : option os_error :=
  match fs_files fs !! name with
  | Some _ => None
  | None => Some (fs_PathError "stat" name ENOENT)
  end.

Definition os_ReadFile (fs : FileSystem) (name : string) : os_error + list byte :=
  match fs_files fs !! name with
  | None => inl (fs_PathError "open" name ENOENT)
  | Some data =>
      if bool_decide (name ∈ fs_unreadable fs) then inl (fs_PathError "open" name EACCES)
      else inr data
  end.

Definition os_MkdirAll (fs : FileSystem) (path : string) : option os_error :=
  match fs_files fs !! path with
  | Some _ => Some (fs_PathError "mkdir" path ENOTDIR)
  | None =>
      if bool_decide (path ∈ fs_denied fs) then Some (fs_PathError "mkdir" path EACCES)
      else None
  end.

Definition os_WriteFile (fs : FileSystem) (name : string) (data : list byte)
    : option os_error * FileSystem :=
  if bool_decide (name ∈ fs_denied fs) then (Some (fs_PathError "open" name EACCES), fs)
  else (None, with_files fs (<[name := data]> (fs_files fs))).

Definition os_Rename (fs : FileSystem) (oldpath newpath : string)
    : option os_error * FileSystem :=
  match fs_files fs !! oldpath with
  | None => (Some (os_LinkError "rename" oldpath newpath ENOENT), fs)
  | Some data =>
      if bool_decide (oldpath ∈ fs_denied fs ∨ newpath ∈ fs_denied fs) then
        (Some (os_LinkError "rename" oldpath newpath EACCES), fs)
      else (None, with_files fs (<[newpath := data]> (delete oldpath (fs_files fs))))
  end.

Definition os_Remove (fs : FileSystem) (name : string) : option os_error * FileSystem :=
  match fs_files fs !! name with
  | None => (Some (fs_PathError "remove" name ENOENT), fs)
  | Some _ =>
      if bool_decide (name ∈ fs_denied fs) then
        (Some (fs_PathError "remove" name EACCES), fs)
      else (None, with_files fs (delete name (fs_files fs)))
  end.

(** [os.Getenv]: the value of the variable, empty when it is not set. *)
Definition os_Getenv (env : gmap string string) (key : string) : string :=
  default "" (env !! key).

(** ** pkg/constants *)

Definition ConfigFileName : string := "config.enc".
Definition DefaultPort : Z := 8080.
Definition DefaultSyncInterval : Z := 59.
Definition DefaultMaxOfflineHours : Z := 24.
Definition DefaultLogLevel : string := "info".

(** ** The config package: [Config] and [Manager]

    The [Config] struct without its mutex.  The first seven fields are the
    exported ones, which [encoding/json] reads and writes; the last three
    are internal.  [c_encryption] is a pointer ([None] is nil) and
    [c_lastSaved] a [time.Time] ([None] is the zero time). *)
Record Config : Type := {
  ServerURL : string;
  StoreID : string;
  Port : Z;
  SyncInterval : Z;
  MaxOfflineHours : Z;
  LogLevel : string;
  Encrypted : bool;
  c_encryption : option ConfigEncryption;
  c_filePath : string;
  c_lastSaved : option Time;
}.

(** What [encoding/json] sees of a [Config]: the exported fields. *)
Definition exported (c : Config) : Config :=
  {| ServerURL := ServerURL c; StoreID := StoreID c; Port := Port c;
     SyncInterval := SyncInterval c; MaxOfflineHours := MaxOfflineHours c;
     LogLevel := LogLevel c; Encrypted := Encrypted c;
     c_encryption := None; c_filePath := ""; c_lastSaved := None |}.

Definition set_Encrypted (c : Config) (b : bool) : Config :=
  {| ServerURL := ServerURL c; StoreID := StoreID c; Port := Port c;
     SyncInterval := SyncInterval c; MaxOfflineHours := MaxOfflineHours c;
     LogLevel := LogLevel c; Encrypted := b;
     c_encryption := c_encryption c; c_filePath := c_filePath c;
     c_lastSaved := c_lastSaved c |}.

Definition set_lastSaved (c : Config) (t : Time) : Config :=
  {| ServerURL := ServerURL c; StoreID := StoreID c; Port := Port c;
     SyncInterval := SyncInterval c; MaxOfflineHours := MaxOfflineHours c;
     LogLevel := LogLevel c; Encrypted := Encrypted c;
     c_encryption := c_encryption c; c_filePath := c_filePath c;
     c_lastSaved := Some t |}.

(** [encoding/json] on a [Config], and the two functions of [path/filepath]
    the package calls, whose results depend on the operating system. *)
Class JsonLib : Type := {
  json_MarshalIndent : Config → string → string → result (list byte);
  json_Unmarshal : list byte → result Config;
}.

Class FilepathLib : Type := {
  filepath_Join : list string → string;
  filepath_Dir : string → string;
}.

(** A [*Config] is an address in the heap of [Config] objects, or nil.
    Objects are never freed; a new one gets the next address. *)
Abbreviation Heap := (list Config) (only parsing).

Definition new_Config (heap : Heap) (c : Config) : nat * Heap :=
  (length heap, heap ++ [c]).

(** The [Manager] struct.  [m_config] is a [*Config]; [m_mu] tells whether
    the manager's mutex is held.  A manager is made by [NewManager] alone,
    so its [encryption] is never nil. *)
Record Manager : Type := {
  m_config : option nat;
  m_encryption : ConfigEncryption;
  m_configPath : string;
  m_machineID : string;
  m_mu : bool;
}.

Definition set_m_config (m : Manager) (p : option nat) : Manager :=
  {| m_config := p; m_encryption := m_encryption m; m_configPath := m_configPath m;
     m_machineID := m_machineID m; m_mu := m_mu m |}.

Definition set_m_mu (m : Manager) (held : bool) : Manager :=
  {| m_config := m_config m; m_encryption := m_encryption m;
     m_configPath := m_configPath m; m_machineID := m_machineID m; m_mu := held |}.

(** What the methods read and write besides the manager: the heap, the
    file system and the entropy source. *)
Record World : Type := {
  w_heap : Heap;
  w_fs : FileSystem;
  w_rnd : Reader;
}.

Definition set_w_heap (w : World) (heap : Heap) : World :=
  {| w_heap := heap; w_fs := w_fs w; w_rnd := w_rnd w |}.

Definition set_w_fs (w : World) (fs : FileSystem) : World :=
  {| w_heap := w_heap w; w_fs := fs; w_rnd := w_rnd w |}.

Definition set_w_rnd (w : World) (rnd : Reader) : World :=
  {| w_heap := w_heap w; w_fs := w_fs w; w_rnd := rnd |}.

(** How a method call ends: it returns, it panics, or it waits for ever
    for a mutex that is held (calls are sequential, so nobody is left to
    release it). *)
Inductive call (A : Type) : Type :=
| returns (a : A)
| panics (v : string)
| blocks.
Arguments returns {A} a.
Arguments panics {A} v.
Arguments blocks {A}.

Definition nil_dereference : string :=
  "runtime error: invalid memory address or nil pointer dereference".

(** [Validate], on the object the receiver points to. *)
Definition validLogLevels : gmap string bool :=
  {[ "debug" := true; "info" := true; "warn" := true; "error" := true ]}.

Definition Config_Validate (c : Config) : option error :=
  if bool_decide (ServerURL c = "") then Some (fmt_Errorf "server_url cannot be empty")
  else if bool_decide (StoreID c = "") then Some (fmt_Errorf "store_id cannot be empty")
  else if (Port c <? 1) || (65535 <? Port c) then
    Some (fmt_Errorf "port must be between 1 and 65535")
  else if SyncInterval c <? 1 then
    Some (fmt_Errorf "sync_interval must be at least 1 second")
  else if MaxOfflineHours c <? 1 then
    Some (fmt_Errorf "max_offline_hours must be at least 1 hour")
  else if negb (default false (validLogLevels !! LogLevel c)) then
    Some (fmt_Errorf "invalid log_level: must be debug, info, warn, or error")
  else None.

Section ConfigManager.
Context {L : CryptoLib} {J : JsonLib} {F : FilepathLib}.

(** [env] is the environment of the process. *)
Definition NewManager (machineID : string) (env : gmap string string) : result Manager :=
  if bool_decide (machineID = "") then inl (fmt_Errorf "machine ID cannot be empty")
  else
    match NewConfigEncryption machineID with
    | inl err => inl (fmt_Errorf_w "failed to create config encryption: %w" err)
    | inr encryption =>
        let configDir := os_Getenv env "PROGRAMDATA" in
        let configDir := if bool_decide (configDir = "") then "." else configDir in
        let configPath := filepath_Join [configDir; "POSService"; ConfigFileName] in
        inr {| m_config := None; m_encryption := encryption; m_configPath := configPath;
               m_machineID := machineID; m_mu := false |}
    end.

Definition Manager_getDefaultConfig (m : Manager) : Config :=
  {| ServerURL := ""; StoreID := ""; Port := DefaultPort;
     SyncInterval := DefaultSyncInterval; MaxOfflineHours := DefaultMaxOfflineHours;
     LogLevel := DefaultLogLevel; Encrypted := false;
     c_encryption := Some (m_encryption m); c_filePath := m_configPath m;
     c_lastSaved := None |}.

(** [Load].  The mutex is taken on entry and released when the method
    returns; the manager in the result is the manager after the call. *)
Definition Manager_Load (m : Manager) (w : World)
    : call (result nat) * Manager * World :=
  if m_mu m then (blocks, m, w)
  else if os_IsNotExist (os_Stat (w_fs w) (m_configPath m)) then
    let '(config, heap) := new_Config (w_heap w) (Manager_getDefaultConfig m) in
    (returns (inr config), set_m_config m (Some config), set_w_heap w heap)
  else
    match os_ReadFile (w_fs w) (m_configPath m) with
    | inl err =>
        (returns (inl (fmt_Errorf_w "failed to read config file: %w" (error_of_os err))),
         m, w)
    | inr encryptedData =>
        match ConfigEncryption_Decrypt (m_encryption m) (string_of_bytes encryptedData) with
        | inl err =>
            (returns (inl (fmt_Errorf_w "failed to decrypt config: %w" err)), m, w)
        | inr decryptedData =>
            match json_Unmarshal decryptedData with
            | inl err =>
                (returns (inl (fmt_Errorf_w "failed to parse config JSON: %w" err)), m, w)
            | inr parsed =>
                let '(config, heap) :=
                  new_Config (w_heap w)
                    {| ServerURL := ServerURL parsed; StoreID := StoreID parsed;
                       Port := Port parsed; SyncInterval := SyncInterval parsed;
                       MaxOfflineHours := MaxOfflineHours parsed;
                       LogLevel := LogLevel parsed; Encrypted := true;
                       c_encryption := Some (m_encryption m);
                       c_filePath := m_configPath m; c_lastSaved := None |} in
                (returns (inr config), set_m_config m (Some config), set_w_heap w heap)
            end
        end
    end.

(** [Save]; [config] is the pointer passed in, [now] the value of
    [time.Now()]. *)
Definition Manager_Save (m : Manager) (config : option nat) (now : Time) (w : World)
    : call (option error) * Manager * World :=
  if m_mu m then (blocks, m, w)
  else
    match os_MkdirAll (w_fs w) (filepath_Dir (m_configPath m)) with
    | Some err =>
        (returns (Some (fmt_Errorf_w "failed to create config directory: %w"
                          (error_of_os err))), m, w)
    | None =>
        match config ≫= (λ a, (λ c, (a, c)) <$> w_heap w !! a) with
        | None => (panics nil_dereference, m, w)
        | Some (a, c) =>
            (* config.Encrypted = true *)
            let c := set_Encrypted c true in
            let w := set_w_heap w (<[a := c]> (w_heap w)) in
            match json_MarshalIndent (exported c) "" "  " with
            | inl err =>
                (returns (Some (fmt_Errorf_w "failed to marshal config: %w" err)), m, w)
            | inr jsonData =>
                match ConfigEncryption_Encrypt (m_encryption m) jsonData (w_rnd w) with
                | (inl err, rnd) =>
                    (returns (Some (fmt_Errorf_w "failed to encrypt config: %w" err)),
                     m, set_w_rnd w rnd)
                | (inr encryptedData, rnd) =>
                    let w := set_w_rnd w rnd in
                    let tempPath := m_configPath m +:+ ".tmp" in
                    match os_WriteFile (w_fs w) tempPath (bytes_of_string encryptedData) with
                    | (Some err, fs) =>
                        (returns (Some (fmt_Errorf_w "failed to write temp config file: %w"
                                          (error_of_os err))), m, set_w_fs w fs)
                    | (None, fs) =>
                        match os_Rename fs tempPath (m_configPath m) with
                        | (Some err, fs) =>
                            let '(_, fs) := os_Remove fs tempPath in
                            (returns (Some (fmt_Errorf_w "failed to rename config file: %w"
                                              (error_of_os err))), m, set_w_fs w fs)
                        | (None, fs) =>
                            (* config.lastSaved = time.Now(); m.config = config *)
                            let w := set_w_fs w fs in
                            let w := set_w_heap w (<[a := set_lastSaved c now]> (w_heap w)) in
                            (returns None, set_m_config m (Some a), w)
                        end
                    end
                end
            end
        end
    end.

(** [Get]: a pointer to a copy of the current configuration. *)
Definition Manager_Get (m : Manager) (w : World) : call (result nat) * World :=
  if m_mu m then (blocks, w)
  else
    match m_config m ≫= (λ a, w_heap w !! a) with
    | None => (returns (inl (fmt_Errorf "configuration not loaded")), w)
    | Some c =>
        let '(configCopy, heap) := new_Config (w_heap w) c in
        (returns (inr configCopy), set_w_heap w heap)
    end.

(** [Update].  [updateFunc] is given as what it does to the object it is
    handed and the error it returns.  [Update] takes the mutex and, still
    holding it, calls [Save]. *)
Definition Manager_Update (m : Manager) (updateFunc : Config → option error * Config)
    (now : Time) (w : World) : call (option error) * Manager * World :=
  if m_mu m then (blocks, m, w)
  else
    let m := set_m_mu m true in
    match m_config m ≫= (λ a, (λ c, (a, c)) <$> w_heap w !! a) with
    | None =>
        (returns (Some (fmt_Errorf "configuration not loaded")), set_m_mu m false, w)
    | Some (a, c) =>
        let '(err, c) := updateFunc c in
        let w := set_w_heap w (<[a := c]> (w_heap w)) in
        match err with
        | Some err =>
            (returns (Some (fmt_Errorf_w "failed to update config: %w" err)),
             set_m_mu m false, w)
        | None =>
            match Manager_Save m (m_config m) now w with
            | (returns err, m, w) => (returns err, set_m_mu m false, w)
            | (panics v, m, w) => (panics v, set_m_mu m false, w)
            | (blocks, m, w) => (blocks, m, w)
            end
        end
    end.

End ConfigManager.

(** ** strings

    [TrimSpace] has a fast path for ASCII, spelled out here; when it meets
    a byte outside ASCII it hands over to [TrimFunc] or [TrimRightFunc]
    with [unicode.IsSpace], which are taken through an interface. *)

Class UnicodeLib : Type := {
  strings_TrimFunc_IsSpace : string → string;
  strings_TrimRightFunc_IsSpace : string → string;
}.

(** The table [asciiSpace]: tab, line feed, vertical tab, form feed,
    carriage return and space. *)
Definition asciiSpace (c : byte) : bool :=
  bool_decide (c ∈ ["009"; "010"; "011"; "012"; "013"; " "]%char).

Definition utf8_RuneSelf : Z := 128.

(** One loop of [TrimSpace]: skip ASCII white space; stop, with what is
    left, at the first other byte, telling whether it is outside ASCII. *)
Fixpoint TrimSpace_scan (s : list byte) : bool * list byte :=
  match s with
  | [] => (false, [])
  | c :: rest =>
      if utf8_RuneSelf <=? byte_to_Z c then (true, s)
      else if asciiSpace c then TrimSpace_scan rest
      else (false, s)
  end.

Section Strings.
Context {U : UnicodeLib}.

(** The first loop runs from the front, the second from the back of what
    the first has left. *)
Definition strings_TrimSpace (s : string) : string :=
  match TrimSpace_scan (bytes_of_string s) with
  | (true, rest) => strings_TrimFunc_IsSpace (string_of_bytes rest)
  | (false, rest) =>
      match TrimSpace_scan (rev rest) with
      | (true, kept) => strings_TrimRightFunc_IsSpace (string_of_bytes (rev kept))
      | (false, kept) => string_of_bytes (rev kept)
      end
  end.

End Strings.

(** [strings.Split(s, sep)] for a separator of one byte: the pieces between
    the separators, one piece more than there are separators. *)
Fixpoint Split_bytes (s : list byte) (sep : byte) : list (list byte) :=
  match s with
  | [] => [[]]
  | c :: rest =>
      if bool_decide (c = sep) then [] :: Split_bytes rest sep
      else
        match Split_bytes rest sep with
        | piece :: pieces => (c :: piece) :: pieces
        | [] => [[c]]
        end
  end.

Definition strings_Split (s : string) (sep : byte) : list string :=
  map string_of_bytes (Split_bytes (bytes_of_string s) sep).

(** [strings.SplitN(s, sep, 2)] for a separator of one byte: the text
    before and after the first separator, or [s] alone when it has none. *)
Fixpoint cut_bytes (s : list byte) (sep : byte) : option (list byte * list byte) :=
  match s with
  | [] => None
  | c :: rest =>
      if bool_decide (c = sep) then Some ([], rest)
      else
        match cut_bytes rest sep with
        | Some (before, after) => Some (c :: before, after)
        | None => None
        end
  end.

Definition strings_SplitN_2 (s : string) (sep : byte) : list string :=
  match cut_bytes (bytes_of_string s) sep with
  | Some (before, after) => [string_of_bytes before; string_of_bytes after]
  | None => [s]
  end.

Definition strings_HasPrefix (s prefix : string) : bool := String.prefix prefix s.

(** *** The Linux platform ([machine_id_linux.go])

    The platform state is the file system. *)

(** [getWindowsProductID] as the Linux file has it. *)
Definition linux_getWindowsProductID : result string :=
  inl (fmt_Errorf "not on Windows").

Section Linux.
Context {U : UnicodeLib}.

(** The body of the loop of [getCPUInfo] over the lines. *)
Definition linux_getCPUInfo_line (acc : string * string) (line : string)
    : string * string :=
  let '(cpuModel, cpuSerial) := acc in
  let cpuModel :=
    if strings_HasPrefix line "model name" then
      match strings_SplitN_2 line ":"%char with
      | [_; value] => strings_TrimSpace value
      | _ => cpuModel
      end
    else cpuModel in
  let cpuSerial :=
    if strings_HasPrefix line "Serial" then
      match strings_SplitN_2 line ":"%char with
      | [_; value] => strings_TrimSpace value
      | _ => cpuSerial
      end
    else cpuSerial in
  (cpuModel, cpuSerial).

Definition linux_getCPUInfo (fs : FileSystem) : result string :=
  match os_ReadFile fs "/proc/cpuinfo" with
  | inl err => inl (error_of_os err)
  | inr data =>
      let lines := strings_Split (string_of_bytes data) newline_LF in
      let '(cpuModel, cpuSerial) := fold_left linux_getCPUInfo_line lines ("", "") in
      if negb (bool_decide (cpuModel = "")) then
        if negb (bool_decide (cpuSerial = "")) then inr (cpuModel +:+ "|" +:+ cpuSerial)
        else inr cpuModel
      else inl (fmt_Errorf "could not determine CPU info")
  end.

Definition linux_machineIDPath : string := "/var/lib/posservice/machine_id".

Definition linux_readMachineIDFromRegistry (fs : FileSystem) : result string :=
  match os_ReadFile fs linux_machineIDPath with
  | inl err => inl (error_of_os err)
  | inr data => inr (strings_TrimSpace (string_of_bytes data))
  end.

Definition linux_saveMachineIDToRegistry (machineID : string) (fs : FileSystem)
    : option error * FileSystem :=
  let dir := "/var/lib/posservice" in
  let machineIDPath := dir +:+ "/machine_id" in
  match os_MkdirAll fs dir with
  | Some err =>
      (Some (fmt_Errorf_w "failed to create directory: %w" (error_of_os err)), fs)
  | None =>
      match os_WriteFile fs machineIDPath (bytes_of_string machineID) with
      | (Some err, fs') =>
          (Some (fmt_Errorf_w "failed to write machine ID file: %w" (error_of_os err)),
           fs')
      | (None, fs') => (None, fs')
      end
  end.

Definition linux_platformSpecificID (fs : FileSystem) : result (list string) :=
  let data : list string := [] in
  let data :=
    match os_ReadFile fs "/etc/machine-id" with
    | inr machineID =>
        if (0 <? length machineID)%nat then
          data ++ [strings_TrimSpace (string_of_bytes machineID)]
        else data
    | inl _ => data
    end in
  let data :=
    if bool_decide (length data = 0%nat) then
      match os_ReadFile fs "/var/lib/dbus/machine-id" with
      | inr dbusMachineID =>
          if (0 <? length dbusMachineID)%nat then
            data ++ [strings_TrimSpace (string_of_bytes dbusMachineID)]
          else data
      | inl _ => data
      end
    else data in
  let data :=
    match linux_getCPUInfo fs with
    | inr cpuInfo => data ++ [cpuInfo]
    | inl _ => data
    end in
  if bool_decide (length data = 0%nat) then
    inl (fmt_Errorf "could not collect Linux-specific data")
  else inr data.

#[global] Instance linux_platform : Platform FileSystem :=
  {| readMachineIDFromRegistry := linux_readMachineIDFromRegistry;
     saveMachineIDToRegistry := linux_saveMachineIDToRegistry;
     platformSpecificID := linux_platformSpecificID |}.

End Linux.

(** ** Instances of the two interfaces

    Stand-ins on which the model of the config package runs: a codec that
    writes the three strings on a line each, followed by the numbers as
    bytes, and reads that format back; and slash-separated paths.  The
    general theorems do not mention them. *)

Fixpoint split_line (data : list byte) : option (list byte * list byte) :=
  match data with
  | [] => None
  | c :: rest =>
      if bool_decide (c = newline_LF) then Some ([], rest)
      else
        match split_line rest with
        | Some (line, rest') => Some (c :: line, rest')
        | None => None
        end
  end.

Definition sim_json_MarshalIndent (c : Config) (prefix indent : string)
    : result (list byte) :=
  inr (bytes_of_string (ServerURL c) ++ [newline_LF] ++
       bytes_of_string (StoreID c) ++ [newline_LF] ++
       bytes_of_string (LogLevel c) ++ [newline_LF] ++
       [byte_of_Z (Port c / 256); byte_of_Z (Port c); byte_of_Z (SyncInterval c);
        byte_of_Z (MaxOfflineHours c); if Encrypted c then "1"%char else "0"%char]).

Definition sim_json_Unmarshal (data : list byte) : result Config :=
  match split_line data with
  | Some (url, rest1) =>
      match split_line rest1 with
      | Some (store, rest2) =>
          match split_line rest2 with
          | Some (level, [p1; p0; si; mo; e]) =>
              inr {| ServerURL := string_of_bytes url; StoreID := string_of_bytes store;
                     Port := byte_to_Z p1 * 256 + byte_to_Z p0;
                     SyncInterval := byte_to_Z si; MaxOfflineHours := byte_to_Z mo;
                     LogLevel := string_of_bytes level;
                     Encrypted := bool_decide (e = "1"%char);
                     c_encryption := None; c_filePath := ""; c_lastSaved := None |}
          | _ => inl (errors_New "unexpected end of JSON input")
          end
      | None => inl (errors_New "unexpected end of JSON input")
      end
  | None => inl (errors_New "unexpected end of JSON input")
  end.

Definition sim_json : JsonLib :=
  {| json_MarshalIndent := sim_json_MarshalIndent;
     json_Unmarshal := sim_json_Unmarshal |}.

Fixpoint sim_dir (path : list byte) : option (list byte) :=
  match path with
  | [] => None
  | c :: rest =>
      match sim_dir rest with
      | Some d => Some (c :: d)
      | None => if bool_decide (c = "/"%char) then Some [] else None
      end
  end.

Definition sim_filepath : FilepathLib :=
  {| filepath_Join := String.concat "/";
     filepath_Dir path :=
       match sim_dir (bytes_of_string path) with
       | Some [] => "/"
       | Some d => string_of_bytes d
       | None => "."
       end |}.

(** A stand-in for the Unicode part of [TrimSpace] that trims nothing. *)
Definition sim_unicode : UnicodeLib :=
  {| strings_TrimFunc_IsSpace s := s; strings_TrimRightFunc_IsSpace s := s |}.

(** ** Predicates for the Linux platform *)

(** A byte at which [TrimSpace] stops without leaving its fast path: ASCII
    and not white space. *)
Definition ascii_nonspace (c : byte) : bool :=
  (byte_to_Z c <? utf8_RuneSelf) && negb (asciiSpace c).

(** A text that begins and ends with such a byte. *)
Definition ascii_trimmed (s : list byte) : Prop :=
  match s, rev s with
  | c :: _, e :: _ => ascii_nonspace c = true ∧ ascii_nonspace e = true
  | _, _ => False
  end.

(** Whether a file can be read and is not empty. *)
Definition readable_nonempty (fs : FileSystem) (name : string) : bool :=
  match os_ReadFile fs name with
  | inr (_ :: _) => true
  | _ => false
  end.

Section LinuxPredicates.
Context {U : UnicodeLib}.

(** The value a line of [/proc/cpuinfo] gives for a key: the line starts
    with the key and has a colon; the value is what follows the first
    colon, trimmed. *)
Definition cpuinfo_value (key line : string) : option string :=
  if strings_HasPrefix line key then
    match strings_SplitN_2 line ":"%char with
    | [_; value] => Some (strings_TrimSpace value)
    | _ => None
    end
  else None.

End LinuxPredicates.

(** ** Further example data *)

(** The first 32 bytes of [example_entropy36], as a server key. *)
Definition example_server_key_36 : list byte :=
  bytes_of_string "0123456789abcdefghijklmnopqrstuv".

(** An interface [getPrimaryMACAddress] settles on: up, not the loopback,
    and with a hardware address. *)
Definition usable_interface (iface : net_Interface) : bool :=
  (Z.land (Flags iface) net_FlagLoopback =? 0) &&
  negb (Z.land (Flags iface) net_FlagUp =? 0) &&
  negb (bool_decide (HardwareAddr iface = [])).

(** The process started anew on the same machine: the package variable
    [cachedMachineID] is empty again, the platform state is what the
    previous process left. *)
Definition restart {OS : Type} (p : Process OS) : Process OS :=
  {| cachedMachineID := ""; platform_state := platform_state p; stdout := stdout p |}.

(** A host that answers none of the portable queries usefully (only the
    loopback interface, no host name), and a registry the process may not
    write to. *)
Definition silent_host : Host :=
  {| net_Interfaces := inr [ {| Flags := 5; HardwareAddr := [] |} ];
     os_Hostname := inl (errors_New "hostname unavailable") |}.

Definition readonly_registry : Registry :=
  {| reg_keys := ∅; reg_writable := false |}.

(** A text without its line breaks (the bytes [\n] and [\r]). *)
Fixpoint without_newlines (src : list byte) : list byte :=
  match src with
  | [] => []
  | c :: rest =>
      if is_newline c then without_newlines rest else c :: without_newlines rest
  end.

(** A file system with no files that refuses nothing, one that refuses
    the path of the configuration file, and a world with an empty heap. *)
Definition empty_fs : FileSystem :=
  {| fs_files := ∅; fs_denied := ∅; fs_unreadable := ∅ |}.

Definition example_config_path : string := "./POSService/config.enc".

Definition protected_fs : FileSystem :=
  {| fs_files := ∅; fs_denied := {[ example_config_path ]}; fs_unreadable := ∅ |}.

Definition example_world (fs : FileSystem) : World :=
  {| w_heap := []; w_fs := fs; w_rnd := example_entropy36 |}.

(** The manager [NewManager] makes for the machine id ["machine-1"] when
    [PROGRAMDATA] is not set, and a configuration as an operator would fill
    it in. *)
Definition example_manager : Manager :=
  {| m_config := None;
     m_encryption :=
       {| ce_machineID := "machine-1";
          ce_key :=
            @pbkdf2_Key sim_crypto (bytes_of_string hardcodedEncryptionKey)
              (bytes_of_string "machine-1") pbkdf2Iterations aes256KeySize tt |};
     m_configPath := example_config_path; m_machineID := "machine-1"; m_mu := false |}.

Definition example_config : Config :=
  {| ServerURL := "https://example.com"; StoreID := "12345"; Port := 8080;
     SyncInterval := 59; MaxOfflineHours := 24; LogLevel := "info";
     Encrypted := false; c_encryption := Some (m_encryption example_manager);
     c_filePath := example_config_path; c_lastSaved := None |}.

(** An update function that sets the port, and one that sets it and then
    reports an error. *)
Definition set_port (port : Z) (c : Config) : option error * Config :=
  (None,
   {| ServerURL := ServerURL c; StoreID := StoreID c; Port := port;
      SyncInterval := SyncInterval c; MaxOfflineHours := MaxOfflineHours c;
      LogLevel := LogLevel c; Encrypted := Encrypted c;
      c_encryption := c_encryption c; c_filePath := c_filePath c;
      c_lastSaved := c_lastSaved c |}).

Definition set_port_and_fail (port : Z) (c : Config) : option error * Config :=
  (Some (errors_New "port rejected"), (set_port port c).2).

(** The object [Load] makes of a parsed document. *)
Definition loaded_Config (m : Manager) (parsed : Config) : Config :=
  {| ServerURL := ServerURL parsed; StoreID := StoreID parsed; Port := Port parsed;
     SyncInterval := SyncInterval parsed; MaxOfflineHours := MaxOfflineHours parsed;
     LogLevel := LogLevel parsed; Encrypted := true;
     c_encryption := Some (m_encryption m); c_filePath := m_configPath m;
     c_lastSaved := None |}.

(** A Linux machine: a systemd machine id, and a two-core [/proc/cpuinfo]. *)
Definition example_cpuinfo : string :=
  "processor" +:+ String "009" (": 0" +:+ LF) +:+
  "model name" +:+ String "009" (": POS CPU 1.0" +:+ LF) +:+
  "processor" +:+ String "009" (": 1" +:+ LF) +:+
  "model name" +:+ String "009" (": POS CPU 1.0" +:+ LF).

Definition linux_fs : FileSystem :=
  {| fs_files :=
       {[ "/etc/machine-id" := bytes_of_string ("0a1b2c3d4e5f" +:+ LF);
          "/proc/cpuinfo" := bytes_of_string example_cpuinfo ]};
     fs_denied := ∅; fs_unreadable := ∅ |}.
(** * Properties of the encodings *)

Arguments enc_encode : simpl never.
Arguments enc_decodeMap : simpl never.
Arguments byte_of_Z : simpl never.
Arguments byte_to_Z : simpl never.
Arguments quantum_val : simpl never.
Arguments hex_digit : simpl never.

Lemma byte_to_Z_range (b : byte) : 0 ≤ byte_to_Z b < 256.
Proof.
  unfold byte_to_Z. pose proof (N_ascii_bounded b). lia.
Qed.

Lemma byte_of_Z_mod (z : Z) (b : byte) : z mod 256 = byte_to_Z b → byte_of_Z z = b.
Proof.
  unfold byte_of_Z, byte_to_Z. intros ->.
  rewrite N2Z.id. apply ascii_N_embedding.
Qed.

Lemma byte_of_to_Z (b : byte) : byte_of_Z (byte_to_Z b) = b.
Proof.
  apply byte_of_Z_mod. pose proof (byte_to_Z_range b).
  by rewrite Z.mod_small.
Qed.

(** [a | b] is [a + b] when [b] fits below the lowest set bit of [a]. *)
Lemma lor_disjoint_add (n a b : Z) :
  0 ≤ n → a mod 2 ^ n = 0 → 0 ≤ b < 2 ^ n → Z.lor a b = a + b.
Proof.
  intros Hn Ha Hb. symmetry. apply Z.add_nocarry_lor.
  apply Z.bits_inj'. intros i Hi.
  rewrite Z.land_spec, Z.bits_0.
  destruct (decide (i < n)) as [Hlt | Hge].
  - rewrite <- (Z.mod_pow2_bits_low a n i), Ha, Z.bits_0 by lia. done.
  - rewrite <- (Z.mod_small b (2 ^ n)) by lia.
    rewrite Z.mod_pow2_bits_high by lia. apply andb_false_r.
Qed.

Ltac pow2_consts :=
  repeat match goal with
    | |- context [2 ^ ?k] =>
        let v := eval compute in (2 ^ k) in change (2 ^ k) with v
    end.

Ltac shifts_to_arith :=
  repeat first
    [ rewrite Z.shiftl_mul_pow2 by lia
    | rewrite Z.shiftr_div_pow2 by lia
    | progress change 63 with (Z.ones 6)
    | progress change 15 with (Z.ones 4)
    | rewrite Z.land_ones by lia ];
  pow2_consts.

Ltac divmod_lia := pow2_consts; Z.div_mod_to_equations; lia.

Lemma quantum_val_arith (d0 d1 d2 d3 : Z) :
  0 ≤ d0 < 64 → 0 ≤ d1 < 64 → 0 ≤ d2 < 64 → 0 ≤ d3 < 64 →
  quantum_val d0 d1 d2 d3 = d0 * 262144 + d1 * 4096 + d2 * 64 + d3.
Proof.
  intros H0 H1 H2 H3. unfold quantum_val. shifts_to_arith.
  rewrite (lor_disjoint_add 18 (d0 * 262144) (d1 * 4096)) by divmod_lia.
  rewrite (lor_disjoint_add 12 _ (d2 * 64)) by divmod_lia.
  rewrite (lor_disjoint_add 6 _ d3) by divmod_lia.
  done.
Qed.

Lemma bytes3_val_arith (b0 b1 b2 : Z) :
  0 ≤ b0 < 256 → 0 ≤ b1 < 256 → 0 ≤ b2 < 256 →
  Z.lor (Z.lor (b0 ≪ 16) (b1 ≪ 8)) b2 = b0 * 65536 + b1 * 256 + b2.
Proof.
  intros H0 H1 H2. shifts_to_arith.
  rewrite (lor_disjoint_add 16 (b0 * 65536) (b1 * 256)) by divmod_lia.
  rewrite (lor_disjoint_add 8 _ b2) by divmod_lia.
  done.
Qed.

Lemma bytes2_val_arith (b0 b1 : Z) :
  0 ≤ b0 < 256 → 0 ≤ b1 < 256 →
  Z.lor (b0 ≪ 16) (b1 ≪ 8) = b0 * 65536 + b1 * 256.
Proof.
  intros H0 H1. shifts_to_arith.
  rewrite (lor_disjoint_add 16 (b0 * 65536) (b1 * 256)) by divmod_lia. done.
Qed.

Lemma decodeMap_encode (i : Z) :
  0 ≤ i < 64 → enc_decodeMap (enc_encode i) = i.
Proof.
  intros Hi. rewrite <- (Z2Nat.id i) by lia.
  assert (Z.to_nat i < 64)%nat as Hn by lia.
  generalize dependent (Z.to_nat i). intros n Hn.
  do 64 (destruct n as [| n]; [reflexivity |]). lia.
Qed.

Lemma decodeMap_padChar : enc_decodeMap padChar = 255.
Proof. reflexivity. Qed.

(** One step of the decoder on a character of the alphabet. *)
Lemma decode_step_sextet c rest si dbuf dst :
  0 ≤ enc_decodeMap c < 64 → (length dbuf < 3)%nat →
  base64_decode_from (c :: rest) si dbuf dst =
  base64_decode_from rest (S si) (dbuf ++ [enc_decodeMap c]) dst.
Proof.
  intros Hc Hlen. simpl.
  destruct (Z.eqb_spec (enc_decodeMap c) 255) as [? | _]; [lia |]. simpl.
  destruct dbuf as [| ? [| ? [| ? [| ? ?]]]]; simpl in *; try done; lia.
Qed.

Lemma decode_step_emit c rest si d0 d1 d2 dst :
  0 ≤ enc_decodeMap c < 64 →
  base64_decode_from (c :: rest) si [d0; d1; d2] dst =
  let val := quantum_val d0 d1 d2 (enc_decodeMap c) in
  base64_decode_from rest (S si) []
    (dst ++ [byte_of_Z (val ≫ 16); byte_of_Z (val ≫ 8); byte_of_Z val]).
Proof.
  intros Hc. simpl.
  destruct (Z.eqb_spec (enc_decodeMap c) 255) as [? | _]; [lia |]. done.
Qed.

Lemma sextet_range (v : Z) : 0 ≤ Z.land v 63 < 64.
Proof. shifts_to_arith. divmod_lia. Qed.

(** A full quantum: four characters decode to the three bytes they encode. *)
Lemma decode_encode_quantum (b0 b1 b2 : byte) rest si dst :
  let val := Z.lor (Z.lor (byte_to_Z b0 ≪ 16) (byte_to_Z b1 ≪ 8)) (byte_to_Z b2) in
  base64_decode_from
    (enc_encode (Z.land (val ≫ 18) 63) :: enc_encode (Z.land (val ≫ 12) 63) ::
     enc_encode (Z.land (val ≫ 6) 63) :: enc_encode (Z.land val 63) :: rest)
    si [] dst =
  base64_decode_from rest (4 + si) [] (dst ++ [b0; b1; b2]).
Proof.
  intros val.
  pose proof (byte_to_Z_range b0) as H0. pose proof (byte_to_Z_range b1) as H1.
  pose proof (byte_to_Z_range b2) as H2.
  pose proof (sextet_range (val ≫ 18)) as Hs0.
  pose proof (sextet_range (val ≫ 12)) as Hs1.
  pose proof (sextet_range (val ≫ 6)) as Hs2.
  pose proof (sextet_range val) as Hs3.
  rewrite decode_step_sextet by (rewrite ?decodeMap_encode by done; simpl length; lia).
  rewrite decode_step_sextet by (rewrite ?decodeMap_encode by done; simpl length; lia).
  rewrite decode_step_sextet by (rewrite ?decodeMap_encode by done; simpl length; lia).
  simpl app. rewrite decode_step_emit by (rewrite ?decodeMap_encode; lia).
  rewrite !decodeMap_encode by done. cbv zeta.
  rewrite quantum_val_arith by done.
  assert (val = byte_to_Z b0 * 65536 + byte_to_Z b1 * 256 + byte_to_Z b2) as Hval
    by (by apply bytes3_val_arith).
  clear Hs0 Hs1 Hs2 Hs3. generalize dependent val. intros val ->.
  do 2 f_equal. f_equal; [| f_equal; [| f_equal]]; apply byte_of_Z_mod;
    shifts_to_arith; divmod_lia.
Qed.

Lemma decode_pad_two d0 d1 si dst :
  base64_decode_from [padChar; padChar] si [d0; d1] dst =
  inr (dst ++ [byte_of_Z (quantum_val d0 d1 0 0 ≫ 16)]).
Proof. reflexivity. Qed.

Lemma decode_pad_one d0 d1 d2 si dst :
  base64_decode_from [padChar] si [d0; d1; d2] dst =
  inr (dst ++ [byte_of_Z (quantum_val d0 d1 d2 0 ≫ 16);
               byte_of_Z (quantum_val d0 d1 d2 0 ≫ 8)]).
Proof. reflexivity. Qed.

Lemma decode_encode_tail1 (b0 : byte) si dst :
  base64_decode_from (base64_Encode [b0]) si [] dst = inr (dst ++ [b0]).
Proof.
  pose proof (byte_to_Z_range b0) as H0.
  change (base64_Encode [b0]) with
    (let val := byte_to_Z b0 ≪ 16 in
     [enc_encode (Z.land (val ≫ 18) 63); enc_encode (Z.land (val ≫ 12) 63);
      padChar; padChar]).
  cbv zeta.
  pose proof (sextet_range ((byte_to_Z b0 ≪ 16) ≫ 18)) as Hs0.
  pose proof (sextet_range ((byte_to_Z b0 ≪ 16) ≫ 12)) as Hs1.
  rewrite decode_step_sextet by (rewrite ?decodeMap_encode by done; simpl length; lia).
  rewrite decode_step_sextet by (rewrite ?decodeMap_encode by done; simpl length; lia).
  simpl app. rewrite decode_pad_two, !decodeMap_encode by done.
  rewrite quantum_val_arith by lia. clear Hs0 Hs1.
  do 2 f_equal. f_equal. apply byte_of_Z_mod. shifts_to_arith. divmod_lia.
Qed.

Lemma decode_encode_tail2 (b0 b1 : byte) si dst :
  base64_decode_from (base64_Encode [b0; b1]) si [] dst = inr (dst ++ [b0; b1]).
Proof.
  pose proof (byte_to_Z_range b0) as H0. pose proof (byte_to_Z_range b1) as H1.
  change (base64_Encode [b0; b1]) with
    (let val := Z.lor (byte_to_Z b0 ≪ 16) (byte_to_Z b1 ≪ 8) in
     [enc_encode (Z.land (val ≫ 18) 63); enc_encode (Z.land (val ≫ 12) 63);
      enc_encode (Z.land (val ≫ 6) 63); padChar]).
  cbv zeta. set (val := Z.lor (byte_to_Z b0 ≪ 16) (byte_to_Z b1 ≪ 8)).
  pose proof (sextet_range (val ≫ 18)) as Hs0.
  pose proof (sextet_range (val ≫ 12)) as Hs1.
  pose proof (sextet_range (val ≫ 6)) as Hs2.
  rewrite decode_step_sextet by (rewrite ?decodeMap_encode by done; simpl length; lia).
  rewrite decode_step_sextet by (rewrite ?decodeMap_encode by done; simpl length; lia).
  rewrite decode_step_sextet by (rewrite ?decodeMap_encode by done; simpl length; lia).
  simpl app. rewrite decode_pad_one, !decodeMap_encode by done.
  rewrite quantum_val_arith by lia.
  assert (val = byte_to_Z b0 * 65536 + byte_to_Z b1 * 256) as Hval
    by (by apply bytes2_val_arith).
  clear Hs0 Hs1 Hs2. generalize dependent val. intros val ->.
  do 2 f_equal. f_equal; [| f_equal]; apply byte_of_Z_mod;
    shifts_to_arith; divmod_lia.
Qed.

Lemma list_ind3 {A : Type} (P : list A → Prop) :
  P [] → (∀ a, P [a]) → (∀ a b, P [a; b]) →
  (∀ a b c l, P l → P (a :: b :: c :: l)) →
  ∀ l, P l.
Proof.
  intros Hnil H1 H2 H3.
  assert (∀ l, P l ∧ (∀ a, P (a :: l)) ∧ (∀ a b, P (a :: b :: l))) as H.
  { induction l as [| x l (IH0 & IH1 & IH2)]; [by auto |].
    split; [apply IH1 |]. split; [intros a; apply IH2 |].
    intros a b. by apply H3. }
  intros l. apply H.
Qed.

Lemma base64_decode_from_Encode (src : list byte) :
  ∀ si dst, base64_decode_from (base64_Encode src) si [] dst = inr (dst ++ src).
Proof.
  induction src as [| b0 | b0 b1 | b0 b1 b2 rest IH] using list_ind3; intros si dst.
  - simpl. by rewrite app_nil_r.
  - apply decode_encode_tail1.
  - apply decode_encode_tail2.
  - change (base64_Encode (b0 :: b1 :: b2 :: rest)) with
      (let val := Z.lor (Z.lor (byte_to_Z b0 ≪ 16) (byte_to_Z b1 ≪ 8)) (byte_to_Z b2) in
       enc_encode (Z.land (val ≫ 18) 63) :: enc_encode (Z.land (val ≫ 12) 63) ::
       enc_encode (Z.land (val ≫ 6) 63) :: enc_encode (Z.land val 63) ::
       base64_Encode rest).
    cbv zeta. rewrite decode_encode_quantum, IH.
    by rewrite <- app_assoc.
Qed.

(** [DecodeString(EncodeToString(b)) = b] for every byte slice. *)
Lemma base64_DecodeString_EncodeToString (src : list byte) :
  base64_DecodeString (base64_EncodeToString src) = inr src.
Proof.
  unfold base64_DecodeString, base64_EncodeToString, bytes_of_string, string_of_bytes.
  rewrite list_ascii_of_string_of_list_ascii.
  apply (base64_decode_from_Encode src 0%nat []).
Qed.

(** ** The entropy source *)

Lemma io_ReadFull_enough (r : Reader) (n : nat) :
  (n ≤ length r)%nat → io_ReadFull r n = (inr (take n r), drop n r).
Proof.
  intros Hn. unfold io_ReadFull.
  case_bool_decide as H0; [subst n; by rewrite take_0, drop_0 |].
  case_bool_decide as Hr; [subst r; simpl in Hn; lia |].
  case_bool_decide; [lia | done].
Qed.

Lemma io_ReadFull_inr (r r' : Reader) (n : nat) (buf : list byte) :
  io_ReadFull r n = (inr buf, r') → length buf = n ∧ r = buf ++ r'.
Proof.
  unfold io_ReadFull. repeat case_bool_decide; intros [= <- <-]; subst; try done.
  rewrite take_drop, length_take. split; [lia | done].
Qed.

(** ** The AEAD shape *)

Lemma xor_byte_cancel (b k : byte) : xor_byte (xor_byte b k) k = b.
Proof.
  destruct b, k. simpl.
  by rewrite !xorb_assoc, !xorb_nilpotent, !xorb_false_r.
Qed.

Lemma xor_keystream_length ks data : length (xor_keystream ks data) = length data.
Proof. apply length_imap. Qed.

Lemma xor_keystream_cancel ks data :
  xor_keystream ks (xor_keystream ks data) = data.
Proof.
  unfold xor_keystream. revert ks.
  induction data as [| b data IH]; intros ks; [done |].
  simpl. rewrite xor_byte_cancel. f_equal. apply (IH (ks ∘ S)).
Qed.

Lemma tag16_length t : length (tag16 t) = 16%nat.
Proof.
  unfold tag16. rewrite length_take, length_app, length_replicate. lia.
Qed.

(** Encrypt-then-MAC over any keystream and any tag function is an AEAD in
    the sense of [AEAD_contract]. *)
Lemma stream_mac_AEAD_contract keystream mac errOpen :
  AEAD_contract (stream_mac_AEAD keystream mac errOpen).
Proof.
  split; simpl.
  - done.
  - intros nonce plaintext ad _.
    set (ct := xor_keystream (keystream nonce) plaintext).
    pose proof (tag16_length (mac nonce ad ct)) as Htag.
    rewrite length_app, Htag.
    case_bool_decide; [lia |].
    replace (length ct + 16 - 16)%nat with (length ct) by lia.
    rewrite take_app_length, drop_app_length.
    rewrite bool_decide_eq_true_2 by done.
    unfold ct. by rewrite xor_keystream_cancel.
Qed.

Lemma sim_digest_length n seed data : length (sim_digest n seed data) = n.
Proof. unfold sim_digest. by rewrite length_map, length_seq. Qed.

Lemma sim_crypto_laws : CryptoLaws sim_crypto.
Proof.
  split; cbn [sim_crypto aes_NewCipher cipher_NewGCM chacha20poly1305_New
              pbkdf2_Key sha256_Sum256].
  - intros key Hkey. exists key. eexists. unfold sim_aes_NewCipher, sim_NewGCM.
    rewrite bool_decide_eq_true_2 by auto.
    repeat split; try done. apply stream_mac_AEAD_contract.
  - intros key Hkey. eexists. unfold sim_chacha20poly1305_New.
    rewrite bool_decide_eq_true_2 by done.
    repeat split; try done. apply stream_mac_AEAD_contract.
  - intros. unfold sim_pbkdf2_Key. apply sim_digest_length.
  - intros data. apply (sim_digest_length 32).
Qed.

(** ** internal/security/encryption.go *)

Section EncryptionProofs.
Context {L : CryptoLib} {Laws : CryptoLaws L}.

Lemma NewConfigEncryption_inr machineID ce :
  NewConfigEncryption machineID = inr ce →
  machineID ≠ "" ∧ ce_machineID ce = machineID ∧ length (ce_key ce) = 32%nat.
Proof.
  unfold NewConfigEncryption. case_bool_decide as Hid; [done |].
  intros [= <-]. simpl. repeat split; [done |].
  by rewrite pbkdf2_Key_length.
Qed.

Lemma NewDatabaseEncryption_inr key de :
  NewDatabaseEncryption key = inr de → serverKey de = key ∧ length key = 32%nat.
Proof.
  unfold NewDatabaseEncryption, chacha20KeySize. case_bool_decide as Hk; [done |].
  intros [= <-]. simpl. split; [done | lia].
Qed.

(** The envelope [Seal(nonce, nonce, plaintext, nil)] splits back into the
    nonce and the sealed text. *)
Lemma envelope_split (a : AEAD) nonce plaintext :
  AEAD_contract a → length nonce = NonceSize a →
  let envelope := Seal a nonce nonce plaintext [] in
  ¬ (length envelope < NonceSize a)%nat ∧
  take (NonceSize a) envelope = nonce ∧
  drop (NonceSize a) envelope = Seal a [] nonce plaintext [].
Proof.
  intros Ha Hn envelope. unfold envelope.
  rewrite (Seal_appends a Ha), length_app, <- Hn.
  rewrite take_app_length, drop_app_length. repeat split; [lia | done..].
Qed.

(** [Decrypt] once the envelope is decoded and the cipher is built: the
    length check, then the verdict of the library's [Open]. *)
Lemma ConfigEncryption_Decrypt_decoded ce envelope bs block gcm :
  base64_DecodeString envelope = inr bs →
  aes_NewCipher (ce_key ce) = inr block → cipher_NewGCM block = inr gcm →
  ConfigEncryption_Decrypt ce envelope =
  if bool_decide (length bs < NonceSize gcm)%nat then inl ErrInvalidCiphertext
  else wrap_err "failed to decrypt: %w"
         (Open gcm [] (take (NonceSize gcm) bs) (drop (NonceSize gcm) bs) []).
Proof.
  intros Hbs Hblock Hgcm. unfold ConfigEncryption_Decrypt.
  rewrite Hbs. simpl. rewrite Hblock. simpl. rewrite Hgcm. simpl.
  case_bool_decide; [done |]. by destruct (Open gcm _ _ _ _).
Qed.

Lemma DatabaseEncryption_Decrypt_decoded de envelope bs aead :
  base64_DecodeString envelope = inr bs →
  chacha20poly1305_New (serverKey de) = inr aead →
  DatabaseEncryption_Decrypt de envelope =
  if bool_decide (length bs < NonceSize aead)%nat then inl ErrInvalidCiphertext
  else wrap_err "failed to decrypt: %w"
         (Open aead [] (take (NonceSize aead) bs) (drop (NonceSize aead) bs) []).
Proof.
  intros Hbs Haead. unfold DatabaseEncryption_Decrypt.
  rewrite Hbs. simpl. rewrite Haead. simpl.
  case_bool_decide; [done |]. by destruct (Open aead _ _ _ _).
Qed.

Lemma Decrypt_malformed_base64 ce de envelope e :
  base64_DecodeString envelope = inl e →
  ConfigEncryption_Decrypt ce envelope =
    inl (fmt_Errorf_w "failed to decode base64: %w" e) ∧
  DatabaseEncryption_Decrypt de envelope =
    inl (fmt_Errorf_w "failed to decode base64: %w" e).
Proof.
  intros He. unfold ConfigEncryption_Decrypt, DatabaseEncryption_Decrypt.
  by rewrite He.
Qed.

Lemma ConfigEncryption_roundtrip ce plaintext rnd :
  length (ce_key ce) = 32%nat → (12 ≤ length rnd)%nat →
  ∃ envelope,
    ConfigEncryption_Encrypt ce plaintext rnd = (inr envelope, drop 12 rnd) ∧
    ConfigEncryption_Decrypt ce envelope = inr plaintext.
Proof.
  intros Hkey Hrnd.
  destruct (aes_gcm_256 _ Hkey) as (block & gcm & Hblock & Hgcm & Hsize & Hcontract).
  unfold ConfigEncryption_Encrypt.
  rewrite Hblock, Hgcm, Hsize, io_ReadFull_enough by done.
  eexists. split; [done |].
  rewrite (ConfigEncryption_Decrypt_decoded ce _ _ block gcm
             (base64_DecodeString_EncodeToString _) Hblock Hgcm).
  assert (length (take 12 rnd) = NonceSize gcm) as Hnonce
    by (rewrite length_take, Hsize; lia).
  destruct (envelope_split gcm (take 12 rnd) plaintext Hcontract Hnonce)
    as (Hlen & Htake & Hdrop).
  rewrite bool_decide_eq_false_2 by done.
  rewrite Htake, Hdrop, (Open_Seal gcm Hcontract) by done. done.
Qed.

Lemma DatabaseEncryption_roundtrip de plaintext rnd :
  length (serverKey de) = 32%nat → (12 ≤ length rnd)%nat →
  ∃ envelope,
    DatabaseEncryption_Encrypt de plaintext rnd = (inr envelope, drop 12 rnd) ∧
    DatabaseEncryption_Decrypt de envelope = inr plaintext.
Proof.
  intros Hkey Hrnd.
  destruct (chacha20poly1305_256 _ Hkey) as (aead & Haead & Hsize & Hcontract).
  unfold DatabaseEncryption_Encrypt.
  rewrite Haead, Hsize, io_ReadFull_enough by done.
  eexists. split; [done |].
  rewrite (DatabaseEncryption_Decrypt_decoded de _ _ aead
             (base64_DecodeString_EncodeToString _) Haead).
  assert (length (take 12 rnd) = NonceSize aead) as Hnonce
    by (rewrite length_take, Hsize; lia).
  destruct (envelope_split aead (take 12 rnd) plaintext Hcontract Hnonce)
    as (Hlen & Htake & Hdrop).
  rewrite bool_decide_eq_false_2 by done.
  rewrite Htake, Hdrop, (Open_Seal aead Hcontract) by done. done.
Qed.

End EncryptionProofs.

(** ** An envelope under the other domain's cipher

    Neither [Decrypt] looks at anything but the base64 text, the length and
    the verdict of its AEAD: an envelope sealed by the config cipher and
    handed to the database cipher is refused or accepted exactly as
    ChaCha20-Poly1305's [Open] refuses or accepts the text AES-GCM sealed. *)

Section CrossDomain.
Context {L : CryptoLib} {Laws : CryptoLaws L}.

Lemma foreign_envelope_verdict ce de plaintext rnd :
  length (ce_key ce) = 32%nat → length (serverKey de) = 32%nat →
  (12 ≤ length rnd)%nat →
  ∃ block gcm aead envelope,
    aes_NewCipher (ce_key ce) = inr block ∧ cipher_NewGCM block = inr gcm ∧
    chacha20poly1305_New (serverKey de) = inr aead ∧
    ConfigEncryption_Encrypt ce plaintext rnd = (inr envelope, drop 12 rnd) ∧
    DatabaseEncryption_Decrypt de envelope =
      wrap_err "failed to decrypt: %w"
        (Open aead [] (take 12 rnd) (Seal gcm [] (take 12 rnd) plaintext []) []).
Proof.
  intros Hce Hde Hrnd.
  destruct (aes_gcm_256 _ Hce) as (block & gcm & Hblock & Hgcm & Hsize & Hcontract).
  destruct (chacha20poly1305_256 _ Hde) as (aead & Haead & Hsize' & _).
  exists block, gcm, aead. eexists. split; [done |]. split; [done |]. split; [done |].
  unfold ConfigEncryption_Encrypt.
  rewrite Hblock, Hgcm, Hsize, io_ReadFull_enough by done. split; [done |].
  rewrite (DatabaseEncryption_Decrypt_decoded de _ _ aead
             (base64_DecodeString_EncodeToString _) Haead).
  assert (length (take 12 rnd) = NonceSize gcm) as Hnonce
    by (rewrite length_take, Hsize; lia).
  destruct (envelope_split gcm (take 12 rnd) plaintext Hcontract Hnonce)
    as (Hlen & Htake & Hdrop).
  rewrite Hsize in Hlen, Htake, Hdrop. rewrite Hsize'.
  rewrite bool_decide_eq_false_2 by done. by rewrite Htake, Hdrop.
Qed.

End CrossDomain.

(** ** encoding/hex *)

Lemma hex_digit_lower_hex (i : Z) : 0 ≤ i < 16 → is_lower_hex (hex_digit i) = true.
Proof.
  intros Hi. rewrite <- (Z2Nat.id i) by lia.
  assert (Z.to_nat i < 16)%nat as Hn by lia.
  generalize dependent (Z.to_nat i). intros n Hn.
  do 16 (destruct n as [| n]; [reflexivity |]). lia.
Qed.

Lemma hex_Encode_length (src : list byte) :
  length (hex_Encode src) = (2 * length src)%nat.
Proof. induction src as [| v rest IH]; simpl; [done | lia]. Qed.

Lemma hex_Encode_lower_hex (src : list byte) :
  Forall (λ c, is_lower_hex c = true) (hex_Encode src).
Proof.
  induction src as [| v rest IH]; simpl; [constructor |].
  pose proof (byte_to_Z_range v) as Hv.
  constructor; [| constructor; [| done]]; apply hex_digit_lower_hex.
  - shifts_to_arith. divmod_lia.
  - shifts_to_arith. divmod_lia.
Qed.

Lemma well_formed_fingerprint_nonempty (s : string) :
  well_formed_fingerprint s → s ≠ "".
Proof. intros [Hlen _] ->. discriminate Hlen. Qed.

(** ** Machine identity *)

Section MachineIDProofs.
Context {L : CryptoLib} {Laws : CryptoLaws L} {OS : Type} {P : Platform OS}.

Lemma generateMachineID_well_formed (h : Host) (os : OS) (id : string) :
  generateMachineID h os = inr id → well_formed_fingerprint id.
Proof.
  unfold generateMachineID. cbv zeta. case_bool_decide; [done |].
  intros [= <-]. unfold well_formed_fingerprint, hex_EncodeToString.
  unfold bytes_of_string at 1 3, string_of_bytes.
  rewrite list_ascii_of_string_of_list_ascii.
  split.
  - by rewrite hex_Encode_length, sha256_Sum256_length.
  - apply hex_Encode_lower_hex.
Qed.

(** Where the value of a successful [GetMachineID] comes from. *)
Lemma GetMachineID_inr (h : Host) (p p' : Process OS) (id : string) :
  GetMachineID h p = (inr id, p') →
  cachedMachineID p' = id ∧
  ((cachedMachineID p = id ∧ id ≠ "" ∧ p' = p) ∨
   (cachedMachineID p = "" ∧ id ≠ "" ∧
    readMachineIDFromRegistry (platform_state p) = inr id) ∨
   (cachedMachineID p = "" ∧ generateMachineID h (platform_state p) = inr id)).
Proof.
  unfold GetMachineID. case_bool_decide as Hc; simpl; [| intros [= <- <-]; auto 10].
  destruct (readMachineIDFromRegistry (platform_state p)) as [e | stored] eqn:Hread;
    [| case_bool_decide as Hs; simpl; [| intros [= <- <-]; auto 10]];
    (destruct (generateMachineID h (platform_state p)) as [e' | gen] eqn:Hgen;
       [done |];
     destruct (saveMachineIDToRegistry gen (platform_state p)) as [saveErr os'];
     intros [= <- <-]; auto 10).
Qed.

Lemma GetMachineID_nonempty (h : Host) (p p' : Process OS) (id : string) :
  GetMachineID h p = (inr id, p') → id ≠ "".
Proof.
  intros H. apply GetMachineID_inr in H as (_ & [(_ & Hne & _) | [(_ & Hne & _) | (_ & Hgen)]]);
    [done | done |].
  by apply well_formed_fingerprint_nonempty, (generateMachineID_well_formed h (platform_state p)).
Qed.

(** A call on a process whose cache is filled returns the cache and changes
    nothing. *)
Lemma GetMachineID_cached (h : Host) (p : Process OS) :
  cachedMachineID p ≠ "" → GetMachineID h p = (inr (cachedMachineID p), p).
Proof.
  intros Hc. unfold GetMachineID. by rewrite bool_decide_eq_false_2.
Qed.

End MachineIDProofs.

(** *** The Windows platform: the persisted value survives a restart *)

Lemma windows_save_then_read (id : string) (r : Registry) :
  reg_writable r = true →
  ∃ r', windows_saveMachineIDToRegistry id r = (None, r') ∧
        windows_readMachineIDFromRegistry r' = inr id.
Proof.
  intros Hw. unfold windows_saveMachineIDToRegistry, registry_CreateKey_SetStringValue.
  rewrite Hw. simpl. eexists. split; [done |].
  unfold windows_readMachineIDFromRegistry, registry_OpenKey. simpl.
  rewrite lookup_insert_eq. simpl. unfold registry_GetStringValue.
  by rewrite lookup_insert_eq.
Qed.

(** After a successful call on a writable registry, a new process (empty
    cache) on the registry as the call left it resolves the same id, now
    from the persisted store. *)
Lemma GetMachineID_windows_restart (L : CryptoLib) (Laws : CryptoLaws L)
    (h : Host) (p p' : Process Registry) (id : string) :
  reg_writable (platform_state p) = true → cachedMachineID p = "" →
  GetMachineID h p = (inr id, p') →
  (GetMachineID h
     {| cachedMachineID := ""; platform_state := platform_state p'; stdout := stdout p' |}).1
  = inr id.
Proof.
  intros Hw Hc Hget.
  pose proof (GetMachineID_nonempty h p p' id Hget) as Hne.
  assert (readMachineIDFromRegistry (platform_state p') = inr id) as Hread.
  { revert Hget. unfold GetMachineID. rewrite Hc. simpl.
    destruct (windows_readMachineIDFromRegistry (platform_state p))
      as [e | stored] eqn:Hr;
      [| case_bool_decide as Hs; simpl; [| by intros [= <- <-]]];
      (destruct (generateMachineID h (platform_state p)) as [e' | gen]; [done |];
       destruct (windows_save_then_read gen (platform_state p) Hw)
         as (r' & -> & Hread');
       by intros [= <- <-]). }
  unfold GetMachineID. simpl. simpl in Hread. rewrite Hread. simpl.
  by rewrite bool_decide_eq_false_2.
Qed.

(** ** The settings table *)

Lemma existsb_has_key (key : string) (tbl : list Row) :
  existsb (has_key key) tbl = true ↔ key ∈ map row_key tbl.
Proof.
  induction tbl as [| r tbl IH]; simpl.
  - split; [done | by intros ?%elem_of_nil].
  - rewrite orb_true_iff, IH, elem_of_cons. unfold has_key.
    rewrite bool_decide_eq_true. intuition congruence.
Qed.

Lemma existsb_has_key_false (key : string) (tbl : list Row) :
  existsb (has_key key) tbl = false ↔ key ∉ map row_key tbl.
Proof.
  rewrite <- existsb_has_key. by destruct (existsb (has_key key) tbl).
Qed.

Lemma find_has_key_None (key : string) (tbl : list Row) :
  key ∉ map row_key tbl → find (has_key key) tbl = None.
Proof.
  induction tbl as [| r tbl IH]; simpl; [done |].
  rewrite not_elem_of_cons. intros [Hne Hnotin]. unfold has_key at 1.
  rewrite bool_decide_eq_false_2 by done. auto.
Qed.

Lemma filter_key_absent (key : string) (tbl : list Row) :
  key ∉ map row_key tbl → filter (λ r, row_key r = key) tbl = [].
Proof.
  induction tbl as [| r tbl IH]; simpl; [done |].
  rewrite not_elem_of_cons. intros [Hne Hnotin].
  rewrite filter_cons_False by done. auto.
Qed.

Lemma filter_other_keys_absent (key : string) (tbl : list Row) :
  key ∉ map row_key tbl → filter (λ r, row_key r ≠ key) tbl = tbl.
Proof.
  induction tbl as [| r tbl IH]; simpl; [done |].
  rewrite not_elem_of_cons. intros [Hne Hnotin].
  rewrite filter_cons_True by done. f_equal. auto.
Qed.

Lemma keys_after_delete (key : string) (tbl : list Row) :
  key ∉ map row_key (filter (λ r, row_key r ≠ key) tbl).
Proof.
  intros (r & Hkey & Hin)%list_elem_of_fmap.
  apply list_elem_of_filter in Hin as [Hne _]. by subst.
Qed.

Lemma unique_keys_delete (key : string) (tbl : list Row) :
  unique_keys tbl → unique_keys (filter (λ r, row_key r ≠ key) tbl).
Proof.
  unfold unique_keys. induction tbl as [| r tbl IH]; simpl; [done |].
  rewrite NoDup_cons. intros [Hnotin Hnd].
  destruct (decide (row_key r ≠ key)) as [Hne | Heq].
  - rewrite filter_cons_True by done. simpl. apply NoDup_cons. split; [| auto].
    intros (r' & Hkey & Hin)%list_elem_of_fmap.
    apply list_elem_of_filter in Hin as [_ Hin].
    apply Hnotin, list_elem_of_fmap. eauto.
  - rewrite filter_cons_False by done. auto.
Qed.

Lemma update_matching_keys key value now tbl :
  map row_key (update_matching key value now tbl) = map row_key tbl.
Proof.
  unfold update_matching. rewrite map_map. apply map_ext.
  intros r. by destruct (has_key key r).
Qed.

Lemma update_matching_absent key value now tbl :
  key ∉ map row_key tbl → update_matching key value now tbl = tbl.
Proof.
  induction tbl as [| r tbl IH]; simpl; [done |].
  rewrite not_elem_of_cons. intros [Hne Hnotin]. unfold has_key at 1.
  rewrite bool_decide_eq_false_2 by done. f_equal. auto.
Qed.

Lemma update_matching_filter key value now tbl r0 :
  unique_keys tbl → find (has_key key) tbl = Some r0 →
  filter (λ r, row_key r = key) (update_matching key value now tbl) =
  [update_row value now r0].
Proof.
  unfold unique_keys. induction tbl as [| r tbl IH]; simpl; [done |].
  rewrite NoDup_cons. intros [Hnotin Hnd]. unfold has_key at 1 3.
  case_bool_decide as Hkey.
  - intros [= <-]. rewrite filter_cons_True by done.
    rewrite Hkey in Hnotin.
    rewrite update_matching_absent, filter_key_absent by done. done.
  - intros Hfind. rewrite filter_cons_False by done. auto.
Qed.

Lemma update_matching_select key value now tbl :
  key ∈ map row_key tbl →
  select_value key (update_matching key value now tbl) = inr value.
Proof.
  unfold select_value. induction tbl as [| r tbl IH]; simpl.
  - by intros ?%elem_of_nil.
  - rewrite elem_of_cons. intros Hin. unfold has_key.
    destruct (decide (row_key r = key)) as [Hkey | Hkey].
    + rewrite (bool_decide_eq_true_2 (row_key r = key)) by done. simpl.
      by rewrite bool_decide_eq_true_2.
    + rewrite (bool_decide_eq_false_2 (row_key r = key)) by done.
      rewrite bool_decide_eq_false_2 by done. apply IH.
      destruct Hin; [congruence | done].
Qed.

Lemma select_value_append_new key value now tbl :
  key ∉ map row_key tbl →
  select_value key
    (tbl ++ [{| row_key := key; row_value := value;
                row_created_at := now; row_updated_at := now |}]) = inr value.
Proof.
  unfold select_value. induction tbl as [| r tbl IH]; simpl.
  - intros _. unfold has_key. simpl. by rewrite bool_decide_eq_true_2.
  - rewrite not_elem_of_cons. intros [Hne Hnotin]. unfold has_key at 1.
    rewrite bool_decide_eq_false_2 by done. auto.
Qed.

Lemma select_value_absent key tbl :
  key ∉ map row_key tbl → select_value key tbl = inl sql_ErrNoRows.
Proof.
  intros Hnotin. unfold select_value. by rewrite find_has_key_None.
Qed.

Lemma find_has_key_Some key tbl :
  key ∈ map row_key tbl → ∃ r, find (has_key key) tbl = Some r ∧ row_key r = key.
Proof.
  induction tbl as [| r tbl IH]; simpl.
  - by intros ?%elem_of_nil.
  - rewrite elem_of_cons. intros Hin. unfold has_key at 1.
    case_bool_decide as Hkey; [by eauto |]. apply IH.
    destruct Hin; [congruence | done].
Qed.

(** The upsert: it always succeeds, keeps the keys unique, and leaves exactly
    one row for [key], holding the new value and the new [updated_at]. *)
Lemma exec_upsert key value now tbl :
  ∃ tbl',
    exec_stmt (UpsertSetting key value now) tbl = inr (tbl', 1) ∧
    select_value key tbl' = inr value ∧
    (unique_keys tbl →
       unique_keys tbl' ∧
       filter (λ r, row_key r = key) tbl' =
         [{| row_key := key; row_value := value;
             row_created_at := created_at_after_upsert key now tbl;
             row_updated_at := now |}]).
Proof.
  simpl. unfold created_at_after_upsert.
  destruct (existsb (has_key key) tbl) eqn:Hex.
  - apply existsb_has_key in Hex.
    eexists. split; [done |]. fold (update_matching key value now tbl).
    split; [by apply update_matching_select |].
    intros Huniq. split.
    + unfold unique_keys. by rewrite update_matching_keys.
    + destruct (find_has_key_Some key tbl Hex) as (r0 & Hfind & Hkey).
      rewrite (update_matching_filter key value now tbl r0) by done.
      rewrite Hfind. unfold update_row. by rewrite Hkey.
  - apply existsb_has_key_false in Hex.
    eexists. split; [done |].
    split; [by apply select_value_append_new |].
    intros Huniq. split.
    + unfold unique_keys. rewrite map_app. apply NoDup_app.
      split; [done |]. split; [| apply NoDup_singleton].
      simpl. intros k Hin ->%list_elem_of_singleton. done.
    + rewrite filter_app, filter_key_absent by done.
      rewrite find_has_key_None by done. simpl.
      by rewrite filter_cons_True, filter_nil by done.
Qed.

Lemma exec_stmt_unique_keys stmt tbl tbl' n :
  exec_stmt stmt tbl = inr (tbl', n) → unique_keys tbl → unique_keys tbl'.
Proof.
  destruct stmt as [key value now | key value now | key].
  - destruct (exec_upsert key value now tbl) as (tbl'' & -> & _ & Huniq).
    intros [= <- <-] H. by apply Huniq.
  - simpl. destruct (existsb (has_key key) tbl) eqn:Hex; [done |].
    apply existsb_has_key_false in Hex. intros [= <- <-] Huniq.
    unfold unique_keys. rewrite map_app. apply NoDup_app.
    split; [done |]. split; [| apply NoDup_singleton].
    simpl. intros k Hin ->%list_elem_of_singleton. done.
  - simpl. intros [= <- <-]. apply unique_keys_delete.
Qed.

Lemma find_has_key_filter (key : string) (tbl : list Row) :
  find (has_key key) tbl = head (filter (λ r, row_key r = key) tbl).
Proof.
  induction tbl as [| r tbl IH]; simpl; [done |]. unfold has_key at 1.
  case_bool_decide as Hkey.
  - by rewrite filter_cons_True.
  - by rewrite filter_cons_False.
Qed.

Lemma find_has_key_unique (r : Row) (tbl : list Row) :
  unique_keys tbl → r ∈ tbl → find (has_key (row_key r)) tbl = Some r.
Proof.
  unfold unique_keys. induction tbl as [| r' tbl IH]; simpl.
  - by intros _ ?%elem_of_nil.
  - rewrite NoDup_cons, elem_of_cons. intros [Hnotin Hnd] Hin. unfold has_key at 1.
    case_bool_decide as Hkey.
    + destruct Hin as [-> | Hin]; [done |].
      exfalso. apply Hnotin. rewrite Hkey. apply list_elem_of_fmap. eauto.
    + destruct Hin as [-> | Hin]; [done | auto].
Qed.

Lemma string_of_bytes_of_string (s : string) :
  string_of_bytes (bytes_of_string s) = s.
Proof. apply string_of_list_ascii_of_string. Qed.

(** ** internal/database/sqlite.go *)

Lemma with_conn_conn (db : DB) : with_conn db (conn db) = db.
Proof. by destruct db. Qed.

Section DatabaseProofs.
Context {L : CryptoLib}.

Lemma DB_GetSetting_found (db : DB) (key envelope : string) :
  db_closed (conn db) = false →
  select_value key (db_settings (conn db)) = inr envelope →
  DB_GetSetting db key =
  match DatabaseEncryption_Decrypt (encryption db) envelope with
  | inl err => inl (fmt_Errorf_w "failed to decrypt setting value: %w" err)
  | inr decryptedValue => inr (string_of_bytes decryptedValue)
  end.
Proof.
  intros Hopen Hsel. unfold DB_GetSetting, sql_DB_QueryRow_value.
  by rewrite Hopen, Hsel.
Qed.

Lemma DB_GetSetting_absent (db : DB) (key : string) :
  db_closed (conn db) = false →
  key ∉ map row_key (db_settings (conn db)) →
  DB_GetSetting db key = inl (fmt_Errorf_s "setting not found: %s" key).
Proof.
  intros Hopen Hnotin. unfold DB_GetSetting, sql_DB_QueryRow_value.
  rewrite Hopen, select_value_absent by done.
  by rewrite bool_decide_eq_true_2.
Qed.

Lemma DB_DeleteSetting_open (db : DB) (key : string) :
  db_closed (conn db) = false →
  DB_DeleteSetting db key =
  let tbl := filter (λ r, row_key r ≠ key) (db_settings (conn db)) in
  let db' := with_conn db {| db_closed := false; db_settings := tbl |} in
  if bool_decide (key ∈ map row_key (db_settings (conn db))) then (None, db')
  else (Some (fmt_Errorf_s "setting not found: %s" key), db').
Proof.
  intros Hopen. unfold DB_DeleteSetting, sql_DB_Exec. rewrite Hopen. simpl.
  case_bool_decide as Hin.
  - destruct (Z.eqb_spec
      (Z.of_nat (length (filter (λ r, row_key r = key) (db_settings (conn db))))) 0)
      as [Hz | Hz]; [| done].
    exfalso. apply list_elem_of_fmap in Hin as (r & -> & Hin).
    assert (r ∈ filter (λ r', row_key r' = row_key r) (db_settings (conn db))) as Hr
      by (by apply list_elem_of_filter).
    destruct (filter _ _); [by apply elem_of_nil in Hr | simpl in Hz; lia].
  - by rewrite filter_key_absent.
Qed.

Context {Laws : CryptoLaws L}.

Lemma DB_SetSetting_open (db : DB) (key value : string) (now : Time) (rnd : Reader) :
  length (serverKey (encryption db)) = 32%nat →
  db_closed (conn db) = false → (12 ≤ length rnd)%nat →
  ∃ envelope tbl',
    DatabaseEncryption_Decrypt (encryption db) envelope = inr (bytes_of_string value) ∧
    exec_stmt (UpsertSetting key envelope now) (db_settings (conn db)) = inr (tbl', 1) ∧
    DB_SetSetting db key value now rnd =
      (None, with_conn db {| db_closed := false; db_settings := tbl' |}, drop 12 rnd).
Proof.
  intros Hkey Hopen Hrnd.
  destruct (DatabaseEncryption_roundtrip (encryption db) (bytes_of_string value) rnd
              Hkey Hrnd) as (envelope & Henc & Hdec).
  destruct (exec_upsert key envelope now (db_settings (conn db)))
    as (tbl' & Hexec & _).
  exists envelope, tbl'. split; [done |]. split; [done |].
  unfold DB_SetSetting, sql_DB_Exec. by rewrite Henc, Hopen, Hexec.
Qed.

End DatabaseProofs.

(** ** Transactions *)

(** Once the handle is finished, nothing the function does brings it back
    or reaches the connection. *)
Lemma run_TxBody_done (fn : TxBody) :
  ∀ tx c o tx' c',
    tx_done tx = true → run_TxBody fn tx c = (o, tx', c') →
    tx_done tx' = true ∧ c' = c.
Proof.
  induction fn as [err | v | stmt k IH | key k IH | k IH | k IH];
    intros tx c o tx' c' Hdone; simpl.
  - by intros [= _ <- <-].
  - by intros [= _ <- <-].
  - unfold sql_Tx_Exec. rewrite Hdone. by apply IH.
  - by apply IH.
  - unfold sql_Tx_Commit. rewrite Hdone. by apply IH.
  - unfold sql_Tx_Rollback. rewrite Hdone. by apply IH.
Qed.

(** A function that leaves the handle open has not touched the connection. *)
Lemma run_TxBody_open (fn : TxBody) :
  ∀ tx c o tx' c',
    run_TxBody fn tx c = (o, tx', c') → tx_done tx' = false →
    tx_done tx = false ∧ c' = c.
Proof.
  induction fn as [err | v | stmt k IH | key k IH | k IH | k IH];
    intros tx c o tx' c'; simpl.
  - by intros [= _ <- <-].
  - by intros [= _ <- <-].
  - unfold sql_Tx_Exec. destruct (tx_done tx) eqn:Hdone.
    + intros Hrun Hopen.
      destruct (run_TxBody_done _ _ _ _ _ _ Hdone Hrun). congruence.
    + destruct (exec_stmt stmt (tx_settings tx)) as [e | [tbl n]];
        intros Hrun Hopen; by destruct (IH _ _ _ _ _ _ Hrun Hopen).
  - apply IH.
  - unfold sql_Tx_Commit. destruct (tx_done tx) eqn:Hdone.
    + intros Hrun Hopen.
      destruct (run_TxBody_done _ _ _ _ _ _ Hdone Hrun). congruence.
    + intros Hrun Hopen.
      apply run_TxBody_done in Hrun as [Hdone' _]; [congruence | done].
  - unfold sql_Tx_Rollback. destruct (tx_done tx) eqn:Hdone.
    + intros Hrun Hopen.
      destruct (run_TxBody_done _ _ _ _ _ _ Hdone Hrun). congruence.
    + intros Hrun Hopen.
      apply run_TxBody_done in Hrun as [Hdone' _]; [congruence | done].
Qed.

(** ** The bulk read *)

Arguments GetAllSettings_row : simpl never.

Section GetAllSettingsProofs.
Context {L : CryptoLib}.

Lemma GetAllSettings_row_inr db settings out key envelope v :
  DatabaseEncryption_Decrypt (encryption db) envelope = inr v →
  GetAllSettings_row db (settings, out) (key, envelope) =
  (<[key := string_of_bytes v]> settings, out).
Proof. intros H. unfold GetAllSettings_row. by rewrite H. Qed.

Lemma GetAllSettings_row_inl db settings out key envelope err :
  DatabaseEncryption_Decrypt (encryption db) envelope = inl err →
  GetAllSettings_row db (settings, out) (key, envelope) =
  (settings, out ++ [decrypt_warning key err]).
Proof. intros H. unfold GetAllSettings_row. by rewrite H. Qed.

Lemma GetAllSettings_fold_printed db rows :
  ∀ acc x, x ∈ acc.2 → x ∈ (fold_left (GetAllSettings_row db) rows acc).2.
Proof.
  induction rows as [| [key envelope] rows IH]; intros [settings out] x Hx; [done |].
  simpl. apply IH.
  destruct (DatabaseEncryption_Decrypt (encryption db) envelope) as [err | v] eqn:Hdec.
  - rewrite (GetAllSettings_row_inl _ _ _ _ _ err) by done. simpl.
    apply elem_of_app. by left.
  - by rewrite (GetAllSettings_row_inr _ _ _ _ _ v).
Qed.

Lemma GetAllSettings_fold_other db rows :
  ∀ acc k, k ∉ map fst rows →
    (fold_left (GetAllSettings_row db) rows acc).1 !! k = acc.1 !! k.
Proof.
  induction rows as [| [key envelope] rows IH]; intros [settings out] k; [done |].
  simpl. rewrite not_elem_of_cons. intros [Hne Hnotin]. rewrite IH by done.
  destruct (DatabaseEncryption_Decrypt (encryption db) envelope) as [err | v] eqn:Hdec.
  - by rewrite (GetAllSettings_row_inl _ _ _ _ _ err).
  - rewrite (GetAllSettings_row_inr _ _ _ _ _ v) by done. simpl.
    by rewrite lookup_insert_ne.
Qed.

Lemma GetAllSettings_fold_row db rows :
  ∀ acc key envelope,
    NoDup (map fst rows) → (key, envelope) ∈ rows →
    match DatabaseEncryption_Decrypt (encryption db) envelope with
    | inr v =>
        (fold_left (GetAllSettings_row db) rows acc).1 !! key =
          Some (string_of_bytes v)
    | inl err =>
        (fold_left (GetAllSettings_row db) rows acc).1 !! key = acc.1 !! key ∧
        decrypt_warning key err ∈ (fold_left (GetAllSettings_row db) rows acc).2
    end.
Proof.
  induction rows as [| [key' envelope'] rows IH]; intros [settings out] key envelope.
  - by intros _ ?%elem_of_nil.
  - simpl. rewrite NoDup_cons, elem_of_cons. intros [Hnotin Hnd] [[= -> ->] | Hin].
    + destruct (DatabaseEncryption_Decrypt (encryption db) envelope')
        as [err | v] eqn:Hdec.
      * rewrite (GetAllSettings_row_inl _ _ _ _ _ err) by done. split.
        -- by rewrite GetAllSettings_fold_other.
        -- apply GetAllSettings_fold_printed. simpl. apply elem_of_app. right.
           by apply list_elem_of_singleton.
      * rewrite (GetAllSettings_row_inr _ _ _ _ _ v) by done.
        rewrite GetAllSettings_fold_other by done. simpl.
        by rewrite lookup_insert_eq.
    + assert (key ≠ key') as Hne.
      { intros ->. apply Hnotin. apply list_elem_of_fmap. by exists (key', envelope). }
      specialize (IH (GetAllSettings_row db (settings, out) (key', envelope'))
                    key envelope Hnd Hin).
      destruct (DatabaseEncryption_Decrypt (encryption db) envelope)
        as [err | v] eqn:Hdec; [| done].
      destruct IH as [Hlook Hprinted]. split; [| done].
      rewrite Hlook.
      destruct (DatabaseEncryption_Decrypt (encryption db) envelope')
        as [err' | v'] eqn:Hdec'.
      * by rewrite (GetAllSettings_row_inl _ _ _ _ _ err').
      * rewrite (GetAllSettings_row_inr _ _ _ _ _ v') by done. simpl.
        by rewrite lookup_insert_ne.
Qed.

Lemma GetAllSettings_fold_dom db rows :
  ∀ acc k,
    is_Some ((fold_left (GetAllSettings_row db) rows acc).1 !! k) →
    is_Some (acc.1 !! k) ∨ k ∈ map fst rows.
Proof.
  induction rows as [| [key envelope] rows IH]; intros [settings out] k; [by left |].
  simpl. intros [Hacc | Hin]%IH; [| right; apply elem_of_cons; by right].
  destruct (DatabaseEncryption_Decrypt (encryption db) envelope) as [err | v] eqn:Hdec.
  - rewrite (GetAllSettings_row_inl _ _ _ _ _ err) in Hacc by done. by left.
  - rewrite (GetAllSettings_row_inr _ _ _ _ _ v) in Hacc by done. simpl in Hacc.
    destruct (decide (key = k)) as [-> | Hne].
    + right. apply elem_of_cons. by left.
    + rewrite lookup_insert_ne in Hacc by done. by left.
Qed.

End GetAllSettingsProofs.

(** ** Transactions that run a list of statements *)

Lemma run_exec_all (stmts : list Stmt) :
  ∀ tbl c,
    match exec_stmts stmts tbl with
    | inl err =>
        ∃ tbl', run_TxBody (exec_all stmts) {| tx_settings := tbl; tx_done := false |} c =
                  (Returned (Some err), {| tx_settings := tbl'; tx_done := false |}, c)
    | inr tbl' =>
        run_TxBody (exec_all stmts) {| tx_settings := tbl; tx_done := false |} c =
          (Returned None, {| tx_settings := tbl'; tx_done := false |}, c)
    end.
Proof.
  induction stmts as [| stmt rest IH]; intros tbl c; [done |].
  cbn [exec_stmts exec_all run_TxBody]. unfold sql_Tx_Exec. cbn [tx_done tx_settings].
  destruct (exec_stmt stmt tbl) as [err | [tbl1 n]]; [by eexists |].
  apply IH.
Qed.

(** All or nothing: when one of the statements fails, the store is left as
    it was and the failure is returned; when all go through, the store holds
    the table they produce. *)
Lemma Transaction_exec_all (db : DB) (stmts : list Stmt) :
  db_closed (conn db) = false →
  DB_Transaction db (exec_all stmts) =
  match exec_stmts stmts (db_settings (conn db)) with
  | inl err => (Returned (Some err), db)
  | inr tbl => (Returned None, with_conn db {| db_closed := false; db_settings := tbl |})
  end.
Proof.
  intros Hopen. unfold DB_Transaction, sql_DB_Begin. rewrite Hopen.
  pose proof (run_exec_all stmts (db_settings (conn db)) (conn db)) as Hrun.
  destruct (exec_stmts stmts (db_settings (conn db))) as [err | tbl].
  - destruct Hrun as [tbl' ->]. simpl. by rewrite with_conn_conn.
  - rewrite Hrun. simpl. by rewrite Hopen.
Qed.

(** ** The primary key is an invariant of the store

    Every operation of the store leaves the keys of the table unique; an
    empty table has unique keys. *)

Lemma sql_DB_Exec_unique_keys c stmt r c' :
  sql_DB_Exec c stmt = (r, c') →
  unique_keys (db_settings c) → unique_keys (db_settings c').
Proof.
  unfold sql_DB_Exec. destruct (db_closed c); [by intros [= _ <-] |].
  destruct (exec_stmt stmt (db_settings c)) as [err | [tbl n]] eqn:Hexec.
  - by intros [= _ <-].
  - intros [= _ <-]. simpl.
    by apply (exec_stmt_unique_keys stmt (db_settings c) tbl n).
Qed.

Lemma DB_SetSetting_unique_keys (L : CryptoLib) db key value now rnd r db' rnd' :
  DB_SetSetting db key value now rnd = (r, db', rnd') →
  unique_keys (db_settings (conn db)) → unique_keys (db_settings (conn db')).
Proof.
  unfold DB_SetSetting.
  destruct (DatabaseEncryption_Encrypt _ _ _) as [[err | envelope] rnd1];
    [by intros [= _ <- _] |].
  destruct (sql_DB_Exec (conn db) _) as [[err | n] c1] eqn:Hexec;
    intros [= _ <- _]; simpl; by apply (sql_DB_Exec_unique_keys _ _ _ _ Hexec).
Qed.

Lemma DB_DeleteSetting_unique_keys db key r db' :
  DB_DeleteSetting db key = (r, db') →
  unique_keys (db_settings (conn db)) → unique_keys (db_settings (conn db')).
Proof.
  unfold DB_DeleteSetting.
  destruct (sql_DB_Exec (conn db) _) as [[err | n] c1] eqn:Hexec;
    [| destruct (n =? 0)];
    intros [= _ <-]; simpl; by apply (sql_DB_Exec_unique_keys _ _ _ _ Hexec).
Qed.

Lemma run_TxBody_unique_keys (fn : TxBody) :
  ∀ tx c o tx' c',
    run_TxBody fn tx c = (o, tx', c') →
    unique_keys (tx_settings tx) → unique_keys (db_settings c) →
    unique_keys (tx_settings tx') ∧ unique_keys (db_settings c').
Proof.
  induction fn as [err | v | stmt k IH | key k IH | k IH | k IH];
    intros tx c o tx' c'; simpl.
  - by intros [= _ <- <-].
  - by intros [= _ <- <-].
  - unfold sql_Tx_Exec. destruct (tx_done tx); [apply IH |].
    destruct (exec_stmt stmt (tx_settings tx)) as [e | [tbl n]] eqn:Hexec;
      [apply IH |].
    intros Hrun Htx Hc. apply (IH _ _ _ _ _ _ Hrun); [| done].
    simpl. by apply (exec_stmt_unique_keys stmt (tx_settings tx) tbl n).
  - apply IH.
  - unfold sql_Tx_Commit. destruct (tx_done tx); [apply IH |].
    intros Hrun Htx Hc. by apply (IH _ _ _ _ _ _ Hrun).
  - unfold sql_Tx_Rollback. destruct (tx_done tx); [apply IH |].
    intros Hrun Htx Hc. by apply (IH _ _ _ _ _ _ Hrun).
Qed.

Lemma DB_Transaction_unique_keys db fn o db' :
  DB_Transaction db fn = (o, db') →
  unique_keys (db_settings (conn db)) → unique_keys (db_settings (conn db')).
Proof.
  unfold DB_Transaction, sql_DB_Begin. destruct (db_closed (conn db));
    [by intros [= _ <-] |].
  destruct (run_TxBody fn _ (conn db)) as [[o1 tx1] c1] eqn:Hrun.
  intros Hres Huniq.
  destruct (run_TxBody_unique_keys fn _ _ _ _ _ Hrun Huniq Huniq) as [Htx1 Hc1].
  revert Hres. unfold sql_Tx_Rollback, sql_Tx_Commit.
  destruct o1 as [[err |] | v]; destruct (tx_done tx1); by intros [= _ <-].
Qed.

(** * Theorems about the encryption domains *)

(** C2.  Round trip, for each domain on its own: whenever [Encrypt] yields
    an envelope for a byte string, [Decrypt] under the same cipher instance
    returns exactly that byte string, and [Encrypt] does yield one whenever
    the entropy source delivers the twelve bytes of the nonce.  The cipher
    instances are those the constructors return; the byte string is
    arbitrary (empty, binary, any length). *)
Theorem Encrypt_Decrypt_roundtrip (L : CryptoLib) (Laws : CryptoLaws L)
    (plaintext : list byte) :
  (∀ machineID ce, NewConfigEncryption machineID = inr ce →
     (∀ rnd envelope rnd',
        ConfigEncryption_Encrypt ce plaintext rnd = (inr envelope, rnd') →
        ConfigEncryption_Decrypt ce envelope = inr plaintext) ∧
     (∀ rnd, (12 ≤ length rnd)%nat →
        ∃ envelope,
          ConfigEncryption_Encrypt ce plaintext rnd = (inr envelope, drop 12 rnd))) ∧
  (∀ key de, NewDatabaseEncryption key = inr de →
     (∀ rnd envelope rnd',
        DatabaseEncryption_Encrypt de plaintext rnd = (inr envelope, rnd') →
        DatabaseEncryption_Decrypt de envelope = inr plaintext) ∧
     (∀ rnd, (12 ≤ length rnd)%nat →
        ∃ envelope,
          DatabaseEncryption_Encrypt de plaintext rnd = (inr envelope, drop 12 rnd))).
Proof.
  split.
  - intros machineID ce Hce.
    apply NewConfigEncryption_inr in Hce as (_ & _ & Hkey).
    split.
    + intros rnd envelope rnd' Henc.
      destruct (decide (12 ≤ length rnd)%nat) as [Hrnd | Hrnd].
      * destruct (ConfigEncryption_roundtrip ce plaintext rnd Hkey Hrnd)
          as (envelope' & Henc' & Hdec).
        rewrite Henc in Henc'. by injection Henc' as -> _.
      * exfalso. revert Henc. unfold ConfigEncryption_Encrypt.
        destruct (aes_gcm_256 _ Hkey) as (block & gcm & -> & -> & Hsize & _).
        rewrite Hsize.
        destruct (io_ReadFull rnd 12) as [[e | nonce] r] eqn:Hread; [done |].
        apply io_ReadFull_inr in Hread as [Hlen ->].
        rewrite length_app in Hrnd. lia.
    + intros rnd Hrnd.
      destruct (ConfigEncryption_roundtrip ce plaintext rnd Hkey Hrnd)
        as (envelope & Henc & _).
      by exists envelope.
  - intros key de Hde.
    apply NewDatabaseEncryption_inr in Hde as [Hsk Hkey]. rewrite <- Hsk in Hkey.
    split.
    + intros rnd envelope rnd' Henc.
      destruct (decide (12 ≤ length rnd)%nat) as [Hrnd | Hrnd].
      * destruct (DatabaseEncryption_roundtrip de plaintext rnd Hkey Hrnd)
          as (envelope' & Henc' & Hdec).
        rewrite Henc in Henc'. by injection Henc' as -> _.
      * exfalso. revert Henc. unfold DatabaseEncryption_Encrypt.
        destruct (chacha20poly1305_256 _ Hkey) as (aead & -> & Hsize & _).
        rewrite Hsize.
        destruct (io_ReadFull rnd 12) as [[e | nonce] r] eqn:Hread; [done |].
        apply io_ReadFull_inr in Hread as [Hlen ->].
        rewrite length_app in Hrnd. lia.
    + intros rnd Hrnd.
      destruct (DatabaseEncryption_roundtrip de plaintext rnd Hkey Hrnd)
        as (envelope & Henc & _).
      by exists envelope.
Qed.

Lemma Encrypt_Decrypt_roundtrip_witness :
  ∃ ce envelope,
    NewConfigEncryption (L := sim_crypto) "machine-1" = inr ce ∧
    ConfigEncryption_Encrypt (L := sim_crypto) ce
      (bytes_of_string "sensitive config data") example_entropy =
      (inr envelope, []) ∧
    ConfigEncryption_Decrypt (L := sim_crypto) ce envelope =
      inr (bytes_of_string "sensitive config data").
Proof.
  destruct (NewConfigEncryption (L := sim_crypto) "machine-1") as [e | ce] eqn:Hce;
    [discriminate Hce |].
  destruct (proj1 (Encrypt_Decrypt_roundtrip sim_crypto sim_crypto_laws
                     (bytes_of_string "sensitive config data")) "machine-1" ce Hce)
    as [Hdec Henc].
  destruct (Henc example_entropy) as [envelope Henv]; [vm_compute; lia |].
  exists ce, envelope. split; [reflexivity |]. split; [exact Henv |].
  exact (Hdec _ _ _ Henv).
Defined.

(** C4.  The key of the config cipher is [pbkdf2.Key] of the hard-coded
    secret (password) and the bytes of the machine id (salt), with 10000
    iterations, a 32-byte output and [sha3.New256]; it has 32 bytes; and the
    constructor fails on the empty machine id. *)
Theorem NewConfigEncryption_derives_key (L : CryptoLib) (Laws : CryptoLaws L)
    (machineID : string) :
  (machineID ≠ "" →
     ∃ ce, NewConfigEncryption machineID = inr ce ∧
           ce_machineID ce = machineID ∧
           ce_key ce =
             pbkdf2_Key (bytes_of_string hardcodedEncryptionKey)
               (bytes_of_string machineID) 10000 32 sha3_New256 ∧
           length (ce_key ce) = 32%nat) ∧
  (machineID = "" →
     NewConfigEncryption machineID = inl (errors_New "machine ID cannot be empty")).
Proof.
  unfold NewConfigEncryption. split; intros Hid.
  - rewrite bool_decide_eq_false_2 by done. eexists. split; [done |].
    simpl. repeat split. by rewrite pbkdf2_Key_length.
  - by rewrite bool_decide_eq_true_2.
Qed.

Lemma NewConfigEncryption_derives_key_witness :
  ∃ ce, NewConfigEncryption (L := sim_crypto) "machine-1" = inr ce ∧
        ce_key ce =
          @pbkdf2_Key sim_crypto (bytes_of_string hardcodedEncryptionKey)
            (bytes_of_string "machine-1") 10000 32 tt ∧
        length (ce_key ce) = 32%nat.
Proof.
  destruct (proj1 (NewConfigEncryption_derives_key sim_crypto sim_crypto_laws
                     "machine-1")) as (ce & Hce & _ & Hkey & Hlen);
    [discriminate |].
  exists ce. split; [exact Hce |]. split; [exact Hkey | exact Hlen].
Defined.

(** C5 as stated does not hold: the ciphers report a malformed envelope and
    a truncated one with different errors.  Under any config cipher, over
    any crypto library that meets its contract, ["not-valid-base64!!!"]
    gives the wrapped base64 error and ["YWJj"] (three bytes) gives
    [ErrInvalidCiphertext]; the two values differ, and
    [errors.Is(err, ErrInvalidCiphertext)] tells them apart.  Neither input
    reaches the AEAD. *)
Lemma Decrypt_errors_distinguishable :
  let err1 := fmt_Errorf_w "failed to decode base64: %w" (base64_CorruptInputError 3) in
  let err2 := ErrInvalidCiphertext in
  (∀ (L : CryptoLib) (Laws : CryptoLaws L) machineID ce,
     NewConfigEncryption machineID = inr ce →
     ConfigEncryption_Decrypt ce "not-valid-base64!!!" = inl err1 ∧
     ConfigEncryption_Decrypt ce "YWJj" = inl err2) ∧
  (∃ ce, NewConfigEncryption (L := sim_crypto) "test-machine" = inr ce) ∧
  err1 ≠ err2 ∧
  errors_Is err1 ErrInvalidCiphertext = false ∧
  errors_Is err2 ErrInvalidCiphertext = true.
Proof.
  cbv zeta. split; [| split; [by eexists | split; [discriminate | by split]]].
  intros L Laws machineID ce Hce.
  apply NewConfigEncryption_inr in Hce as (_ & _ & Hkey).
  destruct (aes_gcm_256 _ Hkey) as (block & gcm & Hblock & Hgcm & Hsize & _).
  split.
  - by apply (Decrypt_malformed_base64 ce {| serverKey := [] |}).
  - rewrite (ConfigEncryption_Decrypt_decoded ce "YWJj" (bytes_of_string "abc")
               block gcm) by done.
    rewrite Hsize. by rewrite bool_decide_eq_true_2 by (simpl; lia).
Qed.

(** C5, amended.  [Decrypt] of either cipher fails in exactly three ways,
    each with its own error: an envelope that is not base64 gives the
    base64 error wrapped in "failed to decode base64"; one that decodes to
    fewer than twelve bytes gives [ErrInvalidCiphertext]; one that the
    AEAD refuses gives the AEAD's error wrapped in "failed to decrypt".
    The three errors are pairwise different, and in none of the cases is a
    plaintext returned. *)
Theorem Decrypt_failure_kinds (L : CryptoLib) (Laws : CryptoLaws L)
    (envelope : string) :
  (∀ machineID ce, NewConfigEncryption machineID = inr ce →
     ∃ block gcm,
       aes_NewCipher (ce_key ce) = inr block ∧ cipher_NewGCM block = inr gcm ∧
       ∀ e bs,
         (base64_DecodeString envelope = inl e →
            ConfigEncryption_Decrypt ce envelope =
              inl (fmt_Errorf_w "failed to decode base64: %w" e)) ∧
         (base64_DecodeString envelope = inr bs → (length bs < 12)%nat →
            ConfigEncryption_Decrypt ce envelope = inl ErrInvalidCiphertext) ∧
         (base64_DecodeString envelope = inr bs → (12 ≤ length bs)%nat →
            Open gcm [] (take 12 bs) (drop 12 bs) [] = inl e →
            ConfigEncryption_Decrypt ce envelope =
              inl (fmt_Errorf_w "failed to decrypt: %w" e))) ∧
  (∀ key de, NewDatabaseEncryption key = inr de →
     ∃ aead,
       chacha20poly1305_New (serverKey de) = inr aead ∧
       ∀ e bs,
         (base64_DecodeString envelope = inl e →
            DatabaseEncryption_Decrypt de envelope =
              inl (fmt_Errorf_w "failed to decode base64: %w" e)) ∧
         (base64_DecodeString envelope = inr bs → (length bs < 12)%nat →
            DatabaseEncryption_Decrypt de envelope = inl ErrInvalidCiphertext) ∧
         (base64_DecodeString envelope = inr bs → (12 ≤ length bs)%nat →
            Open aead [] (take 12 bs) (drop 12 bs) [] = inl e →
            DatabaseEncryption_Decrypt de envelope =
              inl (fmt_Errorf_w "failed to decrypt: %w" e))) ∧
  (∀ e e',
     fmt_Errorf_w "failed to decode base64: %w" e ≠ ErrInvalidCiphertext ∧
     fmt_Errorf_w "failed to decrypt: %w" e' ≠ ErrInvalidCiphertext ∧
     fmt_Errorf_w "failed to decode base64: %w" e ≠
       fmt_Errorf_w "failed to decrypt: %w" e').
Proof.
  split; [| split].
  - intros machineID ce Hce.
    apply NewConfigEncryption_inr in Hce as (_ & _ & Hkey).
    destruct (aes_gcm_256 _ Hkey) as (block & gcm & Hblock & Hgcm & Hsize & _).
    exists block, gcm. split; [done |]. split; [done |].
    intros e bs. split; [| split].
    + intros He. unfold ConfigEncryption_Decrypt. by rewrite He.
    + intros Hbs Hlen.
      rewrite (ConfigEncryption_Decrypt_decoded ce envelope bs block gcm) by done.
      rewrite Hsize. by rewrite bool_decide_eq_true_2.
    + intros Hbs Hlen Hopen.
      rewrite (ConfigEncryption_Decrypt_decoded ce envelope bs block gcm) by done.
      rewrite Hsize, bool_decide_eq_false_2 by lia. by rewrite Hopen.
  - intros key de Hde.
    apply NewDatabaseEncryption_inr in Hde as [Hsk Hkey]. rewrite <- Hsk in Hkey.
    destruct (chacha20poly1305_256 _ Hkey) as (aead & Haead & Hsize & _).
    exists aead. split; [done |].
    intros e bs. split; [| split].
    + intros He. unfold DatabaseEncryption_Decrypt. by rewrite He.
    + intros Hbs Hlen.
      rewrite (DatabaseEncryption_Decrypt_decoded de envelope bs aead) by done.
      rewrite Hsize. by rewrite bool_decide_eq_true_2.
    + intros Hbs Hlen Hopen.
      rewrite (DatabaseEncryption_Decrypt_decoded de envelope bs aead) by done.
      rewrite Hsize, bool_decide_eq_false_2 by lia. by rewrite Hopen.
  - intros e e'. repeat split; discriminate.
Qed.

Lemma Decrypt_failure_kinds_witness :
  ∃ de, NewDatabaseEncryption example_server_key = inr de ∧
        DatabaseEncryption_Decrypt (L := sim_crypto) de "YWJj" =
          inl ErrInvalidCiphertext.
Proof.
  destruct (NewDatabaseEncryption example_server_key)
    as [e | de] eqn:Hde; [discriminate Hde |].
  destruct (proj1 (proj2 (Decrypt_failure_kinds sim_crypto sim_crypto_laws "YWJj"))
              example_server_key de Hde) as (aead & _ & Hkinds).
  exists de. split; [reflexivity |].
  apply (proj1 (proj2 (Hkinds ErrInvalidCiphertext (bytes_of_string "abc"))));
    [reflexivity | vm_compute; lia].
Defined.

(** C10.  A 32-byte key survives [ServerKeyToBase64] followed by
    [ServerKeyFromBase64], and base64 text that decodes to any other number
    of bytes is refused. *)
Theorem ServerKey_base64_roundtrip :
  (∀ key : list byte, length key = 32%nat →
     ServerKeyFromBase64 (ServerKeyToBase64 key) = inr key) ∧
  (∀ (keyB64 : string) (decoded : list byte),
     base64_DecodeString keyB64 = inr decoded → length decoded ≠ 32%nat →
     ServerKeyFromBase64 keyB64 =
       inl (fmt_Errorf_d_d "invalid server key length: expected %d, got %d"
              32 (Z.of_nat (length decoded)))).
Proof.
  unfold ServerKeyFromBase64, ServerKeyToBase64, chacha20KeySize. split.
  - intros key Hlen. rewrite base64_DecodeString_EncodeToString. simpl.
    rewrite bool_decide_eq_false_2 by lia. done.
  - intros keyB64 decoded -> Hlen. simpl.
    rewrite bool_decide_eq_true_2 by lia. done.
Qed.

Lemma ServerKey_base64_roundtrip_witness :
  ServerKeyFromBase64 (ServerKeyToBase64 example_server_key) = inr example_server_key ∧
  ServerKeyFromBase64 "YWJjZGVm" =
    inl (fmt_Errorf_d_d "invalid server key length: expected %d, got %d" 32 6).
Proof.
  split.
  - apply (proj1 ServerKey_base64_roundtrip). reflexivity.
  - apply (proj2 ServerKey_base64_roundtrip "YWJjZGVm" (bytes_of_string "abcdef"));
      [reflexivity | vm_compute; lia].
Defined.

(** * Theorems about the machine identity *)




(** * Theorems about the settings store *)

(** C7.  On an open store whose cipher came from [NewDatabaseEncryption],
    with entropy for two nonces: [SetSetting k v1] and [SetSetting k v2]
    both succeed and [GetSetting k] then returns [v2]; and, the keys of the
    table being unique, the table then holds exactly one row for [k], which
    carries [updated_at] of the second write, [created_at] of the row's
    first insertion, and an envelope of [v2]. *)
Theorem SetSetting_upsert (L : CryptoLib) (Laws : CryptoLaws L) (db : DB)
    (skey : list byte) (key v1 v2 : string) (t1 t2 : Time) (rnd : Reader) :
  NewDatabaseEncryption skey = inr (encryption db) →
  db_closed (conn db) = false →
  (24 ≤ length rnd)%nat →
  ∃ db1 db2 envelope,
    DB_SetSetting db key v1 t1 rnd = (None, db1, drop 12 rnd) ∧
    DB_SetSetting db1 key v2 t2 (drop 12 rnd) = (None, db2, drop 24 rnd) ∧
    DB_GetSetting db2 key = inr v2 ∧
    DatabaseEncryption_Decrypt (encryption db2) envelope = inr (bytes_of_string v2) ∧
    (unique_keys (db_settings (conn db)) →
       unique_keys (db_settings (conn db2)) ∧
       filter (λ r, row_key r = key) (db_settings (conn db2)) =
         [{| row_key := key; row_value := envelope;
             row_created_at := created_at_after_upsert key t1 (db_settings (conn db));
             row_updated_at := t2 |}]).
Proof.
  intros Henc Hopen Hrnd.
  apply NewDatabaseEncryption_inr in Henc as [Hsk Hlen]. rewrite <- Hsk in Hlen.
  destruct (DB_SetSetting_open db key v1 t1 rnd Hlen Hopen ltac:(lia))
    as (env1 & tbl1 & Hdec1 & Hexec1 & Hset1).
  set (db1 := with_conn db {| db_closed := false; db_settings := tbl1 |}) in *.
  destruct (DB_SetSetting_open db1 key v2 t2 (drop 12 rnd) Hlen eq_refl
              ltac:(rewrite length_drop; lia))
    as (env2 & tbl2 & Hdec2 & Hexec2 & Hset2).
  rewrite drop_drop in Hset2. change (12 + 12)%nat with 24%nat in Hset2.
  change (db_settings (conn db1)) with tbl1 in Hexec2.
  set (db2 := with_conn db1 {| db_closed := false; db_settings := tbl2 |}) in *.
  destruct (exec_upsert key env1 t1 (db_settings (conn db)))
    as (tbl1' & Hexec1' & Hsel1 & Huniq1).
  rewrite Hexec1 in Hexec1'. injection Hexec1' as <-.
  destruct (exec_upsert key env2 t2 tbl1) as (tbl2' & Hexec2' & Hsel2 & Huniq2).
  rewrite Hexec2 in Hexec2'. injection Hexec2' as <-.
  exists db1, db2, env2. split; [done |]. split; [done |]. split; [| split; [done |]].
  - rewrite (DB_GetSetting_found db2 key env2 eq_refl Hsel2).
    change (encryption db2) with (encryption db1). rewrite Hdec2.
    by rewrite string_of_bytes_of_string.
  - intros Huniq. destruct (Huniq1 Huniq) as [Hu1 Hrow1].
    destruct (Huniq2 Hu1) as [Hu2 Hrow2]. split; [done |].
    simpl. rewrite Hrow2. do 2 f_equal.
    unfold created_at_after_upsert at 1.
    by rewrite find_has_key_filter, Hrow1.
Qed.

Lemma SetSetting_upsert_witness :
  ∃ db1 db2 envelope,
    DB_SetSetting (L := sim_crypto) example_db "update_test" "original_value" 100
      example_entropy36 = (None, db1, drop 12 example_entropy36) ∧
    DB_SetSetting (L := sim_crypto) db1 "update_test" "updated_value" 200
      (drop 12 example_entropy36) = (None, db2, drop 24 example_entropy36) ∧
    DB_GetSetting (L := sim_crypto) db2 "update_test" = inr "updated_value" ∧
    DatabaseEncryption_Decrypt (L := sim_crypto) (encryption db2) envelope =
      inr (bytes_of_string "updated_value") ∧
    (unique_keys (db_settings (conn example_db)) →
       unique_keys (db_settings (conn db2)) ∧
       filter (λ r, row_key r = "update_test") (db_settings (conn db2)) =
         [{| row_key := "update_test"; row_value := envelope;
             row_created_at :=
               created_at_after_upsert "update_test" 100 (db_settings (conn example_db));
             row_updated_at := 200 |}]).
Proof.
  apply (SetSetting_upsert sim_crypto sim_crypto_laws example_db example_server_key);
    [reflexivity | reflexivity | vm_compute; lia].
Defined.

(** C8.  On an open store: deleting a key that has no row fails with
    "setting not found" and leaves the table as it was; deleting a key that
    has a row succeeds and removes it; and after [SetSetting k v] and
    [DeleteSetting k], [GetSetting k] fails with the same "setting not
    found" error. *)
Theorem DeleteSetting_not_found (L : CryptoLib) (Laws : CryptoLaws L) (db : DB)
    (key : string) :
  db_closed (conn db) = false →
  (key ∉ map row_key (db_settings (conn db)) →
     ∃ db', DB_DeleteSetting db key =
              (Some (fmt_Errorf_s "setting not found: %s" key), db') ∧
            db_settings (conn db') = db_settings (conn db)) ∧
  (key ∈ map row_key (db_settings (conn db)) →
     ∃ db', DB_DeleteSetting db key = (None, db') ∧
            db_settings (conn db') =
              filter (λ r, row_key r ≠ key) (db_settings (conn db)) ∧
            key ∉ map row_key (db_settings (conn db'))) ∧
  (∀ skey value now rnd,
     NewDatabaseEncryption skey = inr (encryption db) → (12 ≤ length rnd)%nat →
     ∃ db1 db2,
       DB_SetSetting db key value now rnd = (None, db1, drop 12 rnd) ∧
       DB_DeleteSetting db1 key = (None, db2) ∧
       DB_GetSetting db2 key = inl (fmt_Errorf_s "setting not found: %s" key)).
Proof.
  intros Hopen. split; [| split].
  - intros Hnotin. rewrite DB_DeleteSetting_open by done. cbv zeta.
    rewrite bool_decide_eq_false_2 by done. eexists. split; [done |].
    simpl. by rewrite filter_other_keys_absent.
  - intros Hin. rewrite DB_DeleteSetting_open by done. cbv zeta.
    rewrite bool_decide_eq_true_2 by done. eexists. split; [done |].
    simpl. split; [done | apply keys_after_delete].
  - intros skey value now rnd Henc Hrnd.
    apply NewDatabaseEncryption_inr in Henc as [Hsk Hlen]. rewrite <- Hsk in Hlen.
    destruct (DB_SetSetting_open db key value now rnd Hlen Hopen Hrnd)
      as (env & tbl & _ & Hexec & Hset).
    destruct (exec_upsert key env now (db_settings (conn db)))
      as (tbl' & Hexec' & Hsel & _).
    rewrite Hexec in Hexec'. injection Hexec' as <-.
    assert (key ∈ map row_key tbl) as Hin.
    { destruct (decide (key ∈ map row_key tbl)) as [? | Hnotin]; [done |].
      by rewrite select_value_absent in Hsel. }
    eexists _, _. split; [exact Hset |].
    rewrite DB_DeleteSetting_open by done. cbv zeta. simpl.
    rewrite bool_decide_eq_true_2 by done. split; [done |].
    apply DB_GetSetting_absent; [done |]. simpl. apply keys_after_delete.
Qed.

Lemma DeleteSetting_not_found_witness :
  ∃ db', DB_DeleteSetting example_db "non_existent_key" =
           (Some (fmt_Errorf_s "setting not found: %s" "non_existent_key"), db') ∧
         db_settings (conn db') = db_settings (conn example_db).
Proof.
  apply (proj1 (DeleteSetting_not_found sim_crypto sim_crypto_laws example_db
                  "non_existent_key" eq_refl)).
  intros Hin. by apply elem_of_nil in Hin.
Defined.

(** C9.  On an open store [GetAllSettings] returns a map, never an error.
    The map has entries for keys of the table only; and, the keys of the
    table being unique, a row whose envelope decrypts is in the map with
    its decrypted value, while a row whose envelope does not decrypt is
    absent from the map and a warning naming it is printed.  [GetSetting]
    on that same row does not suppress the error: it fails with the decrypt
    error wrapped in "failed to decrypt setting value". *)
Theorem GetAllSettings_skips_undecryptable (L : CryptoLib) (db : DB) :
  db_closed (conn db) = false →
  ∃ settings out,
    DB_GetAllSettings db = (inr settings, out) ∧
    (∀ k, is_Some (settings !! k) → k ∈ map row_key (db_settings (conn db))) ∧
    (unique_keys (db_settings (conn db)) →
     ∀ r, r ∈ db_settings (conn db) →
       match DatabaseEncryption_Decrypt (encryption db) (row_value r) with
       | inr v =>
           settings !! row_key r = Some (string_of_bytes v) ∧
           DB_GetSetting db (row_key r) = inr (string_of_bytes v)
       | inl err =>
           settings !! row_key r = None ∧
           decrypt_warning (row_key r) err ∈ out ∧
           DB_GetSetting db (row_key r) =
             inl (fmt_Errorf_w "failed to decrypt setting value: %w" err)
       end).
Proof.
  intros Hopen. unfold DB_GetAllSettings, sql_DB_Query_all. rewrite Hopen.
  set (rows := map (λ r, (row_key r, row_value r)) (db_settings (conn db))).
  assert (map fst rows = map row_key (db_settings (conn db))) as Hkeys.
  { unfold rows. rewrite map_map. by apply map_ext. }
  destruct (fold_left (GetAllSettings_row db) rows (∅, [])) as [settings out] eqn:Hfold.
  exists settings, out. split; [done |]. split.
  - intros k Hk.
    destruct (GetAllSettings_fold_dom db rows (∅, []) k) as [Hempty | Hin].
    + by rewrite Hfold.
    + simpl in Hempty. rewrite lookup_empty in Hempty. by destruct Hempty.
    + by rewrite <- Hkeys.
  - intros Huniq r Hr.
    assert ((row_key r, row_value r) ∈ rows) as Hrow.
    { unfold rows. apply list_elem_of_fmap. by exists r. }
    assert (NoDup (map fst rows)) as Hnd by (by rewrite Hkeys).
    pose proof (GetAllSettings_fold_row db rows (∅, []) _ _ Hnd Hrow) as Hfr.
    rewrite Hfold in Hfr. simpl in Hfr.
    assert (select_value (row_key r) (db_settings (conn db)) = inr (row_value r))
      as Hsel by (unfold select_value; by rewrite find_has_key_unique).
    rewrite (DB_GetSetting_found db _ _ Hopen Hsel).
    destruct (DatabaseEncryption_Decrypt (encryption db) (row_value r)) as [err | v].
    + destruct Hfr as [Hlook Hwarn]. rewrite lookup_empty in Hlook. done.
    + done.
Qed.

Lemma GetAllSettings_skips_undecryptable_witness :
  ∃ settings out,
    DB_GetAllSettings (L := sim_crypto) example_db_damaged = (inr settings, out) ∧
    settings !! "key1" = Some "value1" ∧
    settings !! "key2" = None.
Proof.
  destruct (GetAllSettings_skips_undecryptable sim_crypto example_db_damaged eq_refl)
    as (settings & out & Hget & _ & Hrows).
  assert (unique_keys (db_settings (conn example_db_damaged))) as Huniq.
  { unfold unique_keys. simpl. apply NoDup_cons. split.
    - intros Hin. apply list_elem_of_singleton in Hin. discriminate Hin.
    - apply NoDup_singleton. }
  exists settings, out. split; [exact Hget |]. split.
  - pose proof (Hrows Huniq
      {| row_key := "key1";
         row_value := "MDEyMzQ1Njc4OWFiAJYUjB/KMfKzdDX2t3g5+rt8Pf6/gA==";
         row_created_at := 100; row_updated_at := 100 |}) as H1.
    assert (DatabaseEncryption_Decrypt (L := sim_crypto)
              (encryption example_db_damaged)
              "MDEyMzQ1Njc4OWFiAJYUjB/KMfKzdDX2t3g5+rt8Pf6/gA==" =
            inr (bytes_of_string "value1")) as Hdec by (vm_compute; reflexivity).
    cbn [row_key row_value] in H1. rewrite Hdec in H1.
    apply H1. apply elem_of_cons. left. reflexivity.
  - pose proof (Hrows Huniq
      {| row_key := "key2"; row_value := "damaged!";
         row_created_at := 101; row_updated_at := 101 |}) as H2.
    assert (DatabaseEncryption_Decrypt (L := sim_crypto)
              (encryption example_db_damaged) "damaged!" =
            inl (fmt_Errorf_w "failed to decode base64: %w"
                   (base64_CorruptInputError 7))) as Hdec by (vm_compute; reflexivity).
    cbn [row_key row_value] in H2. rewrite Hdec in H2.
    apply H2. apply elem_of_cons. right. apply elem_of_cons. left. reflexivity.
Defined.

(** * Theorems about transactions *)

(** C6 as stated does not hold for every function: the function receives
    the raw handle and may finish the transaction itself.  After
    [commit_then_fail] the inserted row is visible although the function
    returned an error, and the error [Transaction] returns is not the
    function's error but a wrapper around it; after [rollback_then_succeed]
    the function returned no error, yet [Transaction] fails and the row is
    absent. *)
Lemma Transaction_body_may_finish_handle :
  (∃ db',
     DB_Transaction example_db commit_then_fail =
       (Returned (Some (fmt_Errorf_v_w
          "failed to rollback transaction: %v (original error: %w)"
          sql_ErrTxDone (errors_New "boom"))), db') ∧
     sql_DB_QueryRow_exists (conn db') "tx_key" = inr true) ∧
  (∃ db',
     DB_Transaction example_db rollback_then_succeed =
       (Returned (Some (fmt_Errorf_w "failed to commit transaction: %w" sql_ErrTxDone)),
        db') ∧
     sql_DB_QueryRow_exists (conn db') "tx_key" = inr false).
Proof.
  split; eexists; (split; [vm_compute; reflexivity | reflexivity]).
Qed.

(** C6, amended.  On an open store, let the function run on a fresh handle.
    If it leaves the handle open (it did not itself commit or roll back):
    when it returns an error, [Transaction] returns that very error and the
    store is unchanged; when it panics, the panic propagates and the store
    is unchanged; when it returns no error, [Transaction] returns no error
    and the stored table is the table the function saw when it returned.
    If the function has finished the handle itself, the store is as the
    function left it, a panic still propagates, and [Transaction] returns
    the rollback error wrapped around the function's error, or the commit
    error. *)
Theorem Transaction_atomic (db : DB) (fn : TxBody) (o : outcome) (tx' : sql_Tx)
    (c' : sql_DB) :
  db_closed (conn db) = false →
  run_TxBody fn {| tx_settings := db_settings (conn db); tx_done := false |} (conn db) =
    (o, tx', c') →
  (tx_done tx' = false →
     match o with
     | Returned (Some err) => DB_Transaction db fn = (Returned (Some err), db)
     | Panicked v => DB_Transaction db fn = (Panicked v, db)
     | Returned None =>
         DB_Transaction db fn =
           (Returned None,
            with_conn db {| db_closed := false; db_settings := tx_settings tx' |})
     end) ∧
  (tx_done tx' = true →
     match o with
     | Returned (Some err) =>
         DB_Transaction db fn =
           (Returned (Some (fmt_Errorf_v_w
              "failed to rollback transaction: %v (original error: %w)"
              sql_ErrTxDone err)), with_conn db c')
     | Panicked v => DB_Transaction db fn = (Panicked v, with_conn db c')
     | Returned None =>
         DB_Transaction db fn =
           (Returned (Some (fmt_Errorf_w "failed to commit transaction: %w"
                              sql_ErrTxDone)), with_conn db c')
     end).
Proof.
  intros Hopen Hrun. unfold DB_Transaction, sql_DB_Begin. rewrite Hopen, Hrun.
  split; intros Hdone.
  - destruct (run_TxBody_open _ _ _ _ _ _ Hrun Hdone) as [_ ->].
    unfold sql_Tx_Rollback, sql_Tx_Commit. rewrite Hdone.
    destruct o as [[err |] | v]; rewrite ?with_conn_conn; try done.
    by rewrite Hopen.
  - unfold sql_Tx_Rollback, sql_Tx_Commit. rewrite Hdone.
    by destruct o as [[err |] | v].
Qed.

Lemma Transaction_atomic_witness :
  DB_Transaction example_db
    (exec_all [InsertSetting "a" "1" 1; InsertSetting "a" "2" 2]) =
  (Returned (Some sqlite_constraint_PRIMARYKEY), example_db).
Proof.
  apply (proj1 (Transaction_atomic example_db
                  (exec_all [InsertSetting "a" "1" 1; InsertSetting "a" "2" 2])
                  _ _ _ eq_refl eq_refl) eq_refl).
Defined.
(** * Further properties of the encryption domains *)

(** What [io.ReadFull] answers when the source cannot fill the buffer. *)
Lemma io_ReadFull_short (r : Reader) (n : nat) :
  (length r < n)%nat →
  io_ReadFull r n =
    (inl (if bool_decide (r = []) then io_EOF else io_ErrUnexpectedEOF), []).
Proof.
  intros Hn. unfold io_ReadFull.
  case_bool_decide as H0; [lia |].
  case_bool_decide as Hr; [by subst r |].
  by rewrite bool_decide_eq_true_2.
Qed.

Lemma io_ReadFull_inr_take (r r' : Reader) (n : nat) (buf : list byte) :
  io_ReadFull r n = (inr buf, r') →
  (n ≤ length r)%nat ∧ buf = take n r ∧ r' = drop n r.
Proof.
  intros Hread. destruct (io_ReadFull_inr _ _ _ _ Hread) as [Hlen ->].
  rewrite length_app, <- Hlen, take_app_length, drop_app_length.
  repeat split; [lia | done..].
Qed.

(** The encoded envelope determines the bytes it was made of. *)
Lemma base64_EncodeToString_inj (a b : list byte) :
  base64_EncodeToString a = base64_EncodeToString b → a = b.
Proof.
  intros Heq.
  assert (base64_DecodeString (base64_EncodeToString a) =
          base64_DecodeString (base64_EncodeToString b)) as Hdec by (by rewrite Heq).
  rewrite !base64_DecodeString_EncodeToString in Hdec. by injection Hdec.
Qed.

Section EncryptSteps.
Context {L : CryptoLib} {Laws : CryptoLaws L}.

(** [Encrypt] under a 32-byte key, reduced to what it does with the entropy
    source: the cipher is built, and the outcome of reading the nonce
    decides the rest. *)
Lemma ConfigEncryption_Encrypt_steps ce plaintext rnd :
  length (ce_key ce) = 32%nat →
  ∃ block gcm,
    aes_NewCipher (ce_key ce) = inr block ∧ cipher_NewGCM block = inr gcm ∧
    ConfigEncryption_Encrypt ce plaintext rnd =
      match io_ReadFull rnd 12 with
      | (inl err, rnd') =>
          (inl (fmt_Errorf_w "failed to generate nonce: %w" err), rnd')
      | (inr nonce, rnd') =>
          (inr (base64_EncodeToString (nonce ++ Seal gcm [] nonce plaintext [])), rnd')
      end.
Proof.
  intros Hkey.
  destruct (aes_gcm_256 _ Hkey) as (block & gcm & Hblock & Hgcm & Hsize & Hcontract).
  exists block, gcm. split; [done |]. split; [done |].
  unfold ConfigEncryption_Encrypt. rewrite Hblock, Hgcm, Hsize.
  destruct (io_ReadFull rnd 12) as [[err | nonce] rnd']; [done |].
  by rewrite (Seal_appends gcm Hcontract).
Qed.

Lemma DatabaseEncryption_Encrypt_steps de plaintext rnd :
  length (serverKey de) = 32%nat →
  ∃ aead,
    chacha20poly1305_New (serverKey de) = inr aead ∧
    DatabaseEncryption_Encrypt de plaintext rnd =
      match io_ReadFull rnd 12 with
      | (inl err, rnd') =>
          (inl (fmt_Errorf_w "failed to generate nonce: %w" err), rnd')
      | (inr nonce, rnd') =>
          (inr (base64_EncodeToString (nonce ++ Seal aead [] nonce plaintext [])), rnd')
      end.
Proof.
  intros Hkey.
  destruct (chacha20poly1305_256 _ Hkey) as (aead & Haead & Hsize & Hcontract).
  exists aead. split; [done |].
  unfold DatabaseEncryption_Encrypt. rewrite Haead, Hsize.
  destruct (io_ReadFull rnd 12) as [[err | nonce] rnd']; [done |].
  by rewrite (Seal_appends aead Hcontract).
Qed.

Lemma ConfigEncryption_Encrypt_inr ce plaintext rnd rnd' envelope :
  length (ce_key ce) = 32%nat →
  ConfigEncryption_Encrypt ce plaintext rnd = (inr envelope, rnd') →
  ∃ block gcm,
    aes_NewCipher (ce_key ce) = inr block ∧ cipher_NewGCM block = inr gcm ∧
    (12 ≤ length rnd)%nat ∧ rnd' = drop 12 rnd ∧
    base64_DecodeString envelope =
      inr (take 12 rnd ++ Seal gcm [] (take 12 rnd) plaintext []).
Proof.
  intros Hkey Henc.
  destruct (ConfigEncryption_Encrypt_steps ce plaintext rnd Hkey)
    as (block & gcm & Hblock & Hgcm & Hsteps).
  exists block, gcm. split; [done |]. split; [done |].
  rewrite Hsteps in Henc.
  destruct (io_ReadFull rnd 12) as [[err | nonce] r] eqn:Hread; [done |].
  injection Henc as <- <-.
  apply io_ReadFull_inr_take in Hread as (Hlen & -> & ->).
  split; [done |]. split; [done |].
  apply base64_DecodeString_EncodeToString.
Qed.

Lemma DatabaseEncryption_Encrypt_inr de plaintext rnd rnd' envelope :
  length (serverKey de) = 32%nat →
  DatabaseEncryption_Encrypt de plaintext rnd = (inr envelope, rnd') →
  ∃ aead,
    chacha20poly1305_New (serverKey de) = inr aead ∧
    (12 ≤ length rnd)%nat ∧ rnd' = drop 12 rnd ∧
    base64_DecodeString envelope =
      inr (take 12 rnd ++ Seal aead [] (take 12 rnd) plaintext []).
Proof.
  intros Hkey Henc.
  destruct (DatabaseEncryption_Encrypt_steps de plaintext rnd Hkey)
    as (aead & Haead & Hsteps).
  exists aead. split; [done |].
  rewrite Hsteps in Henc.
  destruct (io_ReadFull rnd 12) as [[err | nonce] r] eqn:Hread; [done |].
  injection Henc as <- <-.
  apply io_ReadFull_inr_take in Hread as (Hlen & -> & ->).
  split; [done |]. split; [done |].
  apply base64_DecodeString_EncodeToString.
Qed.

End EncryptSteps.

(** X1.  The envelope [Encrypt] returns is the base64 text of the nonce
    followed by what the AEAD sealed under that nonce; the nonce is the
    next twelve bytes of the entropy source, and these twelve bytes are all
    that [Encrypt] takes from it.  This holds for the config cipher and for
    the database cipher alike. *)
Theorem Encrypt_envelope_layout (L : CryptoLib) (Laws : CryptoLaws L)
    (plaintext : list byte) (rnd rnd' : Reader) (envelope : string) :
  (∀ machineID ce, NewConfigEncryption machineID = inr ce →
     ConfigEncryption_Encrypt ce plaintext rnd = (inr envelope, rnd') →
     ∃ block gcm,
       aes_NewCipher (ce_key ce) = inr block ∧ cipher_NewGCM block = inr gcm ∧
       (12 ≤ length rnd)%nat ∧ rnd' = drop 12 rnd ∧
       base64_DecodeString envelope =
         inr (take 12 rnd ++ Seal gcm [] (take 12 rnd) plaintext [])) ∧
  (∀ key de, NewDatabaseEncryption key = inr de →
     DatabaseEncryption_Encrypt de plaintext rnd = (inr envelope, rnd') →
     ∃ aead,
       chacha20poly1305_New (serverKey de) = inr aead ∧
       (12 ≤ length rnd)%nat ∧ rnd' = drop 12 rnd ∧
       base64_DecodeString envelope =
         inr (take 12 rnd ++ Seal aead [] (take 12 rnd) plaintext [])).
Proof.
  split.
  - intros machineID ce Hce Henc.
    apply NewConfigEncryption_inr in Hce as (_ & _ & Hkey).
    by apply ConfigEncryption_Encrypt_inr.
  - intros key de Hde Henc.
    apply NewDatabaseEncryption_inr in Hde as [Hsk Hkey]. rewrite <- Hsk in Hkey.
    by apply DatabaseEncryption_Encrypt_inr.
Qed.

Lemma Encrypt_envelope_layout_witness :
  ∃ de envelope aead,
    NewDatabaseEncryption example_server_key = inr de ∧
    DatabaseEncryption_Encrypt (L := sim_crypto) de (bytes_of_string "value1")
      example_entropy36 = (inr envelope, drop 12 example_entropy36) ∧
    base64_DecodeString envelope =
      inr (bytes_of_string "0123456789ab" ++
           Seal aead [] (bytes_of_string "0123456789ab") (bytes_of_string "value1") []).
Proof.
  destruct (NewDatabaseEncryption example_server_key) as [e | de] eqn:Hde;
    [discriminate Hde |].
  destruct (DatabaseEncryption_Encrypt (L := sim_crypto) de (bytes_of_string "value1")
              example_entropy36) as [[e | envelope] r] eqn:Henc;
    [vm_compute in Hde; injection Hde as <-; vm_compute in Henc; discriminate Henc |].
  destruct (proj2 (Encrypt_envelope_layout sim_crypto sim_crypto_laws
                     (bytes_of_string "value1") example_entropy36 r envelope)
              example_server_key de Hde Henc) as (aead & _ & _ & -> & Hdec).
  exists de, envelope, aead. split; [reflexivity |]. split; [exact Henc |].
  exact Hdec.
Defined.

(** X2.  With fewer than twelve bytes of entropy left, [Encrypt] of either
    cipher returns no envelope: it fails with "failed to generate nonce"
    around [io.EOF] when the source is empty and around
    [io.ErrUnexpectedEOF] when it ends early, and the source is drained. *)
Theorem Encrypt_entropy_shortage (L : CryptoLib) (Laws : CryptoLaws L)
    (plaintext : list byte) (rnd : Reader) :
  (length rnd < 12)%nat →
  let err :=
    fmt_Errorf_w "failed to generate nonce: %w"
      (if bool_decide (rnd = []) then io_EOF else io_ErrUnexpectedEOF) in
  (∀ machineID ce, NewConfigEncryption machineID = inr ce →
     ConfigEncryption_Encrypt ce plaintext rnd = (inl err, [])) ∧
  (∀ key de, NewDatabaseEncryption key = inr de →
     DatabaseEncryption_Encrypt de plaintext rnd = (inl err, [])).
Proof.
  intros Hrnd err. split.
  - intros machineID ce Hce.
    apply NewConfigEncryption_inr in Hce as (_ & _ & Hkey).
    destruct (ConfigEncryption_Encrypt_steps ce plaintext rnd Hkey)
      as (block & gcm & _ & _ & ->).
    by rewrite io_ReadFull_short.
  - intros key de Hde.
    apply NewDatabaseEncryption_inr in Hde as [Hsk Hkey]. rewrite <- Hsk in Hkey.
    destruct (DatabaseEncryption_Encrypt_steps de plaintext rnd Hkey)
      as (aead & _ & ->).
    by rewrite io_ReadFull_short.
Qed.

Lemma Encrypt_entropy_shortage_witness :
  ∃ ce,
    NewConfigEncryption (L := sim_crypto) "machine-1" = inr ce ∧
    ConfigEncryption_Encrypt (L := sim_crypto) ce (bytes_of_string "config")
      (bytes_of_string "0123456") =
      (inl (fmt_Errorf_w "failed to generate nonce: %w" io_ErrUnexpectedEOF), []).
Proof.
  destruct (NewConfigEncryption (L := sim_crypto) "machine-1") as [e | ce] eqn:Hce;
    [discriminate Hce |].
  exists ce. split; [reflexivity |].
  apply (proj1 (Encrypt_entropy_shortage sim_crypto sim_crypto_laws
                  (bytes_of_string "config") (bytes_of_string "0123456")
                  ltac:(vm_compute; lia)) "machine-1" ce Hce).
Defined.

(** X3.  The nonce travels in the clear at the head of the envelope, so two
    envelopes made from different nonces are different texts, whatever the
    plaintexts, the keys and the domains: two config envelopes, two database
    envelopes, or one of each. *)
Theorem Encrypt_distinct_nonces (L : CryptoLib) (Laws : CryptoLaws L)
    (p1 p2 : list byte) (rnd1 rnd2 rnd1' rnd2' : Reader) (e1 e2 : string) :
  take 12 rnd1 ≠ take 12 rnd2 →
  (∀ id1 ce1 id2 ce2,
     NewConfigEncryption id1 = inr ce1 → NewConfigEncryption id2 = inr ce2 →
     ConfigEncryption_Encrypt ce1 p1 rnd1 = (inr e1, rnd1') →
     ConfigEncryption_Encrypt ce2 p2 rnd2 = (inr e2, rnd2') → e1 ≠ e2) ∧
  (∀ k1 de1 k2 de2,
     NewDatabaseEncryption k1 = inr de1 → NewDatabaseEncryption k2 = inr de2 →
     DatabaseEncryption_Encrypt de1 p1 rnd1 = (inr e1, rnd1') →
     DatabaseEncryption_Encrypt de2 p2 rnd2 = (inr e2, rnd2') → e1 ≠ e2) ∧
  (∀ id1 ce1 k2 de2,
     NewConfigEncryption id1 = inr ce1 → NewDatabaseEncryption k2 = inr de2 →
     ConfigEncryption_Encrypt ce1 p1 rnd1 = (inr e1, rnd1') →
     DatabaseEncryption_Encrypt de2 p2 rnd2 = (inr e2, rnd2') → e1 ≠ e2).
Proof.
  intros Hnonce.
  assert (∀ s1 s2 : list byte,
            base64_DecodeString e1 = inr (take 12 rnd1 ++ s1) →
            base64_DecodeString e2 = inr (take 12 rnd2 ++ s2) →
            (12 ≤ length rnd1)%nat → (12 ≤ length rnd2)%nat → e1 ≠ e2) as Hdiff.
  { intros s1 s2 H1 H2 Hl1 Hl2 ->. rewrite H1 in H2. injection H2 as H2.
    apply app_inj_1 in H2 as [H2 _]; [done |].
    rewrite !length_take. lia. }
  repeat split.
  - intros id1 ce1 id2 ce2 Hc1 Hc2 He1 He2.
    apply NewConfigEncryption_inr in Hc1 as (_ & _ & Hk1).
    apply NewConfigEncryption_inr in Hc2 as (_ & _ & Hk2).
    destruct (ConfigEncryption_Encrypt_inr _ _ _ _ _ Hk1 He1)
      as (? & ? & _ & _ & Hl1 & _ & Hd1).
    destruct (ConfigEncryption_Encrypt_inr _ _ _ _ _ Hk2 He2)
      as (? & ? & _ & _ & Hl2 & _ & Hd2).
    by eapply Hdiff.
  - intros k1 de1 k2 de2 Hc1 Hc2 He1 He2.
    apply NewDatabaseEncryption_inr in Hc1 as [Hs1 Hk1]. rewrite <- Hs1 in Hk1.
    apply NewDatabaseEncryption_inr in Hc2 as [Hs2 Hk2]. rewrite <- Hs2 in Hk2.
    destruct (DatabaseEncryption_Encrypt_inr _ _ _ _ _ Hk1 He1)
      as (? & _ & Hl1 & _ & Hd1).
    destruct (DatabaseEncryption_Encrypt_inr _ _ _ _ _ Hk2 He2)
      as (? & _ & Hl2 & _ & Hd2).
    by eapply Hdiff.
  - intros id1 ce1 k2 de2 Hc1 Hc2 He1 He2.
    apply NewConfigEncryption_inr in Hc1 as (_ & _ & Hk1).
    apply NewDatabaseEncryption_inr in Hc2 as [Hs2 Hk2]. rewrite <- Hs2 in Hk2.
    destruct (ConfigEncryption_Encrypt_inr _ _ _ _ _ Hk1 He1)
      as (? & ? & _ & _ & Hl1 & _ & Hd1).
    destruct (DatabaseEncryption_Encrypt_inr _ _ _ _ _ Hk2 He2)
      as (? & _ & Hl2 & _ & Hd2).
    by eapply Hdiff.
Qed.

Lemma Encrypt_distinct_nonces_witness :
  ∃ ce e1 e2,
    NewConfigEncryption (L := sim_crypto) "machine-1" = inr ce ∧
    ConfigEncryption_Encrypt (L := sim_crypto) ce (bytes_of_string "config")
      (bytes_of_string "0123456789ab") = (inr e1, []) ∧
    ConfigEncryption_Encrypt (L := sim_crypto) ce (bytes_of_string "config")
      (bytes_of_string "0123456789ac") = (inr e2, []) ∧
    e1 ≠ e2.
Proof.
  destruct (NewConfigEncryption (L := sim_crypto) "machine-1") as [e | ce] eqn:Hce;
    [discriminate Hce |].
  destruct (ConfigEncryption_Encrypt (L := sim_crypto) ce (bytes_of_string "config")
              (bytes_of_string "0123456789ab")) as [[e | e1] r1] eqn:He1;
    [vm_compute in Hce; injection Hce as <-; vm_compute in He1; discriminate He1 |].
  destruct (ConfigEncryption_Encrypt (L := sim_crypto) ce (bytes_of_string "config")
              (bytes_of_string "0123456789ac")) as [[e | e2] r2] eqn:He2;
    [vm_compute in Hce; injection Hce as <-; vm_compute in He2; discriminate He2 |].
  exists ce, e1, e2. split; [reflexivity |].
  assert (r1 = [] ∧ r2 = []) as [-> ->].
  { vm_compute in Hce. injection Hce as <-.
    vm_compute in He1. vm_compute in He2.
    injection He1 as _ <-. injection He2 as _ <-. done. }
  split; [exact He1 |]. split; [exact He2 |].
  apply (proj1 (Encrypt_distinct_nonces sim_crypto sim_crypto_laws
                  (bytes_of_string "config") (bytes_of_string "config")
                  (bytes_of_string "0123456789ab") (bytes_of_string "0123456789ac")
                  [] [] e1 e2 ltac:(vm_compute; discriminate))
           "machine-1" ce "machine-1" ce Hce Hce He1 He2).
Defined.

(** X4.  [GenerateServerKey] takes the next 32 bytes of the entropy source
    and nothing more, and what it returns is a key the rest of the package
    accepts: [NewDatabaseEncryption] builds a cipher from it, and it comes
    back unchanged from [ServerKeyToBase64] followed by
    [ServerKeyFromBase64].  With 32 bytes of entropy or more it succeeds;
    with fewer it fails with "failed to generate server key" around the
    error of [io.ReadFull]. *)
Theorem GenerateServerKey_usable (rnd : Reader) :
  (∀ key rnd', GenerateServerKey rnd = (inr key, rnd') →
     length key = 32%nat ∧ rnd = key ++ rnd' ∧
     NewDatabaseEncryption key = inr {| serverKey := key |} ∧
     ServerKeyFromBase64 (ServerKeyToBase64 key) = inr key) ∧
  ((32 ≤ length rnd)%nat →
     GenerateServerKey rnd = (inr (take 32 rnd), drop 32 rnd)) ∧
  ((length rnd < 32)%nat →
     GenerateServerKey rnd =
       (inl (fmt_Errorf_w "failed to generate server key: %w"
               (if bool_decide (rnd = []) then io_EOF else io_ErrUnexpectedEOF)), [])).
Proof.
  unfold GenerateServerKey. change (Z.to_nat chacha20KeySize) with 32%nat.
  split; [| split].
  - intros key rnd' Hgen.
    destruct (io_ReadFull rnd 32) as [[err | k] r] eqn:Hread; [done |].
    injection Hgen as -> ->.
    apply io_ReadFull_inr in Hread as [Hlen ->].
    split; [done |]. split; [done |]. split.
    + unfold NewDatabaseEncryption, chacha20KeySize.
      rewrite bool_decide_eq_false_2; [done | lia].
    + unfold ServerKeyFromBase64, ServerKeyToBase64, chacha20KeySize.
      rewrite base64_DecodeString_EncodeToString. simpl.
      rewrite bool_decide_eq_false_2; [done | lia].
  - intros Hlen. by rewrite io_ReadFull_enough.
  - intros Hlen. by rewrite io_ReadFull_short.
Qed.

Lemma GenerateServerKey_usable_witness :
  GenerateServerKey example_entropy36 =
    (inr example_server_key_36, bytes_of_string "wxyz") ∧
  NewDatabaseEncryption example_server_key_36 =
    inr {| serverKey := example_server_key_36 |} ∧
  GenerateServerKey (bytes_of_string "wxyz") =
    (inl (fmt_Errorf_w "failed to generate server key: %w" io_ErrUnexpectedEOF), []).
Proof.
  destruct (GenerateServerKey_usable example_entropy36) as (Hinr & Hok & _).
  destruct (GenerateServerKey_usable (bytes_of_string "wxyz")) as (_ & _ & Hshort).
  specialize (Hok ltac:(vm_compute; lia)).
  specialize (Hshort ltac:(vm_compute; lia)).
  destruct (Hinr _ _ Hok) as (_ & _ & Hnew & _).
  split; [exact Hok |]. split; [exact Hnew | exact Hshort].
Defined.

(** X5.  [NewDatabaseEncryption] accepts a key exactly when it has 32
    bytes.  The error for any other length wraps [ErrInvalidKey], so
    [errors.Is(err, ErrInvalidKey)] holds for it; and every key that
    [ServerKeyFromBase64] returns is one that [NewDatabaseEncryption]
    accepts. *)
Theorem NewDatabaseEncryption_key_size (key : list byte) :
  (length key = 32%nat ↔ NewDatabaseEncryption key = inr {| serverKey := key |}) ∧
  (length key ≠ 32%nat →
     ∃ err, NewDatabaseEncryption key = inl err ∧
            errors_Is err ErrInvalidKey = true ∧
            errors_Is err ErrInvalidCiphertext = false) ∧
  (∀ keyB64, ServerKeyFromBase64 keyB64 = inr key →
     NewDatabaseEncryption key = inr {| serverKey := key |}).
Proof.
  assert (length key = 32%nat ↔
          NewDatabaseEncryption key = inr {| serverKey := key |}) as Hiff.
  { unfold NewDatabaseEncryption, chacha20KeySize. case_bool_decide as Hk.
    - split; [lia | done].
    - split; [done | lia]. }
  split; [exact Hiff |]. split.
  - intros Hlen. unfold NewDatabaseEncryption, chacha20KeySize.
    rewrite bool_decide_eq_true_2 by lia. eexists. split; [done |]. done.
  - intros keyB64. unfold ServerKeyFromBase64, chacha20KeySize.
    destruct (base64_DecodeString keyB64) as [e | k]; [done |]. simpl.
    case_bool_decide as Hk; [done |]. intros [= ->]. apply Hiff. lia.
Qed.

Lemma NewDatabaseEncryption_key_size_witness :
  (∃ err, NewDatabaseEncryption (bytes_of_string "too short") = inl err ∧
          errors_Is err ErrInvalidKey = true) ∧
  NewDatabaseEncryption example_server_key = inr {| serverKey := example_server_key |}.
Proof.
  destruct (NewDatabaseEncryption_key_size (bytes_of_string "too short"))
    as (_ & Hbad & _).
  destruct (Hbad ltac:(vm_compute; lia)) as (err & Herr & His & _).
  destruct (NewDatabaseEncryption_key_size example_server_key) as (_ & _ & Hb64).
  split; [by exists err |].
  apply (Hb64 "MDEyMzQ1Njc4OWFiY2RlZjAxMjM0NTY3ODlhYmNkZWY="). reflexivity.
Defined.

(** X6.  An envelope carries nothing that names its domain.  Handed an
    envelope of the other domain, [Decrypt] passes the base64 and the
    length checks and gets as far as its AEAD: the result is what the
    AEAD's [Open] answers for the text the other AEAD sealed, the error
    wrapped in "failed to decrypt".  Refusing a foreign envelope is left to
    the authentication tag alone. *)
Theorem Decrypt_foreign_envelope (L : CryptoLib) (Laws : CryptoLaws L)
    (machineID : string) (ce : ConfigEncryption) (key : list byte)
    (de : DatabaseEncryption) (plaintext : list byte) (rnd rnd' : Reader)
    (envelope : string) :
  NewConfigEncryption machineID = inr ce → NewDatabaseEncryption key = inr de →
  ∃ block gcm aead,
    aes_NewCipher (ce_key ce) = inr block ∧ cipher_NewGCM block = inr gcm ∧
    chacha20poly1305_New (serverKey de) = inr aead ∧
    (ConfigEncryption_Encrypt ce plaintext rnd = (inr envelope, rnd') →
       DatabaseEncryption_Decrypt de envelope =
         wrap_err "failed to decrypt: %w"
           (Open aead [] (take 12 rnd) (Seal gcm [] (take 12 rnd) plaintext []) [])) ∧
    (DatabaseEncryption_Encrypt de plaintext rnd = (inr envelope, rnd') →
       ConfigEncryption_Decrypt ce envelope =
         wrap_err "failed to decrypt: %w"
           (Open gcm [] (take 12 rnd) (Seal aead [] (take 12 rnd) plaintext []) [])).
Proof.
  intros Hce Hde.
  apply NewConfigEncryption_inr in Hce as (_ & _ & Hck).
  apply NewDatabaseEncryption_inr in Hde as [Hsk Hdk]. rewrite <- Hsk in Hdk.
  destruct (aes_gcm_256 _ Hck) as (block & gcm & Hblock & Hgcm & Hsize & _).
  destruct (chacha20poly1305_256 _ Hdk) as (aead & Haead & Hsize' & _).
  exists block, gcm, aead. split; [done |]. split; [done |]. split; [done |].
  split; intros Henc.
  - destruct (ConfigEncryption_Encrypt_inr _ _ _ _ _ Hck Henc)
      as (block' & gcm' & Hblock' & Hgcm' & Hlen & _ & Hdec).
    rewrite Hblock in Hblock'. injection Hblock' as <-.
    rewrite Hgcm in Hgcm'. injection Hgcm' as <-.
    rewrite (DatabaseEncryption_Decrypt_decoded de _ _ aead Hdec Haead), Hsize'.
    rewrite bool_decide_eq_false_2 by (rewrite length_app, length_take; lia).
    rewrite take_app_length', drop_app_length' by (rewrite length_take; lia).
    done.
  - destruct (DatabaseEncryption_Encrypt_inr _ _ _ _ _ Hdk Henc)
      as (aead' & Haead' & Hlen & _ & Hdec).
    rewrite Haead in Haead'. injection Haead' as <-.
    rewrite (ConfigEncryption_Decrypt_decoded ce _ _ block gcm Hdec Hblock Hgcm), Hsize.
    rewrite bool_decide_eq_false_2 by (rewrite length_app, length_take; lia).
    rewrite take_app_length', drop_app_length' by (rewrite length_take; lia).
    done.
Qed.

Lemma Decrypt_foreign_envelope_witness :
  ∃ ce de envelope,
    NewConfigEncryption (L := sim_crypto) "machine-123" = inr ce ∧
    NewDatabaseEncryption example_server_key = inr de ∧
    ConfigEncryption_Encrypt (L := sim_crypto) ce (bytes_of_string "test data")
      example_entropy = (inr envelope, []) ∧
    (∃ gcm aead,
       DatabaseEncryption_Decrypt (L := sim_crypto) de envelope =
         wrap_err "failed to decrypt: %w"
           (Open aead [] example_entropy
              (Seal gcm [] example_entropy (bytes_of_string "test data") []) [])) ∧
    DatabaseEncryption_Decrypt (L := sim_crypto) de envelope =
      inl (fmt_Errorf_w "failed to decrypt: %w"
             (errors_New "chacha20poly1305: message authentication failed")).
Proof.
  destruct (NewConfigEncryption (L := sim_crypto) "machine-123") as [e | ce] eqn:Hce;
    [discriminate Hce |].
  destruct (NewDatabaseEncryption example_server_key) as [e | de] eqn:Hde;
    [discriminate Hde |].
  destruct (ConfigEncryption_Encrypt (L := sim_crypto) ce (bytes_of_string "test data")
              example_entropy) as [[e | envelope] r] eqn:Henc;
    [vm_compute in Hce; injection Hce as <-; vm_compute in Henc; discriminate Henc |].
  destruct (Decrypt_foreign_envelope sim_crypto sim_crypto_laws "machine-123" ce
              example_server_key de (bytes_of_string "test data") example_entropy r
              envelope Hce Hde)
    as (block & gcm & aead & _ & _ & _ & Hfwd & _).
  specialize (Hfwd Henc).
  exists ce, de, envelope. split; [reflexivity |]. split; [reflexivity |].
  assert (r = []) as ->.
  { vm_compute in Hce. injection Hce as <-. vm_compute in Henc.
    by injection Henc as _ <-. }
  split; [exact Henc |]. split; [exists gcm, aead; exact Hfwd |].
  clear Hfwd.
  vm_compute in Hce. injection Hce as <-.
  vm_compute in Hde. injection Hde as <-.
  vm_compute in Henc. injection Henc as <-.
  vm_compute. reflexivity.
Defined.

(** ** Line breaks in an envelope *)

Lemma newline_outside_alphabet (c : byte) :
  is_newline c = true → enc_decodeMap c = 255 ∧ c ≠ padChar.
Proof.
  unfold is_newline. intros [Hc | Hc]%orb_prop; apply bool_decide_eq_true in Hc;
    subst c; split; try (vm_compute; reflexivity); discriminate.
Qed.

Lemma without_newlines_head (src : list byte) :
  match without_newlines src with
  | [] => True
  | c :: _ => is_newline c = false
  end.
Proof.
  induction src as [| c rest IH]; [done |]. simpl.
  destruct (is_newline c) eqn:Hc; [done | by rewrite Hc].
Qed.

Lemma skip_newlines_clean (src : list byte) (si : nat) :
  match src with [] => True | c :: _ => is_newline c = false end →
  skip_newlines src si = (src, si).
Proof. destruct src as [| c rest]; [done |]. simpl. by intros ->. Qed.

Lemma skip_newlines_without (src : list byte) :
  ∀ si rest1 si1,
    skip_newlines src si = (rest1, si1) →
    without_newlines rest1 = without_newlines src ∧
    match rest1 with [] => True | c :: _ => is_newline c = false end.
Proof.
  induction src as [| c rest IH]; intros si rest1 si1; simpl.
  - by intros [= <- <-].
  - destruct (is_newline c) eqn:Hc.
    + apply IH.
    + intros [= <- <-]. simpl. by rewrite Hc.
Qed.

(** What is left after the padding, with and without line breaks. *)
Lemma skip_newlines_both (rest : list byte) (si si' : nat) :
  ∃ rest1 si1,
    skip_newlines rest si = (rest1, si1) ∧
    skip_newlines (without_newlines rest) si' = (without_newlines rest, si') ∧
    match rest1 with
    | [] => without_newlines rest = []
    | c :: rest2 =>
        is_newline c = false ∧ without_newlines rest = c :: without_newlines rest2
    end.
Proof.
  destruct (skip_newlines rest si) as [rest1 si1] eqn:Hskip.
  exists rest1, si1. split; [done |].
  split; [apply skip_newlines_clean, without_newlines_head |].
  apply skip_newlines_without in Hskip as [<- Hhead].
  destruct rest1 as [| c rest2]; [done |]. simpl. by rewrite Hhead.
Qed.

Lemma base64_decode_from_line_breaks (src : list byte) :
  ∀ si si' dbuf dst bs,
    base64_decode_from src si dbuf dst = inr bs ↔
    base64_decode_from (without_newlines src) si' dbuf dst = inr bs.
Proof.
  induction src as [| c rest IH]; intros si si' dbuf dst bs.
  - simpl. by destruct dbuf.
  - cbn [without_newlines]. destruct (is_newline c) eqn:Hnl.
    + destruct (newline_outside_alphabet c Hnl) as [Hmap Hpad].
      cbn [base64_decode_from]. cbv zeta. rewrite Hmap, Hnl. simpl. apply IH.
    + cbn [base64_decode_from]. cbv zeta. rewrite Hnl.
      destruct (negb (enc_decodeMap c =? 255)).
      { destruct dbuf as [| d0 [| d1 [| d2 [| d3 dbuf]]]]; apply IH. }
      destruct (negb (bool_decide (c = padChar))); [done |].
      destruct dbuf as [| d0 [| d1 [| d2 [| d3 dbuf]]]]; try done.
      * destruct (skip_newlines_both rest (S si) (S si'))
          as (rest1 & si1 & -> & -> & Hrest1).
        destruct rest1 as [| c2 rest2]; [by rewrite Hrest1 |].
        destruct Hrest1 as [_ ->].
        destruct (negb (bool_decide (c2 = padChar))); [done |].
        destruct (skip_newlines_both rest2 (S si1) (S (S si')))
          as (rest3 & si3 & -> & -> & Hrest3).
        destruct rest3 as [| c3 rest4]; [by rewrite Hrest3 |].
        destruct Hrest3 as [_ ->]. done.
      * destruct (skip_newlines_both rest (S si) (S si'))
          as (rest1 & si1 & -> & -> & Hrest1).
        destruct rest1 as [| c2 rest2]; [by rewrite Hrest1 |].
        destruct Hrest1 as [_ ->]. done.
Qed.

Lemma base64_DecodeString_line_breaks (s s' : string) :
  without_newlines (bytes_of_string s) = without_newlines (bytes_of_string s') →
  match base64_DecodeString s, base64_DecodeString s' with
  | inr bs, inr bs' => bs = bs'
  | inl _, inl _ => True
  | _, _ => False
  end.
Proof.
  intros Heq. unfold base64_DecodeString.
  pose proof (base64_decode_from_line_breaks (bytes_of_string s) 0 0 [] []) as H.
  pose proof (base64_decode_from_line_breaks (bytes_of_string s') 0 0 [] []) as H'.
  rewrite Heq in H.
  destruct (base64_decode_from (bytes_of_string s) 0 [] []) as [e | bs];
    destruct (base64_decode_from (bytes_of_string s') 0 [] []) as [e' | bs']; try done.
  - discriminate (proj2 (H bs') (proj1 (H' bs') eq_refl)).
  - discriminate (proj2 (H' bs) (proj1 (H bs) eq_refl)).
  - pose proof (proj2 (H' bs) (proj1 (H bs) eq_refl)) as Hbs. by injection Hbs.
Qed.

(** X7.  Line breaks in an envelope do not matter to [Decrypt]: two texts
    that are equal once every [\n] and [\r] is left out are both refused or
    both accepted, by the config cipher and by the database cipher, and
    when accepted they give the same plaintext.  (An envelope read back
    from a file with a line break added at its end still opens.) *)
Theorem Decrypt_ignores_line_breaks (L : CryptoLib) (ce : ConfigEncryption)
    (de : DatabaseEncryption) (envelope envelope' : string) :
  without_newlines (bytes_of_string envelope) =
    without_newlines (bytes_of_string envelope') →
  (∀ plaintext,
     ConfigEncryption_Decrypt ce envelope = inr plaintext ↔
     ConfigEncryption_Decrypt ce envelope' = inr plaintext) ∧
  (∀ plaintext,
     DatabaseEncryption_Decrypt de envelope = inr plaintext ↔
     DatabaseEncryption_Decrypt de envelope' = inr plaintext).
Proof.
  intros Heq. pose proof (base64_DecodeString_line_breaks _ _ Heq) as Hdec.
  unfold ConfigEncryption_Decrypt, DatabaseEncryption_Decrypt.
  destruct (base64_DecodeString envelope) as [e | bs];
    destruct (base64_DecodeString envelope') as [e' | bs']; try done.
  by subst bs'.
Qed.

Lemma Decrypt_ignores_line_breaks_witness :
  DatabaseEncryption_Decrypt (L := sim_crypto) (encryption example_db_damaged)
    "MDEyMzQ1Njc4OWFiAJYUjB/KMfKzdDX2t3g5+rt8Pf6/gA==" =
    inr (bytes_of_string "value1") ∧
  DatabaseEncryption_Decrypt (L := sim_crypto) (encryption example_db_damaged)
    (string_of_bytes
       (bytes_of_string "MDEyMzQ1Njc4OWFiAJYUjB/K" ++ [newline_CR; newline_LF] ++
        bytes_of_string "MfKzdDX2t3g5+rt8Pf6/gA==" ++ [newline_LF])) =
    inr (bytes_of_string "value1").
Proof.
  assert (DatabaseEncryption_Decrypt (L := sim_crypto) (encryption example_db_damaged)
            "MDEyMzQ1Njc4OWFiAJYUjB/KMfKzdDX2t3g5+rt8Pf6/gA==" =
          inr (bytes_of_string "value1")) as Hplain by (vm_compute; reflexivity).
  split; [exact Hplain |].
  apply (proj2 (Decrypt_ignores_line_breaks sim_crypto
                  {| ce_machineID := "machine-1"; ce_key := [] |}
                  (encryption example_db_damaged)
                  "MDEyMzQ1Njc4OWFiAJYUjB/KMfKzdDX2t3g5+rt8Pf6/gA=="
                  (string_of_bytes
                     (bytes_of_string "MDEyMzQ1Njc4OWFiAJYUjB/K" ++
                      [newline_CR; newline_LF] ++
                      bytes_of_string "MfKzdDX2t3g5+rt8Pf6/gA==" ++ [newline_LF]))
                  ltac:(vm_compute; reflexivity)) (bytes_of_string "value1")).
  exact Hplain.
Defined.

(** * Further properties of the machine identity *)

Lemma HardwareAddr_String_empty (a : list byte) :
  HardwareAddr_String a = "" ↔ a = [].
Proof.
  unfold HardwareAddr_String. destruct a as [| b rest]; [done |].
  rewrite bool_decide_eq_false_2 by done. simpl. split; intros H; discriminate H.
Qed.

Lemma getPrimaryMACAddress_loop_find (interfaces : list net_Interface) :
  getPrimaryMACAddress_loop interfaces =
  match find usable_interface interfaces with
  | Some iface => inr (HardwareAddr_String (HardwareAddr iface))
  | None => inl (fmt_Errorf "no valid network interface found")
  end.
Proof.
  induction interfaces as [| iface rest IH]; [done |].
  cbn [getPrimaryMACAddress_loop find]. unfold usable_interface at 1.
  destruct (Z.land (Flags iface) net_FlagLoopback =? 0); simpl; [| done].
  destruct (Z.land (Flags iface) net_FlagUp =? 0); simpl; [done |].
  case_bool_decide as Hmac; case_bool_decide as Haddr; simpl; try done.
  - apply HardwareAddr_String_empty in Hmac. done.
  - apply HardwareAddr_String_empty in Haddr. done.
Qed.

(** X8.  [getPrimaryMACAddress] returns the address of the first interface
    in the order of [net.Interfaces] that is up, is not the loopback and
    has a hardware address; the string it returns is never empty.  When
    there is no such interface it fails with "no valid network interface
    found", and when [net.Interfaces] fails it passes that error on. *)
Theorem getPrimaryMACAddress_first_usable (h : Host) :
  (∀ interfaces, net_Interfaces h = inr interfaces →
     match find usable_interface interfaces with
     | Some iface =>
         getPrimaryMACAddress h = inr (HardwareAddr_String (HardwareAddr iface)) ∧
         HardwareAddr_String (HardwareAddr iface) ≠ ""
     | None =>
         getPrimaryMACAddress h = inl (fmt_Errorf "no valid network interface found")
     end) ∧
  (∀ err, net_Interfaces h = inl err → getPrimaryMACAddress h = inl err) ∧
  (∀ mac, getPrimaryMACAddress h = inr mac → mac ≠ "").
Proof.
  unfold getPrimaryMACAddress. split; [| split].
  - intros interfaces ->. simpl. rewrite getPrimaryMACAddress_loop_find.
    destruct (find usable_interface interfaces) as [iface |] eqn:Hfind; [| done].
    split; [done |]. apply find_some in Hfind as [_ Huse].
    unfold usable_interface in Huse.
    apply andb_prop in Huse as [_ Haddr]. apply negb_true_iff in Haddr.
    apply bool_decide_eq_false in Haddr.
    by rewrite HardwareAddr_String_empty.
  - by intros err ->.
  - intros mac. destruct (net_Interfaces h) as [e | interfaces]; [done |]. simpl.
    rewrite getPrimaryMACAddress_loop_find.
    destruct (find usable_interface interfaces) as [iface |] eqn:Hfind; [| done].
    intros [= <-]. apply find_some in Hfind as [_ Huse].
    unfold usable_interface in Huse.
    apply andb_prop in Huse as [_ Haddr]. apply negb_true_iff in Haddr.
    apply bool_decide_eq_false in Haddr.
    by rewrite HardwareAddr_String_empty.
Qed.

Lemma getPrimaryMACAddress_first_usable_witness :
  getPrimaryMACAddress example_host = inr "50:4f:53:2d:30:31" ∧
  getPrimaryMACAddress silent_host =
    inl (fmt_Errorf "no valid network interface found").
Proof.
  split.
  - apply (proj1 (getPrimaryMACAddress_first_usable example_host) _ eq_refl).
  - apply (proj1 (getPrimaryMACAddress_first_usable silent_host) _ eq_refl).
Defined.

Section MachineIDExtras.
Context {L : CryptoLib} {Laws : CryptoLaws L} {OS : Type} {P : Platform OS}.

(** The value a call returns does not depend on what was printed before. *)
Lemma GetMachineID_stdout (h : Host) (c : string) (os : OS) (out out' : list printed) :
  (GetMachineID h {| cachedMachineID := c; platform_state := os; stdout := out |}).1 =
  (GetMachineID h {| cachedMachineID := c; platform_state := os; stdout := out' |}).1.
Proof.
  unfold GetMachineID. simpl. case_bool_decide; simpl; [| done].
  destruct (readMachineIDFromRegistry os) as [e | stored];
    [| case_bool_decide; simpl; [| done]];
    (destruct (generateMachineID h os) as [e' | gen]; [done |];
     by destruct (saveMachineIDToRegistry gen os) as [saveErr os']).
Qed.

Lemma GetMachineID_inl (h : Host) (p p' : Process OS) (err : error) :
  GetMachineID h p = (inl err, p') →
  p' = p ∧ cachedMachineID p = "" ∧
  (is_err (readMachineIDFromRegistry (platform_state p)) ∨
   readMachineIDFromRegistry (platform_state p) = inr "") ∧
  ∃ e, generateMachineID h (platform_state p) = inl e ∧
       err = fmt_Errorf_w "failed to generate machine ID: %w" e.
Proof.
  unfold GetMachineID. case_bool_decide as Hc; simpl; [| done].
  destruct (readMachineIDFromRegistry (platform_state p)) as [e | stored] eqn:Hread;
    [| case_bool_decide as Hs; simpl; [| done]];
    (destruct (generateMachineID h (platform_state p)) as [e' | gen] eqn:Hgen;
       [| by destruct (saveMachineIDToRegistry gen (platform_state p))];
     intros [= <- <-]; repeat split; try done; eauto).
  - by left.
  - right. by rewrite Hs.
Qed.

End MachineIDExtras.

(** X9.  [generateMachineID] needs one source of data and no more: it
    fails, with "could not collect any machine-specific data", exactly when
    the platform gives nothing (an error or an empty list), no interface
    has a usable address and the host name cannot be read.  Whenever it
    succeeds the result is a string of 64 lower-case hex digits. *)
Theorem generateMachineID_needs_one_source (L : CryptoLib) (Laws : CryptoLaws L)
    (OS : Type) (P : Platform OS) (h : Host) (os : OS) :
  (is_err (generateMachineID h os) ↔
     (is_err (platformSpecificID os) ∨ platformSpecificID os = inr []) ∧
     is_err (getPrimaryMACAddress h) ∧ is_err (os_Hostname h)) ∧
  (∀ err, generateMachineID h os = inl err →
     err = fmt_Errorf "could not collect any machine-specific data") ∧
  (∀ id, generateMachineID h os = inr id → well_formed_fingerprint id).
Proof.
  split; [| split].
  - unfold generateMachineID. cbv zeta.
    destruct (platformSpecificID os) as [e1 | [| d pd]];
      destruct (getPrimaryMACAddress h) as [e2 | mac];
      destruct (os_Hostname h) as [e3 | hostname];
      simpl; rewrite ?length_app; simpl;
      try case_bool_decide; simpl;
      intuition (try done; try discriminate; try lia).
  - intros err. unfold generateMachineID. cbv zeta.
    case_bool_decide; [by intros [= <-] | done].
  - intros id. apply generateMachineID_well_formed.
Qed.

Lemma generateMachineID_needs_one_source_witness :
  generateMachineID (L := sim_crypto) silent_host fresh_registry =
    inl (fmt_Errorf "could not collect any machine-specific data") ∧
  ∃ id, generateMachineID (L := sim_crypto) example_host fresh_registry = inr id ∧
        well_formed_fingerprint id.
Proof.
  destruct (generateMachineID_needs_one_source sim_crypto sim_crypto_laws Registry
              windows_platform silent_host fresh_registry) as (Hiff & Herr & _).
  destruct (generateMachineID_needs_one_source sim_crypto sim_crypto_laws Registry
              windows_platform example_host fresh_registry) as (_ & _ & Hwf).
  split.
  - destruct (generateMachineID (L := sim_crypto) silent_host fresh_registry)
      as [e | id] eqn:Hgen.
    + by rewrite (Herr e eq_refl).
    + exfalso. apply (proj2 Hiff). repeat split; vm_compute; auto.
  - destruct (generateMachineID (L := sim_crypto) example_host fresh_registry)
      as [e | id] eqn:Hgen; [discriminate Hgen |].
    exists id. split; [reflexivity | exact (Hwf id eq_refl)].
Defined.

(** X10.  A failed [GetMachineID] leaves no trace.  It fails only on an
    empty cache, with nothing usable in the persisted store and
    [generateMachineID] failing; its error is that of [generateMachineID]
    wrapped in "failed to generate machine ID"; and the process is exactly
    as before: nothing cached, nothing saved, nothing printed, so a later
    call starts over. *)
Theorem GetMachineID_failure_leaves_no_trace (L : CryptoLib) (OS : Type)
    (P : Platform OS) (h : Host) (p p' : Process OS) (err : error) :
  GetMachineID h p = (inl err, p') →
  p' = p ∧ cachedMachineID p = "" ∧
  (is_err (readMachineIDFromRegistry (platform_state p)) ∨
   readMachineIDFromRegistry (platform_state p) = inr "") ∧
  generateMachineID h (platform_state p) =
    inl (fmt_Errorf "could not collect any machine-specific data") ∧
  err = fmt_Errorf_w "failed to generate machine ID: %w"
          (fmt_Errorf "could not collect any machine-specific data").
Proof.
  intros Hget. apply GetMachineID_inl in Hget as (-> & Hc & Hread & e & Hgen & ->).
  assert (e = fmt_Errorf "could not collect any machine-specific data") as ->.
  { revert Hgen. unfold generateMachineID. cbv zeta.
    case_bool_decide; [by intros [= <-] | done]. }
  done.
Qed.

Lemma GetMachineID_failure_leaves_no_trace_witness :
  GetMachineID (L := sim_crypto) silent_host (start_process fresh_registry) =
    (inl (fmt_Errorf_w "failed to generate machine ID: %w"
            (fmt_Errorf "could not collect any machine-specific data")),
     start_process fresh_registry).
Proof.
  destruct (GetMachineID (L := sim_crypto) silent_host (start_process fresh_registry))
    as [[err | id] p'] eqn:Hget; [| discriminate Hget].
  destruct (GetMachineID_failure_leaves_no_trace sim_crypto Registry windows_platform
              silent_host (start_process fresh_registry) p' err Hget)
    as (-> & _ & _ & _ & ->).
  reflexivity.
Defined.

(** X11.  Once a call has succeeded, the process keeps its machine id:
    every later call returns the same string and changes nothing, whatever
    has happened in between to the network interfaces, the host name and
    the persisted store, which are not consulted again. *)
Theorem GetMachineID_sticky (L : CryptoLib) (Laws : CryptoLaws L) (OS : Type)
    (P : Platform OS) (h : Host) (p p' : Process OS) (id : string) :
  GetMachineID h p = (inr id, p') →
  ∀ (h' : Host) (os' : OS) (out' : list printed),
    let later :=
      {| cachedMachineID := cachedMachineID p'; platform_state := os';
         stdout := out' |} in
    GetMachineID h' later = (inr id, later).
Proof.
  intros Hget h' os' out' later.
  pose proof (GetMachineID_nonempty h p p' id Hget) as Hne.
  apply GetMachineID_inr in Hget as [Hcache _].
  rewrite <- Hcache at 1.
  apply (GetMachineID_cached h' later). simpl. by rewrite Hcache.
Qed.

Lemma GetMachineID_sticky_witness :
  ∃ id p',
    GetMachineID (L := sim_crypto) example_host (start_process fresh_registry) =
      (inr id, p') ∧
    GetMachineID (L := sim_crypto) silent_host
      {| cachedMachineID := cachedMachineID p'; platform_state := readonly_registry;
         stdout := [] |} =
      (inr id,
       {| cachedMachineID := cachedMachineID p'; platform_state := readonly_registry;
          stdout := [] |}).
Proof.
  destruct (GetMachineID (L := sim_crypto) example_host (start_process fresh_registry))
    as [[e | id] p'] eqn:Hget; [discriminate Hget |].
  exists id, p'. split; [reflexivity |].
  apply (GetMachineID_sticky sim_crypto sim_crypto_laws Registry windows_platform
           example_host (start_process fresh_registry) p' id Hget
           silent_host readonly_registry []).
Defined.

(** What the first call of a process leaves in a writable registry. *)
Lemma GetMachineID_windows_persists (L : CryptoLib) (h : Host)
    (p p' : Process Registry) (id : string) :
  reg_writable (platform_state p) = true → cachedMachineID p = "" →
  GetMachineID h p = (inr id, p') →
  windows_readMachineIDFromRegistry (platform_state p') = inr id.
Proof.
  intros Hw Hc. unfold GetMachineID. rewrite Hc. simpl.
  destruct (windows_readMachineIDFromRegistry (platform_state p))
    as [e | stored] eqn:Hr;
    [| case_bool_decide as Hs; simpl; [| by intros [= <- <-]]];
    (destruct (generateMachineID h (platform_state p)) as [e' | gen]; [done |];
     destruct (windows_save_then_read gen (platform_state p) Hw)
       as (r' & -> & Hread');
     by intros [= <- <-]).
Qed.

(** X12.  On Windows with a writable registry, the id of a process's first
    successful call is in the registry afterwards, under
    [SOFTWARE\POSService], value [MachineID]; and a process started later
    on that registry resolves the same id from there, even if the network
    interfaces and the host name have changed in the meantime, without
    printing or writing anything. *)
Theorem GetMachineID_windows_restart_any_host (L : CryptoLib) (Laws : CryptoLaws L)
    (h : Host) (p p' : Process Registry) (id : string) :
  reg_writable (platform_state p) = true → cachedMachineID p = "" →
  GetMachineID h p = (inr id, p') →
  windows_readMachineIDFromRegistry (platform_state p') = inr id ∧
  ∀ h' : Host,
    GetMachineID h' (restart p') =
      (inr id,
       {| cachedMachineID := id; platform_state := platform_state p';
          stdout := stdout p' |}).
Proof.
  intros Hw Hc Hget.
  pose proof (GetMachineID_nonempty h p p' id Hget) as Hne.
  pose proof (GetMachineID_windows_persists L h p p' id Hw Hc Hget) as Hread.
  split; [done |]. intros h'.
  unfold GetMachineID, restart. simpl. rewrite Hread. simpl.
  by rewrite bool_decide_eq_false_2.
Qed.

Lemma GetMachineID_windows_restart_any_host_witness :
  ∃ id p',
    GetMachineID (L := sim_crypto) example_host (start_process fresh_registry) =
      (inr id, p') ∧
    GetMachineID (L := sim_crypto) silent_host (restart p') =
      (inr id,
       {| cachedMachineID := id; platform_state := platform_state p';
          stdout := stdout p' |}).
Proof.
  destruct (GetMachineID (L := sim_crypto) example_host (start_process fresh_registry))
    as [[e | id] p'] eqn:Hget; [discriminate Hget |].
  exists id, p'. split; [reflexivity |].
  apply (proj2 (GetMachineID_windows_restart_any_host sim_crypto sim_crypto_laws
                  example_host (start_process fresh_registry) p' id
                  eq_refl eq_refl Hget) silent_host).
Defined.

(** X13.  On Windows with a registry the process may not write, a first
    call that has to generate the id still succeeds: the failure to save is
    reported as a warning on standard output and nothing else, and the
    registry is unchanged.  Nothing being persisted, a process started
    later generates the id again, and arrives at the same string as long as
    the host answers as before. *)
Theorem GetMachineID_windows_readonly (L : CryptoLib) (h : Host)
    (p p' : Process Registry) (id : string) :
  reg_writable (platform_state p) = false → cachedMachineID p = "" →
  GetMachineID h p = (inr id, p') →
  platform_state p' = platform_state p ∧ cachedMachineID p' = id ∧
  ((windows_readMachineIDFromRegistry (platform_state p) = inr id ∧
    stdout p' = stdout p) ∨
   (generateMachineID h (platform_state p) = inr id ∧
    stdout p' =
      stdout p ++ [fmt_Printf_v ("Warning: failed to save machine ID: %v" +:+ LF)
                     registry_ERROR_ACCESS_DENIED])) ∧
  (GetMachineID h (restart p')).1 = inr id.
Proof.
  intros Hw Hc Hget.
  assert (platform_state p' = platform_state p ∧ cachedMachineID p' = id ∧
          ((windows_readMachineIDFromRegistry (platform_state p) = inr id ∧
            stdout p' = stdout p) ∨
           (generateMachineID h (platform_state p) = inr id ∧
            stdout p' =
              stdout p ++ [fmt_Printf_v ("Warning: failed to save machine ID: %v" +:+ LF)
                             registry_ERROR_ACCESS_DENIED]))) as (Hos & Hcache & Hsrc).
  { revert Hget. unfold GetMachineID. rewrite Hc. simpl.
    unfold windows_saveMachineIDToRegistry, registry_CreateKey_SetStringValue.
    rewrite Hw. simpl.
    destruct (windows_readMachineIDFromRegistry (platform_state p))
      as [e | stored] eqn:Hr;
      [| case_bool_decide as Hs; simpl; [| intros [= <- <-]; simpl; auto]];
      (destruct (generateMachineID h (platform_state p)) as [e' | gen]; [done |];
       intros [= <- <-]; simpl; auto). }
  split; [done |]. split; [done |]. split; [done |].
  unfold restart. rewrite Hos.
  rewrite (GetMachineID_stdout h "" (platform_state p) (stdout p') (stdout p)).
  replace {| cachedMachineID := ""; platform_state := platform_state p;
             stdout := stdout p |} with p by (destruct p; simpl in *; by subst).
  by rewrite Hget.
Qed.

Lemma GetMachineID_windows_readonly_witness :
  ∃ id p',
    GetMachineID (L := sim_crypto) example_host (start_process readonly_registry) =
      (inr id, p') ∧
    platform_state p' = readonly_registry ∧
    stdout p' =
      [fmt_Printf_v ("Warning: failed to save machine ID: %v" +:+ LF)
         registry_ERROR_ACCESS_DENIED] ∧
    (GetMachineID (L := sim_crypto) example_host (restart p')).1 = inr id.
Proof.
  destruct (GetMachineID (L := sim_crypto) example_host (start_process readonly_registry))
    as [[e | id] p'] eqn:Hget; [discriminate Hget |].
  destruct (GetMachineID_windows_readonly sim_crypto example_host
              (start_process readonly_registry) p' id eq_refl eq_refl Hget)
    as (Hos & _ & Hsrc & Hagain).
  exists id, p'. split; [reflexivity |]. split; [exact Hos |].
  split; [| exact Hagain].
  destruct Hsrc as [[Hread _] | [_ Hout]]; [discriminate Hread | exact Hout].
Defined.

(** * Further properties of the settings store *)

(** The rows of the other keys, and what a lookup of another key sees. *)
Lemma find_has_key_other_rows (key key' : string) (tbl : list Row) :
  key' ≠ key →
  find (has_key key') (filter (λ r, row_key r ≠ key) tbl) = find (has_key key') tbl.
Proof.
  intros Hne. induction tbl as [| r tbl IH]; [done |].
  destruct (decide (row_key r ≠ key)) as [Hr | Hr].
  - rewrite filter_cons_True by done. simpl. by rewrite IH.
  - rewrite filter_cons_False by done. simpl. rewrite IH. unfold has_key.
    rewrite bool_decide_eq_false_2; [done |].
    apply dec_stable in Hr. congruence.
Qed.

Lemma select_value_other_rows (key key' : string) (tbl tbl' : list Row) :
  key' ≠ key →
  filter (λ r, row_key r ≠ key) tbl' = filter (λ r, row_key r ≠ key) tbl →
  select_value key' tbl' = select_value key' tbl ∧
  existsb (has_key key') tbl' = existsb (has_key key') tbl.
Proof.
  intros Hne Hrows.
  assert (find (has_key key') tbl' = find (has_key key') tbl) as Hfind.
  { rewrite <- (find_has_key_other_rows key key' tbl'),
            <- (find_has_key_other_rows key key' tbl) by done.
    by rewrite Hrows. }
  split; [unfold select_value; by rewrite Hfind |].
  destruct (existsb (has_key key') tbl) eqn:Hex.
  - apply existsb_has_key in Hex. apply existsb_has_key.
    destruct (find_has_key_Some key' tbl Hex) as (r & Hr & Hk).
    rewrite <- Hfind in Hr. apply find_some in Hr as [Hin _].
    apply list_elem_of_fmap. exists r. split; [done |]. by apply list_elem_of_In.
  - apply existsb_has_key_false in Hex. apply existsb_has_key_false.
    intros Hin. destruct (find_has_key_Some key' tbl' Hin) as (r & Hr & Hk).
    rewrite Hfind, find_has_key_None in Hr by done. done.
Qed.

Lemma exec_stmt_other_rows (stmt : Stmt) (key : string) (tbl tbl' : list Row) (n : Z) :
  (∃ value now, stmt = UpsertSetting key value now) ∨ stmt = DeleteSettingWhere key →
  exec_stmt stmt tbl = inr (tbl', n) →
  filter (λ r, row_key r ≠ key) tbl' = filter (λ r, row_key r ≠ key) tbl.
Proof.
  intros [(value & now & ->) | ->]; simpl.
  - destruct (existsb (has_key key) tbl); intros [= <- <-].
    + induction tbl as [| r tbl IH]; [done |]. simpl. unfold has_key at 1.
      case_bool_decide as Hk.
      * rewrite !filter_cons_False by (simpl; intros Hne; by apply Hne). done.
      * rewrite !filter_cons_True by done. by rewrite IH.
    + rewrite filter_app, filter_cons_False by (simpl; intros Hne; by apply Hne).
      by rewrite filter_nil, app_nil_r.
  - intros [= <- <-]. induction tbl as [| r tbl IH]; [done |].
    destruct (decide (row_key r ≠ key)) as [Hr | Hr].
    + rewrite !filter_cons_True by done. by rewrite IH.
    + rewrite !filter_cons_False by done. apply IH.
Qed.

Lemma sql_DB_Exec_closed_flag (c c' : sql_DB) (stmt : Stmt) (r : result Z) :
  sql_DB_Exec c stmt = (r, c') → db_closed c' = db_closed c.
Proof.
  unfold sql_DB_Exec. destruct (db_closed c) eqn:Hc; [by intros [= <- <-] |].
  destruct (exec_stmt stmt (db_settings c)) as [e | [tbl n]]; by intros [= <- <-].
Qed.

Lemma sql_DB_Exec_other_rows (c c' : sql_DB) (stmt : Stmt) (key : string) (r : result Z) :
  (∃ value now, stmt = UpsertSetting key value now) ∨ stmt = DeleteSettingWhere key →
  sql_DB_Exec c stmt = (r, c') →
  filter (λ r, row_key r ≠ key) (db_settings c') =
  filter (λ r, row_key r ≠ key) (db_settings c).
Proof.
  intros Hstmt. unfold sql_DB_Exec. destruct (db_closed c); [by intros [= <- <-] |].
  destruct (exec_stmt stmt (db_settings c)) as [e | [tbl n]] eqn:Hexec;
    intros [= <- <-]; [done |].
  simpl. by apply (exec_stmt_other_rows stmt key _ _ n).
Qed.

Section StoreExtras.
Context {L : CryptoLib}.

(** What the reads of a store depend on. *)
Lemma DB_reads_other_rows (db db' : DB) (key key' : string) :
  key' ≠ key →
  encryption db' = encryption db →
  db_closed (conn db') = db_closed (conn db) →
  filter (λ r, row_key r ≠ key) (db_settings (conn db')) =
    filter (λ r, row_key r ≠ key) (db_settings (conn db)) →
  DB_GetSetting db' key' = DB_GetSetting db key' ∧
  DB_SettingExists db' key' = DB_SettingExists db key'.
Proof.
  intros Hne Henc Hclosed Hrows.
  destruct (select_value_other_rows key key' _ _ Hne Hrows) as [Hsel Hex].
  unfold DB_GetSetting, DB_SettingExists, sql_DB_QueryRow_value, sql_DB_QueryRow_exists.
  by rewrite Henc, Hclosed, Hsel, Hex.
Qed.

Lemma DB_SetSetting_inv (db db' : DB) key value now rnd r rnd' :
  DB_SetSetting db key value now rnd = (r, db', rnd') →
  encryption db' = encryption db ∧ dbPath db' = dbPath db ∧
  ((db' = db ∧ ∃ err, r = Some (fmt_Errorf_w "failed to encrypt setting value: %w" err)) ∨
   ∃ envelope res,
     DatabaseEncryption_Encrypt (encryption db) (bytes_of_string value) rnd =
       (inr envelope, rnd') ∧
     sql_DB_Exec (conn db) (UpsertSetting key envelope now) = (res, conn db')).
Proof.
  unfold DB_SetSetting.
  destruct (DatabaseEncryption_Encrypt (encryption db) (bytes_of_string value) rnd)
    as [[err | envelope] rnd''] eqn:Henc.
  - intros [= <- <- <-]. split; [done |]. split; [done |]. left. eauto.
  - destruct (sql_DB_Exec (conn db) (UpsertSetting key envelope now))
      as [[err | n] c'] eqn:Hexec; intros [= <- <- <-];
      (split; [done |]; split; [done |]; right; eauto).
Qed.

Lemma DB_DeleteSetting_inv (db db' : DB) key r :
  DB_DeleteSetting db key = (r, db') →
  encryption db' = encryption db ∧ dbPath db' = dbPath db ∧
  ∃ res, sql_DB_Exec (conn db) (DeleteSettingWhere key) = (res, conn db').
Proof.
  unfold DB_DeleteSetting.
  destruct (sql_DB_Exec (conn db) (DeleteSettingWhere key)) as [[err | n] c'] eqn:Hexec.
  - intros [= <- <-]. eauto.
  - destruct (n =? 0); intros [= <- <-]; eauto.
Qed.

End StoreExtras.

(** X14.  A write touches one key.  Whatever [SetSetting] or
    [DeleteSetting] on a key returns, the rows of all other keys are
    afterwards what they were (value and both timestamps, in the same
    order), and so [GetSetting] and [SettingExists] answer for every other
    key as they did before the write. *)
Theorem writes_touch_one_key (L : CryptoLib) (db : DB) (key : string) :
  (∀ value now rnd r db' rnd',
     DB_SetSetting db key value now rnd = (r, db', rnd') →
     filter (λ r, row_key r ≠ key) (db_settings (conn db')) =
       filter (λ r, row_key r ≠ key) (db_settings (conn db)) ∧
     ∀ key', key' ≠ key →
       DB_GetSetting db' key' = DB_GetSetting db key' ∧
       DB_SettingExists db' key' = DB_SettingExists db key') ∧
  (∀ r db',
     DB_DeleteSetting db key = (r, db') →
     filter (λ r, row_key r ≠ key) (db_settings (conn db')) =
       filter (λ r, row_key r ≠ key) (db_settings (conn db)) ∧
     ∀ key', key' ≠ key →
       DB_GetSetting db' key' = DB_GetSetting db key' ∧
       DB_SettingExists db' key' = DB_SettingExists db key').
Proof.
  split.
  - intros value now rnd r db' rnd' Hset.
    apply DB_SetSetting_inv in Hset as (Henc & _ & [[-> _] | (envelope & res & _ & Hexec)]).
    + split; [done |]. by intros key' _.
    + pose proof (sql_DB_Exec_closed_flag _ _ _ _ Hexec) as Hclosed.
      apply (sql_DB_Exec_other_rows _ _ _ key) in Hexec; [| left; eauto].
      split; [done |]. intros key' Hne. by apply (DB_reads_other_rows db db' key key').
  - intros r db' Hdel.
    apply DB_DeleteSetting_inv in Hdel as (Henc & _ & res & Hexec).
    pose proof (sql_DB_Exec_closed_flag _ _ _ _ Hexec) as Hclosed.
    apply (sql_DB_Exec_other_rows _ _ _ key) in Hexec; [| by right].
    split; [done |]. intros key' Hne. by apply (DB_reads_other_rows db db' key key').
Qed.

Lemma writes_touch_one_key_witness :
  ∃ db1 db2,
    DB_SetSetting (L := sim_crypto) example_db_damaged "key2" "value2" 200
      example_entropy = (None, db1, []) ∧
    DB_GetSetting (L := sim_crypto) db1 "key1" =
      DB_GetSetting (L := sim_crypto) example_db_damaged "key1" ∧
    DB_DeleteSetting db1 "key2" = (None, db2) ∧
    DB_GetSetting (L := sim_crypto) db2 "key1" = DB_GetSetting (L := sim_crypto) db1 "key1".
Proof.
  destruct (DB_SetSetting (L := sim_crypto) example_db_damaged "key2" "value2" 200
              example_entropy) as [[r db1] rnd'] eqn:Hset.
  destruct (DB_DeleteSetting db1 "key2") as [r' db2] eqn:Hdel.
  destruct (proj1 (writes_touch_one_key sim_crypto example_db_damaged "key2")
              _ _ _ _ _ _ Hset) as [_ Hreads1].
  destruct (proj2 (writes_touch_one_key sim_crypto db1 "key2") _ _ Hdel)
    as [_ Hreads2].
  exists db1, db2.
  assert (r = None ∧ rnd' = []) as [-> ->].
  { vm_compute in Hset. by injection Hset as <- _ <-. }
  assert (r' = None) as ->.
  { vm_compute in Hset. injection Hset as <-. vm_compute in Hdel.
    by injection Hdel as <- _. }
  split; [reflexivity |].
  split; [apply Hreads1; discriminate |].
  split; [exact Hdel |]. apply Hreads2. discriminate.
Defined.

(** X15.  On an open store [SettingExists] tells whether the table has a
    row for the key, and agrees with the other operations: it answers
    [false] exactly when [GetSetting] fails with "setting not found", and
    exactly when [DeleteSetting] fails with "setting not found"; and every
    key of the map [GetAllSettings] returns is one for which it answers
    [true]. *)
Theorem SettingExists_agrees (L : CryptoLib) (db : DB) (key : string) :
  db_closed (conn db) = false →
  DB_SettingExists db key =
    inr (bool_decide (key ∈ map row_key (db_settings (conn db)))) ∧
  (DB_SettingExists db key = inr false ↔
     DB_GetSetting db key = inl (fmt_Errorf_s "setting not found: %s" key)) ∧
  (DB_SettingExists db key = inr false ↔
     (DB_DeleteSetting db key).1 = Some (fmt_Errorf_s "setting not found: %s" key)) ∧
  (∀ settings, (DB_GetAllSettings db).1 = inr settings →
     is_Some (settings !! key) → DB_SettingExists db key = inr true).
Proof.
  intros Hopen.
  assert (DB_SettingExists db key =
            inr (bool_decide (key ∈ map row_key (db_settings (conn db))))) as Hex.
  { unfold DB_SettingExists, sql_DB_QueryRow_exists. rewrite Hopen. simpl. f_equal.
    case_bool_decide as Hin.
    - by apply existsb_has_key.
    - by apply existsb_has_key_false. }
  rewrite Hex. split; [done |]. split; [| split].
  - split.
    + intros [= Hin]. apply bool_decide_eq_false in Hin.
      by apply DB_GetSetting_absent.
    + intros Hget. f_equal. apply bool_decide_eq_false_2. intros Hin.
      destruct (find_has_key_Some key _ Hin) as (r & Hfind & _).
      revert Hget. unfold DB_GetSetting, sql_DB_QueryRow_value, select_value.
      rewrite Hopen, Hfind.
      by destruct (DatabaseEncryption_Decrypt (encryption db) (row_value r)).
  - rewrite (DB_DeleteSetting_open db key Hopen). cbv zeta.
    case_bool_decide as Hin; simpl; split; done.
  - intros settings Hall [v Hv]. f_equal. apply bool_decide_eq_true_2.
    revert Hall. unfold DB_GetAllSettings, sql_DB_Query_all. rewrite Hopen.
    destruct (fold_left (GetAllSettings_row db)
                (map (λ r, (row_key r, row_value r)) (db_settings (conn db))) (∅, []))
      as [settings' out] eqn:Hfold.
    simpl. intros [= <-].
    destruct (GetAllSettings_fold_dom db
                (map (λ r, (row_key r, row_value r)) (db_settings (conn db)))
                (∅, []) key) as [Hempty | Hin].
    + rewrite Hfold. simpl. by rewrite Hv.
    + simpl in Hempty. rewrite lookup_empty in Hempty. by destruct Hempty.
    + by rewrite map_map in Hin.
Qed.

Lemma SettingExists_agrees_witness :
  DB_SettingExists example_db_damaged "key1" = inr true ∧
  DB_SettingExists example_db_damaged "key3" = inr false ∧
  DB_GetSetting (L := sim_crypto) example_db_damaged "key3" =
    inl (fmt_Errorf_s "setting not found: %s" "key3").
Proof.
  destruct (SettingExists_agrees sim_crypto example_db_damaged "key1" eq_refl)
    as (Hex1 & _).
  destruct (SettingExists_agrees sim_crypto example_db_damaged "key3" eq_refl)
    as (Hex3 & Hget3 & _).
  split; [exact Hex1 |]. split; [exact Hex3 |].
  apply (proj1 Hget3). exact Hex3.
Defined.

(** X16.  After [Close] the store refuses every operation, with the error
    of a closed connection ("sql: database is closed") inside each
    operation's own message, and [Ping] reports the same error; the stored
    table is not touched by [Close] or by any refused operation, and
    closing once more is accepted. *)
Theorem closed_store_refuses (L : CryptoLib) (db : DB) :
  let db' := (DB_Close db).2 in
  (DB_Close db).1 = None ∧
  db_settings (conn db') = db_settings (conn db) ∧
  DB_Close db' = (None, db') ∧
  DB_Ping db' = Some sql_errDBClosed ∧
  (∀ key, DB_GetSetting db' key =
            inl (fmt_Errorf_w "failed to query setting: %w" sql_errDBClosed)) ∧
  (∀ key value now rnd,
     ∃ err rnd', DB_SetSetting db' key value now rnd = (Some err, db', rnd') ∧
                 ∀ envelope,
                   DatabaseEncryption_Encrypt (encryption db) (bytes_of_string value) rnd =
                     (inr envelope, rnd') →
                   err = fmt_Errorf_w "failed to set setting: %w" sql_errDBClosed) ∧
  (∀ key, DB_DeleteSetting db' key =
            (Some (fmt_Errorf_w "failed to delete setting: %w" sql_errDBClosed), db')) ∧
  DB_GetAllSettings db' =
    (inl (fmt_Errorf_w "failed to query settings: %w" sql_errDBClosed), []) ∧
  (∀ key, DB_SettingExists db' key =
            inl (fmt_Errorf_w "failed to check setting existence: %w" sql_errDBClosed)) ∧
  (∀ fn, DB_Transaction db' fn =
           (Returned (Some (fmt_Errorf_w "failed to begin transaction: %w"
                              sql_errDBClosed)), db')).
Proof.
  destruct db as [[closed tbl] enc path]. cbv zeta. simpl.
  repeat split; try done.
  intros key value now rnd. unfold DB_SetSetting. simpl.
  destruct (DatabaseEncryption_Encrypt enc (bytes_of_string value) rnd)
    as [[err | envelope] rnd'] eqn:Henc; simpl.
  - eexists _, _. split; [done |]. intros envelope [=].
  - eexists _, _. split; [done |]. done.
Qed.

(** X17.  A write that reports an error has changed nothing: when
    [SetSetting] or [DeleteSetting] returns an error, the store afterwards
    is the store before (table, timestamps and all), whether the cause was
    the encryption, a closed connection or a missing key. *)
Theorem failed_write_leaves_store (L : CryptoLib) (db : DB) (key : string) :
  (∀ value now rnd err db' rnd',
     DB_SetSetting db key value now rnd = (Some err, db', rnd') → db' = db) ∧
  (∀ err db', DB_DeleteSetting db key = (Some err, db') → db' = db).
Proof.
  split.
  - intros value now rnd err db' rnd'. unfold DB_SetSetting, sql_DB_Exec.
    destruct (DatabaseEncryption_Encrypt (encryption db) (bytes_of_string value) rnd)
      as [[e | envelope] rnd'']; [by intros [= _ <- _] |].
    destruct (db_closed (conn db)) eqn:Hclosed.
    + intros [= _ <- _]. apply with_conn_conn.
    + destruct (exec_upsert key envelope now (db_settings (conn db)))
        as (tbl' & -> & _). done.
  - intros err db'. unfold DB_DeleteSetting, sql_DB_Exec.
    destruct (db_closed (conn db)) eqn:Hclosed.
    + intros [= _ <-]. apply with_conn_conn.
    + simpl.
      destruct (filter (λ r, row_key r = key) (db_settings (conn db)))
        as [| r0 rest] eqn:Hfilter; simpl; [| done].
      intros [= _ <-].
      assert (key ∉ map row_key (db_settings (conn db))) as Hnotin.
      { intros (r & Hk & Hin)%list_elem_of_fmap.
        assert (r ∈ filter (λ r, row_key r = key) (db_settings (conn db))) as Hr
          by (by apply list_elem_of_filter).
        rewrite Hfilter in Hr. by apply elem_of_nil in Hr. }
      rewrite filter_other_keys_absent by done.
      destruct db as [[closed tbl] enc path]. simpl in *. by subst.
Qed.

Lemma failed_write_leaves_store_witness :
  DB_DeleteSetting example_db_damaged "key3" =
    (Some (fmt_Errorf_s "setting not found: %s" "key3"), example_db_damaged) ∧
  ∃ err,
    DB_SetSetting (L := sim_crypto) example_db_damaged "key1" "value" 200
      (bytes_of_string "0123") = (Some err, example_db_damaged, []).
Proof.
  destruct (DB_DeleteSetting example_db_damaged "key3") as [r db'] eqn:Hdel.
  destruct (DB_SetSetting (L := sim_crypto) example_db_damaged "key1" "value" 200
              (bytes_of_string "0123")) as [[r' db''] rnd'] eqn:Hset.
  assert (r = Some (fmt_Errorf_s "setting not found: %s" "key3")) as ->.
  { vm_compute in Hdel. by injection Hdel as <- _. }
  assert (∃ err, r' = Some err ∧ rnd' = []) as (err & -> & ->).
  { vm_compute in Hset. injection Hset as <- _ <-. eauto. }
  rewrite (proj2 (failed_write_leaves_store sim_crypto example_db_damaged "key3")
             _ _ Hdel).
  rewrite (proj1 (failed_write_leaves_store sim_crypto example_db_damaged "key1")
             _ _ _ _ _ _ Hset).
  split; [reflexivity |]. by exists err.
Defined.

(** X18.  The primary key holds throughout: starting from a table with at
    most one row per key, every operation that can change the table
    ([SetSetting], [DeleteSetting], [Transaction] with any function, and
    [Close]) leaves a table with at most one row per key, whatever the
    operation returns. *)
Theorem settings_keys_stay_unique (L : CryptoLib) (db : DB) :
  unique_keys (db_settings (conn db)) →
  (∀ key value now rnd r db' rnd',
     DB_SetSetting db key value now rnd = (r, db', rnd') →
     unique_keys (db_settings (conn db'))) ∧
  (∀ key r db', DB_DeleteSetting db key = (r, db') →
     unique_keys (db_settings (conn db'))) ∧
  (∀ fn o db', DB_Transaction db fn = (o, db') →
     unique_keys (db_settings (conn db'))) ∧
  unique_keys (db_settings (conn (DB_Close db).2)).
Proof.
  intros Huniq. repeat split.
  - intros key value now rnd r db' rnd' Hset.
    by apply (DB_SetSetting_unique_keys L db key value now rnd r db' rnd').
  - intros key r db' Hdel. by apply (DB_DeleteSetting_unique_keys db key r db').
  - intros fn o db' Htx. by apply (DB_Transaction_unique_keys db fn o db').
  - done.
Qed.

Lemma settings_keys_stay_unique_witness :
  ∃ db',
    DB_Transaction example_db_damaged
      (exec_all [InsertSetting "key3" "v3" 300; InsertSetting "key1" "v1" 301]) =
      (Returned (Some sqlite_constraint_PRIMARYKEY), db') ∧
    unique_keys (db_settings (conn db')).
Proof.
  destruct (DB_Transaction example_db_damaged
              (exec_all [InsertSetting "key3" "v3" 300; InsertSetting "key1" "v1" 301]))
    as [o db'] eqn:Htx.
  exists db'. split.
  - vm_compute in Htx. injection Htx as <- _. reflexivity.
  - apply (proj1 (proj2 (proj2 (settings_keys_stay_unique sim_crypto example_db_damaged
                                  ltac:(apply (bool_decide_unpack _); vm_compute;
                                        exact I)))) _ _ _ Htx).
Defined.

(** ** What is stored *)

(** Base64 text is longer than what it encodes: four characters for every
    three bytes. *)
Lemma base64_Encode_length (src : list byte) :
  (4 * length src ≤ 3 * length (base64_Encode src))%nat.
Proof.
  induction src as [| b0 | b0 b1 | b0 b1 b2 rest IH] using list_ind3;
    cbn [base64_Encode length]; cbv zeta; cbn [length]; lia.
Qed.

Lemma sim_chacha20poly1305_Seal_length (key : list byte) (aead : AEAD)
    (nonce p : list byte) :
  @chacha20poly1305_New sim_crypto key = inr aead →
  (length p ≤ length (Seal aead [] nonce p []))%nat.
Proof.
  simpl. unfold sim_chacha20poly1305_New. case_bool_decide; [| done].
  intros [= <-]. simpl. rewrite length_app, xor_keystream_length. lia.
Qed.

(** X19.  [SetSetting] never stores the value itself.  After a successful
    [SetSetting], reading the row directly on the connection
    ([GetConnection]) gives a text that differs from the value, that the
    store's cipher opens to the value, and [GetSetting] returns the value.
    The AEAD is any one whose sealed text is no shorter than the plaintext
    (the real ones add a 16-byte tag). *)
Theorem SetSetting_stores_envelope (L : CryptoLib) (Laws : CryptoLaws L) (db db' : DB)
    (skey : list byte) (key value : string) (now : Time) (rnd rnd' : Reader) :
  NewDatabaseEncryption skey = inr (encryption db) →
  (∀ aead nonce p, chacha20poly1305_New skey = inr aead →
     (length p ≤ length (Seal aead [] nonce p []))%nat) →
  DB_SetSetting db key value now rnd = (None, db', rnd') →
  ∃ stored,
    sql_DB_QueryRow_value (DB_GetConnection db') key = inr stored ∧
    stored ≠ value ∧
    DatabaseEncryption_Decrypt (encryption db') stored = inr (bytes_of_string value) ∧
    DB_GetSetting db' key = inr value.
Proof.
  intros Hnew Hseal Hset.
  apply NewDatabaseEncryption_inr in Hnew as [Hsk Hkey]. rewrite <- Hsk in Hkey.
  revert Hset. unfold DB_SetSetting.
  destruct (DatabaseEncryption_Encrypt (encryption db) (bytes_of_string value) rnd)
    as [[err | envelope] rnd''] eqn:Henc; [done |].
  destruct (sql_DB_Exec (conn db) (UpsertSetting key envelope now))
    as [[err | n] c'] eqn:Hexec; [done |].
  intros [= <- <-].
  (* the row *)
  assert (db_closed c' = false ∧ select_value key (db_settings c') = inr envelope)
    as [Hopen Hsel].
  { revert Hexec. unfold sql_DB_Exec. destruct (db_closed (conn db)); [done |].
    destruct (exec_upsert key envelope now (db_settings (conn db)))
      as (tbl' & -> & Hsel & _).
    by intros [= _ <-]. }
  (* the envelope *)
  destruct (DatabaseEncryption_Encrypt_steps (encryption db) (bytes_of_string value) rnd
              Hkey) as (aead & Haead & Hsteps).
  rewrite Henc in Hsteps.
  destruct (io_ReadFull rnd 12) as [[e | nonce] r] eqn:Hread; [done |].
  injection Hsteps as -> ->.
  pose proof (io_ReadFull_inr_take _ _ _ _ Hread) as (Hrnd & _ & _).
  apply io_ReadFull_inr in Hread as [Hnonce _].
  destruct (DatabaseEncryption_roundtrip (encryption db) (bytes_of_string value) rnd
              Hkey Hrnd) as (envelope' & Henc' & Hdec).
  rewrite Henc in Henc'. injection Henc' as <- _.
  eexists. split; [| split; [| split]].
  - unfold DB_GetConnection, sql_DB_QueryRow_value. simpl. rewrite Hopen. exact Hsel.
  - intros Heq.
    assert (length (bytes_of_string value) =
            length (base64_Encode
                      (nonce ++ Seal aead [] nonce (bytes_of_string value) []))) as Hlen.
    { rewrite <- Heq at 1. unfold base64_EncodeToString, bytes_of_string, string_of_bytes.
      by rewrite list_ascii_of_string_of_list_ascii. }
    pose proof (base64_Encode_length
                  (nonce ++ Seal aead [] nonce (bytes_of_string value) [])) as Hb64.
    rewrite Hsk in Haead.
    pose proof (Hseal aead nonce (bytes_of_string value) Haead) as Hs.
    rewrite length_app in Hb64. lia.
  - exact Hdec.
  - rewrite (DB_GetSetting_found (with_conn db c') key _ Hopen Hsel). simpl.
    rewrite Hdec. by rewrite string_of_bytes_of_string.
Qed.

Lemma SetSetting_stores_envelope_witness :
  ∃ db' stored,
    DB_SetSetting (L := sim_crypto) example_db "encrypted_key" "sensitive_data_12345"
      100 example_entropy = (None, db', []) ∧
    sql_DB_QueryRow_value (DB_GetConnection db') "encrypted_key" = inr stored ∧
    stored ≠ "sensitive_data_12345" ∧
    DB_GetSetting (L := sim_crypto) db' "encrypted_key" = inr "sensitive_data_12345".
Proof.
  destruct (DB_SetSetting (L := sim_crypto) example_db "encrypted_key"
              "sensitive_data_12345" 100 example_entropy) as [[r db'] rnd'] eqn:Hset.
  assert (r = None ∧ rnd' = []) as [-> ->].
  { vm_compute in Hset. by injection Hset as <- _ <-. }
  destruct (SetSetting_stores_envelope sim_crypto sim_crypto_laws example_db db'
              example_server_key "encrypted_key" "sensitive_data_12345" 100
              example_entropy [] eq_refl
              (λ aead nonce p, sim_chacha20poly1305_Seal_length _ aead nonce p) Hset)
    as (stored & Hrow & Hne & _ & Hget).
  by exists db', stored.
Defined.

(** * The config package *)

Lemma validLogLevels_lookup (level : string) :
  default false (validLogLevels !! level) =
  bool_decide (level ∈ ["debug"; "info"; "warn"; "error"]).
Proof.
  unfold validLogLevels.
  destruct (decide (level = "debug")) as [-> | H1]; [done |].
  rewrite lookup_insert_ne by done.
  destruct (decide (level = "info")) as [-> | H2]; [done |].
  rewrite lookup_insert_ne by done.
  destruct (decide (level = "warn")) as [-> | H3]; [done |].
  rewrite lookup_insert_ne by done.
  destruct (decide (level = "error")) as [-> | H4]; [done |].
  rewrite lookup_singleton_ne by done. simpl. symmetry.
  apply bool_decide_eq_false_2. rewrite !elem_of_cons, elem_of_nil. tauto.
Qed.

(** X20.  [Validate] accepts a configuration exactly when the server URL
    and the store id are not empty, the port is between 1 and 65535, the
    sync interval and the offline limit are at least 1 and the log level is
    one of debug, info, warn and error.  The default configuration is
    therefore refused (its server URL is empty), and a server URL and a
    store id are all it lacks: a configuration that has both, with the
    default port, intervals and log level, is accepted. *)
Theorem Config_Validate_accepts (c : Config) :
  (Config_Validate c = None ↔
     ServerURL c ≠ "" ∧ StoreID c ≠ "" ∧ 1 ≤ Port c ≤ 65535 ∧
     1 ≤ SyncInterval c ∧ 1 ≤ MaxOfflineHours c ∧
     LogLevel c ∈ ["debug"; "info"; "warn"; "error"]) ∧
  (∀ m, Config_Validate (Manager_getDefaultConfig m) =
          Some (fmt_Errorf "server_url cannot be empty")) ∧
  (∀ m, ServerURL c ≠ "" → StoreID c ≠ "" →
        Port c = Port (Manager_getDefaultConfig m) →
        SyncInterval c = SyncInterval (Manager_getDefaultConfig m) →
        MaxOfflineHours c = MaxOfflineHours (Manager_getDefaultConfig m) →
        LogLevel c = LogLevel (Manager_getDefaultConfig m) →
        Config_Validate c = None).
Proof.
  assert (Config_Validate c = None ↔
            ServerURL c ≠ "" ∧ StoreID c ≠ "" ∧ 1 ≤ Port c ≤ 65535 ∧
            1 ≤ SyncInterval c ∧ 1 ≤ MaxOfflineHours c ∧
            LogLevel c ∈ ["debug"; "info"; "warn"; "error"]) as Hiff.
  { unfold Config_Validate. rewrite validLogLevels_lookup.
    destruct (Z.ltb_spec (Port c) 1), (Z.ltb_spec 65535 (Port c)),
      (Z.ltb_spec (SyncInterval c) 1), (Z.ltb_spec (MaxOfflineHours c) 1);
      repeat case_bool_decide; simpl; split; intros; try done; try lia;
      intuition (try done; try lia). }
  split; [exact Hiff |]. split; [done |].
  intros m Hurl Hstore Hport Hsync Hoff Hlevel.
  simpl in *. apply Hiff. rewrite Hport, Hsync, Hoff, Hlevel.
  unfold DefaultPort, DefaultSyncInterval, DefaultMaxOfflineHours, DefaultLogLevel.
  repeat split; try done; try lia.
  rewrite !elem_of_cons. tauto.
Qed.

Lemma Config_Validate_accepts_witness :
  Config_Validate example_config = None ∧
  Config_Validate (Manager_getDefaultConfig example_manager) =
    Some (fmt_Errorf "server_url cannot be empty").
Proof.
  split.
  - apply (proj2 (proj2 (Config_Validate_accepts example_config)) example_manager);
      (discriminate || reflexivity).
  - apply (proj1 (proj2 (Config_Validate_accepts example_config))).
Defined.

Section ConfigManagerProofs.
Context {L : CryptoLib} {J : JsonLib} {F : FilepathLib}.

Lemma NewManager_inr (machineID : string) (env : gmap string string) :
  machineID ≠ "" →
  ∃ encryption,
    NewConfigEncryption machineID = inr encryption ∧
    NewManager machineID env =
      inr {| m_config := None; m_encryption := encryption;
             m_configPath :=
               filepath_Join
                 [if bool_decide (os_Getenv env "PROGRAMDATA" = "") then "."
                  else os_Getenv env "PROGRAMDATA";
                  "POSService"; "config.enc"];
             m_machineID := machineID; m_mu := false |}.
Proof.
  intros Hid. unfold NewManager, NewConfigEncryption.
  rewrite !bool_decide_eq_false_2 by done. eauto.
Qed.

End ConfigManagerProofs.

(** X21.  [NewManager] fails only on the empty machine id, with "machine
    ID cannot be empty"; its second error, "failed to create config
    encryption", never arises.  For any other id it returns a manager with
    no configuration loaded, whose cipher is the one [NewConfigEncryption]
    derives from the id and whose file is [config.enc] under [POSService]
    in the directory [PROGRAMDATA] names, or in [.] when that variable is
    empty.  In particular it accepts every id that [GetMachineID]
    returns. *)
Theorem NewManager_accepts_machine_id (L : CryptoLib) (Laws : CryptoLaws L)
    (J : JsonLib) (F : FilepathLib) (machineID : string) (env : gmap string string) :
  (machineID = "" →
     NewManager machineID env = inl (fmt_Errorf "machine ID cannot be empty")) ∧
  (machineID ≠ "" →
     ∃ m, NewManager machineID env = inr m ∧
          m_config m = None ∧ m_machineID m = machineID ∧ m_mu m = false ∧
          NewConfigEncryption machineID = inr (m_encryption m) ∧
          length (ce_key (m_encryption m)) = 32%nat ∧
          m_configPath m =
            filepath_Join
              [if bool_decide (os_Getenv env "PROGRAMDATA" = "") then "."
               else os_Getenv env "PROGRAMDATA";
               "POSService"; "config.enc"]) ∧
  (∀ (OS : Type) (P : Platform OS) (h : Host) (p p' : Process OS),
     GetMachineID h p = (inr machineID, p') →
     ∃ m, NewManager machineID env = inr m ∧ m_machineID m = machineID).
Proof.
  split; [| split].
  - intros ->. done.
  - intros Hid. destruct (NewManager_inr machineID env Hid) as (encryption & Henc & ->).
    eexists. split; [done |]. simpl. repeat split; try done.
    by apply NewConfigEncryption_inr in Henc as (_ & _ & Hlen).
  - intros OS P h p p' Hget.
    pose proof (GetMachineID_nonempty h p p' machineID Hget) as Hid.
    destruct (NewManager_inr machineID env Hid) as (encryption & _ & ->).
    by eexists.
Qed.

Lemma NewManager_accepts_machine_id_witness :
  NewManager (L := sim_crypto) (F := sim_filepath) "machine-1" ∅ = inr example_manager ∧
  ∃ id p' m,
    GetMachineID (L := sim_crypto) example_host (start_process fresh_registry) =
      (inr id, p') ∧
    NewManager (L := sim_crypto) (F := sim_filepath) id
      {[ "PROGRAMDATA" := "C:\ProgramData" ]} = inr m ∧
    m_configPath m = "C:\ProgramData/POSService/config.enc".
Proof.
  destruct (proj1 (proj2 (NewManager_accepts_machine_id sim_crypto sim_crypto_laws
                            sim_json sim_filepath "machine-1" ∅)) ltac:(discriminate))
    as (m & Hnew & _).
  split; [reflexivity |].
  destruct (GetMachineID (L := sim_crypto) example_host (start_process fresh_registry))
    as [[e | id] p'] eqn:Hget; [discriminate Hget |].
  destruct (NewManager_accepts_machine_id sim_crypto sim_crypto_laws sim_json
              sim_filepath id {[ "PROGRAMDATA" := "C:\ProgramData" ]})
    as (_ & Hok & Hfrom).
  destruct (Hfrom Registry windows_platform example_host
              (start_process fresh_registry) p' Hget) as (m' & Hnew' & Hid).
  assert (id ≠ "") as Hne by (intros ->; discriminate Hnew').
  destruct (Hok Hne) as (m'' & Hnew'' & _ & _ & _ & _ & _ & Hpath).
  exists id, p', m''. split; [reflexivity |]. split; [exact Hnew'' |].
  rewrite Hpath. reflexivity.
Defined.

Lemma tempPath_ne (path : string) : path +:+ ".tmp" ≠ path.
Proof.
  induction path as [| c path IH]; [discriminate |].
  simpl. intros [= Heq]. by apply IH.
Qed.

(** X22.  [Load] reads and never writes: whatever it returns, the file
    system and the entropy source are as before.  When there is no file at
    the manager's path it returns the default configuration, as a new
    object that becomes the manager's current one, and creates no file.
    When it returns an error (the file cannot be read, does not decrypt or
    does not parse) the manager and the heap are unchanged as well, so the
    configuration loaded before stays current.  A configuration read from
    a file is marked encrypted.  [Load] returns on every manager whose
    mutex is free. *)
Theorem Load_outcomes (L : CryptoLib) (J : JsonLib) (m : Manager) (w : World) :
  m_mu m = false →
  (fs_files (w_fs w) !! m_configPath m = None →
     Manager_Load m w =
       (returns (inr (length (w_heap w))),
        set_m_config m (Some (length (w_heap w))),
        set_w_heap w (w_heap w ++ [Manager_getDefaultConfig m]))) ∧
  (∀ r m' w', Manager_Load m w = (r, m', w') →
     w_fs w' = w_fs w ∧ w_rnd w' = w_rnd w ∧
     match r with
     | returns (inr p) =>
         p = length (w_heap w) ∧ m' = set_m_config m (Some p) ∧
         ∃ c, w_heap w' = w_heap w ++ [c] ∧
              c_encryption c = Some (m_encryption m) ∧
              c_filePath c = m_configPath m ∧
              (is_Some (fs_files (w_fs w) !! m_configPath m) → Encrypted c = true)
     | returns (inl err) =>
         m' = m ∧ w' = w ∧ is_Some (fs_files (w_fs w) !! m_configPath m)
     | panics _ | blocks => False
     end).
Proof.
  intros Hmu. split.
  - intros Hfile. unfold Manager_Load, os_Stat. by rewrite Hmu, Hfile.
  - intros r m' w'. unfold Manager_Load, os_Stat, os_ReadFile. rewrite Hmu.
    destruct (fs_files (w_fs w) !! m_configPath m) as [data |] eqn:Hfile; simpl.
    + destruct (bool_decide (m_configPath m ∈ fs_unreadable (w_fs w)));
        [intros [= <- <- <-]; eauto |].
      destruct (ConfigEncryption_Decrypt (m_encryption m) (string_of_bytes data))
        as [err | decryptedData]; [intros [= <- <- <-]; eauto |].
      destruct (json_Unmarshal decryptedData) as [err | parsed];
        intros [= <- <- <-]; simpl; [eauto |].
      repeat split. eexists. simpl. repeat split; eauto.
    + intros [= <- <- <-]. simpl. repeat split. eexists. simpl.
      repeat split; eauto. by intros [? ?].
Qed.

Lemma Load_outcomes_witness :
  Manager_Load (L := sim_crypto) (J := sim_json) example_manager (example_world empty_fs) =
    (returns (inr 0%nat), set_m_config example_manager (Some 0%nat),
     set_w_heap (example_world empty_fs) [Manager_getDefaultConfig example_manager]).
Proof.
  apply (proj1 (Load_outcomes sim_crypto sim_json example_manager
                  (example_world empty_fs) eq_refl)).
  reflexivity.
Defined.

Section SaveProofs.
Context {L : CryptoLib} {J : JsonLib} {F : FilepathLib}.

(** The pointer [Save] is handed, as the object it points to. *)
Lemma deref_Some (heap : Heap) (p : option nat) (a : nat) (c : Config) :
  p ≫= (λ a, (λ c, (a, c)) <$> heap !! a) = Some (a, c) ↔
  p = Some a ∧ heap !! a = Some c.
Proof.
  destruct p as [a' |]; simpl; [| by split; [| intros []]].
  destruct (heap !! a') as [c' |] eqn:Hc; simpl.
  - split; [by intros [= <- <-] | intros [[= <-] Hc']]. congruence.
  - split; [done | intros [[= <-] Hc']]. congruence.
Qed.

(** A successful [Save], step by step. *)
Lemma Manager_Save_None (m m' : Manager) (p : option nat) (now : Time) (w w' : World) :
  Manager_Save m p now w = (returns None, m', w') →
  ∃ a c jsonData envelope rnd',
    p = Some a ∧ w_heap w !! a = Some c ∧ m_mu m = false ∧
    json_MarshalIndent (exported (set_Encrypted c true)) "" "  " = inr jsonData ∧
    ConfigEncryption_Encrypt (m_encryption m) jsonData (w_rnd w) = (inr envelope, rnd') ∧
    m' = set_m_config m (Some a) ∧
    w' = {| w_heap := <[a := set_lastSaved (set_Encrypted c true) now]> (w_heap w);
            w_fs :=
              with_files (w_fs w)
                (<[m_configPath m := bytes_of_string envelope]>
                   (delete (m_configPath m +:+ ".tmp") (fs_files (w_fs w))));
            w_rnd := rnd' |}.
Proof.
  unfold Manager_Save. destruct (m_mu m) eqn:Hmu; [done |].
  destruct (os_MkdirAll (w_fs w) (filepath_Dir (m_configPath m))); [done |].
  destruct (p ≫= (λ a, (λ c, (a, c)) <$> w_heap w !! a)) as [[a c] |] eqn:Hp; [| done].
  apply deref_Some in Hp as [-> Hc]. simpl.
  destruct (json_MarshalIndent (exported (set_Encrypted c true)) "" "  ")
    as [err | jsonData] eqn:Hjson; [done |].
  destruct (ConfigEncryption_Encrypt (m_encryption m) jsonData (w_rnd w))
    as [[err | envelope] rnd'] eqn:Henc; [done |].
  unfold os_WriteFile. simpl.
  destruct (bool_decide (m_configPath m +:+ ".tmp" ∈ fs_denied (w_fs w))); [done |].
  unfold os_Rename. simpl. rewrite lookup_insert_eq.
  destruct (bool_decide (m_configPath m +:+ ".tmp" ∈ fs_denied (w_fs w) ∨
                         m_configPath m ∈ fs_denied (w_fs w))).
  { unfold os_Remove. simpl. rewrite lookup_insert_eq.
    by destruct (bool_decide (m_configPath m +:+ ".tmp" ∈ fs_denied (w_fs w))). }
  intros [= <- <-]. exists a, c, jsonData, envelope, rnd'.
  repeat split; try done.
  unfold set_w_heap, set_w_fs, set_w_rnd, with_files. simpl.
  by rewrite list_insert_insert_eq, delete_insert_eq.
Qed.

(** What a [Save] that does not succeed leaves behind. *)
Lemma Manager_Save_failed (m m' : Manager) (p : option nat) (now : Time) (w w' : World)
    (r : call (option error)) :
  Manager_Save m p now w = (r, m', w') → r ≠ returns None →
  m' = m ∧
  (∀ path, path ≠ m_configPath m +:+ ".tmp" →
     fs_files (w_fs w') !! path = fs_files (w_fs w) !! path) ∧
  (∀ a c, m_mu m = false →
     os_MkdirAll (w_fs w) (filepath_Dir (m_configPath m)) = None →
     p = Some a → w_heap w !! a = Some c →
     w_heap w' = <[a := set_Encrypted c true]> (w_heap w)).
Proof.
  unfold Manager_Save. destruct (m_mu m) eqn:Hmu; [by intros [= <- <- <-] |].
  destruct (os_MkdirAll (w_fs w) (filepath_Dir (m_configPath m)));
    [by intros [= <- <- <-] |].
  destruct (p ≫= (λ a, (λ c, (a, c)) <$> w_heap w !! a)) as [[a c] |] eqn:Hp.
  2:{ intros [= <- <- <-] _. repeat split; try done.
      intros a c _ _ -> Hc. simpl in Hp. by rewrite Hc in Hp. }
  apply deref_Some in Hp as [-> Hc]. simpl.
  assert (∀ a' c', Some a = Some a' → w_heap w !! a' = Some c' →
            <[a := set_Encrypted c true]> (w_heap w) =
            <[a' := set_Encrypted c' true]> (w_heap w)) as Hheap.
  { intros a' c' [= <-] Hc'. congruence. }
  destruct (json_MarshalIndent (exported (set_Encrypted c true)) "" "  ")
    as [err | jsonData] eqn:Hjson;
    [intros [= <- <- <-] _; repeat split; try done; intros; by apply Hheap |].
  destruct (ConfigEncryption_Encrypt (m_encryption m) jsonData (w_rnd w))
    as [[err | envelope] rnd'] eqn:Henc;
    [intros [= <- <- <-] _; repeat split; try done; intros; by apply Hheap |].
  unfold os_WriteFile. simpl.
  destruct (bool_decide (m_configPath m +:+ ".tmp" ∈ fs_denied (w_fs w))) eqn:Htemp;
    [intros [= <- <- <-] _; repeat split; try done; intros; by apply Hheap |].
  unfold os_Rename. simpl. rewrite lookup_insert_eq.
  destruct (bool_decide (m_configPath m +:+ ".tmp" ∈ fs_denied (w_fs w) ∨
                         m_configPath m ∈ fs_denied (w_fs w)));
    [| intros [= <- <- <-] Hr; by destruct Hr].
  unfold os_Remove. simpl. rewrite lookup_insert_eq, Htemp.
  intros [= <- <- <-] _. simpl. repeat split; try done.
  - intros path Hpath. rewrite delete_insert_eq. by rewrite lookup_delete_ne.
  - intros. by apply Hheap.
Qed.

End SaveProofs.

(** X23.  What [Save] writes, [Load] reads.  After a successful [Save]
    the file at the manager's path holds an envelope that the manager's
    cipher opens to the JSON text of the configuration (marked encrypted),
    the temporary file is gone, twelve bytes of entropy are used, the
    object saved is the manager's current configuration and carries the
    time of the save.  A [Load] that follows parses exactly that JSON text:
    it returns a new object with the parsed fields, or "failed to parse
    config JSON" when [json.Unmarshal] refuses the text. *)
Theorem Save_then_Load (L : CryptoLib) (Laws : CryptoLaws L) (J : JsonLib)
    (F : FilepathLib) (m m' : Manager) (a : nat) (c : Config) (now : Time)
    (w w' : World) :
  length (ce_key (m_encryption m)) = 32%nat →
  m_configPath m ∉ fs_unreadable (w_fs w) →
  w_heap w !! a = Some c →
  Manager_Save m (Some a) now w = (returns None, m', w') →
  ∃ jsonData envelope,
    json_MarshalIndent (exported (set_Encrypted c true)) "" "  " = inr jsonData ∧
    fs_files (w_fs w') !! m_configPath m = Some (bytes_of_string envelope) ∧
    fs_files (w_fs w') !! (m_configPath m +:+ ".tmp") = None ∧
    ConfigEncryption_Decrypt (m_encryption m) envelope = inr jsonData ∧
    w_rnd w' = drop 12 (w_rnd w) ∧
    m' = set_m_config m (Some a) ∧
    w_heap w' = <[a := set_lastSaved (set_Encrypted c true) now]> (w_heap w) ∧
    Manager_Load m' w' =
      match json_Unmarshal jsonData with
      | inl err =>
          (returns (inl (fmt_Errorf_w "failed to parse config JSON: %w" err)), m', w')
      | inr parsed =>
          (returns (inr (length (w_heap w'))),
           set_m_config m' (Some (length (w_heap w'))),
           set_w_heap w' (w_heap w' ++ [loaded_Config m parsed]))
      end.
Proof.
  intros Hkey Hread Hc Hsave.
  apply Manager_Save_None in Hsave
    as (a' & c' & jsonData & envelope & rnd' & [= <-] & Hc' & Hmu & Hjson & Henc & -> & ->).
  rewrite Hc in Hc'. injection Hc' as <-.
  destruct (ConfigEncryption_Encrypt_inr _ _ _ _ _ Hkey Henc) as (_ & _ & _ & _ & Hrnd & -> & _).
  destruct (ConfigEncryption_roundtrip (m_encryption m) jsonData (w_rnd w) Hkey Hrnd)
    as (envelope' & Henc' & Hdec).
  rewrite Henc in Henc'. injection Henc' as <-.
  exists jsonData, envelope. simpl.
  split; [done |]. split; [by rewrite lookup_insert_eq |].
  split; [by rewrite lookup_insert_ne, lookup_delete_eq
            by (apply not_eq_sym, tempPath_ne) |].
  split; [done |]. split; [done |]. split; [done |]. split; [done |].
  unfold Manager_Load, os_Stat, os_ReadFile. simpl.
  rewrite Hmu, lookup_insert_eq. simpl.
  rewrite bool_decide_eq_false_2 by done.
  rewrite string_of_bytes_of_string, Hdec.
  by destruct (json_Unmarshal jsonData).
Qed.

Lemma Save_then_Load_witness :
  ∃ m' w' p m'' w'',
    Manager_Save (L := sim_crypto) (J := sim_json) (F := sim_filepath) example_manager
      (Some 0%nat) 1000 (set_w_heap (example_world empty_fs) [example_config]) =
      (returns None, m', w') ∧
    Manager_Load (L := sim_crypto) (J := sim_json) m' w' = (returns (inr p), m'', w'') ∧
    w_heap w'' !! p = Some (set_Encrypted example_config true).
Proof.
  destruct (Manager_Save (L := sim_crypto) (J := sim_json) (F := sim_filepath)
              example_manager (Some 0%nat) 1000
              (set_w_heap (example_world empty_fs) [example_config]))
    as [[r m'] w'] eqn:Hsave.
  assert (r = returns None) as ->.
  { vm_compute in Hsave. by injection Hsave as <- _ _. }
  destruct (Save_then_Load sim_crypto sim_crypto_laws sim_json sim_filepath
              example_manager m' 0%nat example_config 1000
              (set_w_heap (example_world empty_fs) [example_config]) w'
              ltac:(vm_compute; reflexivity) ltac:(vm_compute; set_solver)
              eq_refl Hsave)
    as (jsonData & envelope & Hjson & _ & _ & _ & _ & -> & Hheap & Hload).
  injection Hjson as <-.
  eexists _, w', _, _, _. split; [reflexivity |].
  split; [exact Hload |].
  simpl. rewrite Hheap. reflexivity.
Defined.

(** X24.  A [Save] that does not succeed leaves the configuration file
    alone: whether it returns an error, panics on a nil pointer or finds
    the mutex held, the manager is unchanged and every file except the
    temporary one is as before, the file at the manager's path in
    particular.  One effect does remain: once the directory step is past,
    the object passed in has been marked encrypted, although nothing was
    saved. *)
Theorem Save_failure_keeps_file (L : CryptoLib) (J : JsonLib) (F : FilepathLib)
    (m m' : Manager) (p : option nat) (now : Time) (w w' : World)
    (r : call (option error)) :
  Manager_Save m p now w = (r, m', w') → r ≠ returns None →
  m' = m ∧
  fs_files (w_fs w') !! m_configPath m = fs_files (w_fs w) !! m_configPath m ∧
  (∀ path, path ≠ m_configPath m +:+ ".tmp" →
     fs_files (w_fs w') !! path = fs_files (w_fs w) !! path) ∧
  (∀ a c, m_mu m = false →
     os_MkdirAll (w_fs w) (filepath_Dir (m_configPath m)) = None →
     p = Some a → w_heap w !! a = Some c →
     w_heap w' = <[a := set_Encrypted c true]> (w_heap w)).
Proof.
  intros Hsave Hr.
  destruct (Manager_Save_failed m m' p now w w' r Hsave Hr) as (Hm & Hfiles & Hheap).
  split; [done |]. split; [| done].
  apply Hfiles, not_eq_sym, tempPath_ne.
Qed.

Lemma Save_failure_keeps_file_witness :
  ∃ w',
    Manager_Save (L := sim_crypto) (J := sim_json) (F := sim_filepath) example_manager
      (Some 0%nat) 1000 (set_w_heap (example_world protected_fs) [example_config]) =
      (returns (Some (fmt_Errorf_w "failed to rename config file: %w"
                        (error_of_os
                           (os_LinkError "rename" "./POSService/config.enc.tmp"
                              "./POSService/config.enc" EACCES)))),
       example_manager, w') ∧
    fs_files (w_fs w') = ∅ ∧
    w_heap w' = [set_Encrypted example_config true].
Proof.
  destruct (Manager_Save (L := sim_crypto) (J := sim_json) (F := sim_filepath)
              example_manager (Some 0%nat) 1000
              (set_w_heap (example_world protected_fs) [example_config]))
    as [[r m'] w'] eqn:Hsave.
  assert (r = returns (Some (fmt_Errorf_w "failed to rename config file: %w"
                               (error_of_os
                                  (os_LinkError "rename" "./POSService/config.enc.tmp"
                                     "./POSService/config.enc" EACCES)))) ∧
          fs_files (w_fs w') = ∅) as [-> Hfiles].
  { vm_compute in Hsave. by injection Hsave as <- _ <-. }
  destruct (Save_failure_keeps_file sim_crypto sim_json sim_filepath example_manager m'
              (Some 0%nat) 1000 (set_w_heap (example_world protected_fs) [example_config])
              w' _ Hsave ltac:(discriminate)) as (-> & _ & _ & Hheap).
  exists w'. split; [reflexivity |]. split; [exact Hfiles |].
  apply (Hheap 0%nat example_config); reflexivity.
Defined.

Section UpdateProofs.
Context {L : CryptoLib} {J : JsonLib} {F : FilepathLib}.

Lemma Manager_locked (m : Manager) (w : World) :
  m_mu m = true →
  (∀ p now, Manager_Save m p now w = (blocks, m, w)) ∧
  Manager_Load m w = (blocks, m, w) ∧
  Manager_Get m w = (blocks, w) ∧
  (∀ f now, Manager_Update m f now w = (blocks, m, w)).
Proof.
  intros Hmu. unfold Manager_Save, Manager_Load, Manager_Get, Manager_Update.
  by rewrite Hmu.
Qed.

End UpdateProofs.

(** X25.  [Update] never saves.  It calls [Save] while holding the
    manager's mutex, and [Save] waits for that mutex: when a configuration
    is loaded and the update function reports no error, the call never
    returns and the mutex stays held, so that every later call of [Load],
    [Save], [Get] or [Update] on the manager waits for ever too.  The
    file system and the entropy source are not touched.  What the update
    function did to the configuration object stays in memory in either
    case, also when the function reported an error and [Update] returned
    "failed to update config". *)
Theorem Update_never_saves (L : CryptoLib) (J : JsonLib) (F : FilepathLib)
    (m m' : Manager) (updateFunc : Config → option error * Config) (now : Time)
    (w w' : World) (r : call (option error)) :
  m_mu m = false →
  Manager_Update m updateFunc now w = (r, m', w') →
  w_fs w' = w_fs w ∧ w_rnd w' = w_rnd w ∧
  match m_config m ≫= (λ a, (λ c, (a, c)) <$> w_heap w !! a) with
  | None =>
      r = returns (Some (fmt_Errorf "configuration not loaded")) ∧ m' = m ∧ w' = w
  | Some (a, c) =>
      w_heap w' = <[a := (updateFunc c).2]> (w_heap w) ∧
      match (updateFunc c).1 with
      | Some err =>
          r = returns (Some (fmt_Errorf_w "failed to update config: %w" err)) ∧ m' = m
      | None =>
          r = blocks ∧ m' = set_m_mu m true ∧
          (∀ p now', Manager_Save m' p now' w' = (blocks, m', w')) ∧
          Manager_Load m' w' = (blocks, m', w') ∧
          Manager_Get m' w' = (blocks, w') ∧
          (∀ f now', Manager_Update m' f now' w' = (blocks, m', w'))
      end
  end.
Proof.
  intros Hmu. unfold Manager_Update at 1. rewrite Hmu. simpl.
  assert (set_m_mu (set_m_mu m true) false = m) as Hunlock
    by (destruct m; simpl in *; by subst).
  destruct (m_config m ≫= (λ a, (λ c, (a, c)) <$> w_heap w !! a)) as [[a c] |].
  - destruct (updateFunc c) as [[err |] c'] eqn:Hf; simpl.
    + intros [= <- <- <-]. by rewrite Hunlock.
    + destruct (Manager_locked (set_m_mu m true) (set_w_heap w (<[a := c']> (w_heap w)))
                  eq_refl) as (Hsave & Hload & Hget & Hupd).
      intros [= <- <- <-]. by split_and!.
  - intros [= <- <- <-]. by rewrite Hunlock.
Qed.

Lemma Update_never_saves_witness :
  ∃ m' w',
    Manager_Update (L := sim_crypto) (J := sim_json) (F := sim_filepath)
      (set_m_config example_manager (Some 0%nat)) (set_port 9090) 1000
      (set_w_heap (example_world empty_fs) [example_config]) = (blocks, m', w') ∧
    m_mu m' = true ∧ fs_files (w_fs w') = ∅ ∧
    Port <$> w_heap w' !! 0%nat = Some 9090 ∧
    Manager_Get m' w' = (blocks, w').
Proof.
  destruct (Manager_Update (L := sim_crypto) (J := sim_json) (F := sim_filepath)
              (set_m_config example_manager (Some 0%nat)) (set_port 9090) 1000
              (set_w_heap (example_world empty_fs) [example_config]))
    as [[r m'] w'] eqn:Hupd.
  destruct (Update_never_saves sim_crypto sim_json sim_filepath
              (set_m_config example_manager (Some 0%nat)) m' (set_port 9090) 1000
              (set_w_heap (example_world empty_fs) [example_config]) w' r eq_refl Hupd)
    as (Hfs & _ & Hheap & -> & -> & _ & _ & Hget & _).
  exists (set_m_mu (set_m_config example_manager (Some 0%nat)) true), w'.
  split; [reflexivity |]. split; [reflexivity |].
  split; [by rewrite Hfs |]. split; [by rewrite Hheap | exact Hget].
Defined.

(** X26.  [Get] hands out a copy, [Load] the original.  The pointer
    [Load] returns is the manager's own configuration object, so what the
    caller writes through it is what [Get] returns from then on.  The
    pointer [Get] returns is a new object equal to the current
    configuration, and what the caller writes through that one never
    reaches the manager. *)
Theorem Get_copies_Load_shares (L : CryptoLib) (J : JsonLib) (m0 m : Manager)
    (w0 w : World) (p : nat) :
  Manager_Load m0 w0 = (returns (inr p), m, w) →
  ∃ c q w1,
    m_config m = Some p ∧ w_heap w !! p = Some c ∧
    Manager_Get m w = (returns (inr q), w1) ∧ q ≠ p ∧
    w_heap w1 !! q = Some c ∧ w_heap w1 !! p = Some c ∧
    (∀ c' : Config,
       ∃ q' w2,
         Manager_Get m (set_w_heap w1 (<[q := c']> (w_heap w1))) =
           (returns (inr q'), w2) ∧
         w_heap w2 !! q' = Some c) ∧
    (∀ c' : Config,
       ∃ q' w2,
         Manager_Get m (set_w_heap w (<[p := c']> (w_heap w))) =
           (returns (inr q'), w2) ∧
         w_heap w2 !! q' = Some c').
Proof.
  intros Hload.
  assert (m_mu m = false ∧ m_config m = Some p ∧
          ∃ c, w_heap w = w_heap w0 ++ [c] ∧ p = length (w_heap w0))
    as (Hmu & Hcfg & c & Hheap & Hp).
  { revert Hload. unfold Manager_Load.
    destruct (m_mu m0) eqn:Hmu; [done |].
    destruct (os_IsNotExist (os_Stat (w_fs w0) (m_configPath m0)));
      [intros [= <- <- <-]; simpl; eauto |].
    destruct (os_ReadFile (w_fs w0) (m_configPath m0)) as [e | data]; [done |].
    destruct (ConfigEncryption_Decrypt (m_encryption m0) (string_of_bytes data))
      as [e | decryptedData]; [done |].
    destruct (json_Unmarshal decryptedData) as [e | parsed]; [done |].
    intros [= <- <- <-]. simpl. eauto. }
  assert (w_heap w !! p = Some c) as Hc
    by (rewrite Hheap, Hp; by apply list_lookup_middle).
  assert (length (w_heap w) = S p) as Hlen
    by (rewrite Hheap, length_app, Hp; simpl; lia).
  exists c, (length (w_heap w)), (set_w_heap w (w_heap w ++ [c])).
  split; [done |]. split; [done |].
  split; [unfold Manager_Get; by rewrite Hmu, Hcfg; simpl; rewrite Hc |].
  split; [lia |]. simpl.
  split; [by apply list_lookup_middle |].
  split; [rewrite lookup_app_l by lia; done |].
  split.
  - intros c'. unfold Manager_Get. rewrite Hmu, Hcfg. simpl.
    rewrite list_lookup_insert_ne by lia.
    rewrite lookup_app_l, Hc by lia. simpl.
    eexists _, _. split; [done |]. simpl.
    by apply list_lookup_middle.
  - intros c'. unfold Manager_Get. rewrite Hmu, Hcfg. simpl.
    rewrite list_lookup_insert_eq by lia. simpl.
    eexists _, _. split; [done |]. simpl.
    by apply list_lookup_middle.
Qed.

Lemma Get_copies_Load_shares_witness :
  ∃ m w q w1,
    Manager_Load (L := sim_crypto) (J := sim_json) example_manager
      (example_world empty_fs) = (returns (inr 0%nat), m, w) ∧
    Manager_Get m w = (returns (inr q), w1) ∧ q ≠ 0%nat ∧
    w_heap w1 !! q = Some (Manager_getDefaultConfig example_manager).
Proof.
  destruct (Manager_Load (L := sim_crypto) (J := sim_json) example_manager
              (example_world empty_fs)) as [[r m] w] eqn:Hload.
  assert (r = returns (inr 0%nat) ∧
          w_heap w = [Manager_getDefaultConfig example_manager]) as [-> Hheap].
  { vm_compute in Hload. by injection Hload as <- _ <-. }
  destruct (Get_copies_Load_shares sim_crypto sim_json example_manager m
              (example_world empty_fs) w 0%nat Hload)
    as (c & q & w1 & _ & Hc & Hget & Hq & Hcopy & _).
  exists m, w, q, w1. split; [reflexivity |]. split; [exact Hget |].
  split; [exact Hq |]. rewrite Hcopy. rewrite Hheap in Hc. exact (eq_sym Hc).
Defined.

(** * The Linux platform *)

Lemma lower_hex_ascii_nonspace (c : byte) :
  is_lower_hex c = true → ascii_nonspace c = true.
Proof.
  unfold is_lower_hex. intros Hc%bool_decide_eq_true. simpl in Hc.
  repeat (apply elem_of_cons in Hc as [-> | Hc]; [vm_compute; reflexivity |]).
  by apply elem_of_nil in Hc.
Qed.

Lemma asciiSpace_ascii (c : byte) :
  asciiSpace c = true → (utf8_RuneSelf <=? byte_to_Z c) = false.
Proof.
  unfold asciiSpace. intros Hc%bool_decide_eq_true.
  repeat (apply elem_of_cons in Hc as [-> | Hc]; [vm_compute; reflexivity |]).
  by apply elem_of_nil in Hc.
Qed.

Lemma TrimSpace_scan_stop (c : byte) (rest : list byte) :
  ascii_nonspace c = true → TrimSpace_scan (c :: rest) = (false, c :: rest).
Proof.
  unfold ascii_nonspace. intros [Hlt Hsp]%andb_prop.
  apply negb_true_iff in Hsp. apply Z.ltb_lt in Hlt.
  cbn [TrimSpace_scan]. rewrite Hsp.
  destruct (Z.leb_spec utf8_RuneSelf (byte_to_Z c)); [lia | done].
Qed.

Lemma TrimSpace_scan_skip (ws s : list byte) :
  Forall (λ c, asciiSpace c = true) ws →
  TrimSpace_scan (ws ++ s) = TrimSpace_scan s.
Proof.
  induction 1 as [| c ws Hc Hws IH]; [done |].
  cbn [app TrimSpace_scan]. by rewrite (asciiSpace_ascii c Hc), Hc.
Qed.

Section TrimSpace.
Context {U : UnicodeLib}.

(** White space around a trimmed ASCII text is all [TrimSpace] removes. *)
Lemma strings_TrimSpace_around (ws1 ws2 body : list byte) :
  Forall (λ c, asciiSpace c = true) ws1 → Forall (λ c, asciiSpace c = true) ws2 →
  ascii_trimmed body →
  strings_TrimSpace (string_of_bytes (ws1 ++ body ++ ws2)) = string_of_bytes body.
Proof.
  intros Hws1 Hws2 Hbody. unfold strings_TrimSpace, bytes_of_string, string_of_bytes.
  rewrite list_ascii_of_string_of_list_ascii.
  unfold ascii_trimmed in Hbody.
  destruct body as [| c body'] eqn:Hb; [done |].
  destruct (rev (c :: body')) as [| e rbody] eqn:Hrev; [done |].
  destruct Hbody as [Hc He].
  rewrite TrimSpace_scan_skip by done.
  cbn [app]. rewrite TrimSpace_scan_stop by done.
  change (c :: body' ++ ws2) with ((c :: body') ++ ws2).
  rewrite rev_app_distr, Hrev.
  rewrite TrimSpace_scan_skip by (by apply Forall_rev).
  rewrite TrimSpace_scan_stop by done.
  by rewrite <- Hrev, rev_involutive.
Qed.

Lemma strings_TrimSpace_spaces (ws : list byte) :
  Forall (λ c, asciiSpace c = true) ws → strings_TrimSpace (string_of_bytes ws) = "".
Proof.
  intros Hws. unfold strings_TrimSpace, bytes_of_string, string_of_bytes.
  rewrite list_ascii_of_string_of_list_ascii.
  rewrite <- (app_nil_r ws), TrimSpace_scan_skip by done. done.
Qed.

Lemma strings_TrimSpace_fingerprint (id : string) :
  well_formed_fingerprint id → strings_TrimSpace id = id.
Proof.
  intros [Hlen Hhex].
  rewrite <- (string_of_bytes_of_string id) at 1.
  rewrite <- (app_nil_r (bytes_of_string id)).
  change (bytes_of_string id ++ []) with ([] ++ bytes_of_string id ++ []).
  rewrite strings_TrimSpace_around; [apply string_of_bytes_of_string | done | done |].
  unfold ascii_trimmed.
  destruct (bytes_of_string id) as [| c body] eqn:Hb; [done |].
  assert (Forall (λ c, is_lower_hex c = true) (rev (c :: body))) as Hrev
    by (by apply Forall_rev).
  destruct (rev (c :: body)) as [| e rbody] eqn:Hr.
  { apply (f_equal length) in Hr. rewrite length_rev in Hr. done. }
  apply Forall_cons in Hhex as [Hc _]. apply Forall_cons in Hrev as [He _].
  split; by apply lower_hex_ascii_nonspace.
Qed.

(** The loop of [getCPUInfo]: for each key the last line that gives a
    value decides. *)
Lemma linux_getCPUInfo_fold (lines : list string) :
  ∀ acc,
    fold_left linux_getCPUInfo_line lines acc =
    (default acc.1 (last (omap (cpuinfo_value "model name") lines)),
     default acc.2 (last (omap (cpuinfo_value "Serial") lines))).
Proof.
  induction lines as [| line lines IH] using rev_ind; intros [cpuModel cpuSerial];
    [done |].
  rewrite fold_left_app, IH, !omap_app. simpl.
  unfold linux_getCPUInfo_line, cpuinfo_value.
  destruct (strings_HasPrefix line "model name");
    destruct (strings_HasPrefix line "Serial");
    destruct (strings_SplitN_2 line ":"%char) as [| a [| b [| x parts]]];
    simpl; rewrite ?app_nil_r, ?last_snoc; done.
Qed.

End TrimSpace.

(** X27.  On Linux the stored machine id is read with the white space
    around it removed: a file that holds an ASCII text between runs of
    tabs, line feeds, carriage returns and spaces is read as that text, so
    a line break at the end of [/var/lib/posservice/machine_id] does no
    harm.  A file of white space only is read as the empty string, which
    [GetMachineID] takes for no stored id and answers by generating
    one. *)
Theorem linux_stored_id_is_trimmed (L : CryptoLib) (U : UnicodeLib) (fs : FileSystem)
    (ws1 ws2 body : list byte) :
  Forall (λ c, asciiSpace c = true) ws1 → Forall (λ c, asciiSpace c = true) ws2 →
  linux_machineIDPath ∉ fs_unreadable fs →
  (ascii_trimmed body →
   fs_files fs !! linux_machineIDPath = Some (ws1 ++ body ++ ws2) →
   linux_readMachineIDFromRegistry fs = inr (string_of_bytes body) ∧
   ∀ h out,
     GetMachineID h {| cachedMachineID := ""; platform_state := fs; stdout := out |} =
       (inr (string_of_bytes body),
        {| cachedMachineID := string_of_bytes body; platform_state := fs;
           stdout := out |})) ∧
  (fs_files fs !! linux_machineIDPath = Some ws1 →
   linux_readMachineIDFromRegistry fs = inr "" ∧
   ∀ h out,
     (GetMachineID h {| cachedMachineID := ""; platform_state := fs; stdout := out |}).1 =
       wrap_err "failed to generate machine ID: %w" (generateMachineID h fs)).
Proof.
  intros Hws1 Hws2 Hreadable. split.
  - intros Hbody Hfile.
    assert (linux_readMachineIDFromRegistry fs = inr (string_of_bytes body)) as Hread.
    { unfold linux_readMachineIDFromRegistry, os_ReadFile. rewrite Hfile.
      rewrite bool_decide_eq_false_2 by done.
      by rewrite strings_TrimSpace_around. }
    split; [done |]. intros h out.
    unfold GetMachineID. simpl. rewrite Hread. simpl.
    rewrite bool_decide_eq_false_2; [done |].
    unfold ascii_trimmed in Hbody. by destruct body.
  - intros Hfile.
    assert (linux_readMachineIDFromRegistry fs = inr "") as Hread.
    { unfold linux_readMachineIDFromRegistry, os_ReadFile. rewrite Hfile.
      rewrite bool_decide_eq_false_2 by done.
      by rewrite strings_TrimSpace_spaces. }
    split; [done |]. intros h out.
    unfold GetMachineID. simpl. rewrite Hread. simpl.
    destruct (generateMachineID h fs) as [e | id]; [done |].
    by destruct (linux_saveMachineIDToRegistry id fs).
Qed.

Lemma linux_stored_id_is_trimmed_witness :
  linux_readMachineIDFromRegistry (U := sim_unicode)
    {| fs_files := {[ linux_machineIDPath := bytes_of_string ("abc123" +:+ LF) ]};
       fs_denied := ∅; fs_unreadable := ∅ |} = inr "abc123".
Proof.
  apply (proj1 (linux_stored_id_is_trimmed sim_crypto sim_unicode
                  {| fs_files :=
                       {[ linux_machineIDPath := bytes_of_string ("abc123" +:+ LF) ]};
                     fs_denied := ∅; fs_unreadable := ∅ |}
                  [] [newline_LF] (bytes_of_string "abc123")
                  ltac:(constructor)
                  ltac:(by repeat constructor)
                  ltac:(vm_compute; set_solver))).
  - vm_compute. done.
  - reflexivity.
Defined.

(** X28.  On Linux a machine id survives a restart.  When the directory
    [/var/lib/posservice] can be made and the file [machine_id] in it can
    be written and read, the id a process's first successful
    [GetMachineID] returns is the one a process started later returns,
    read from that file, whatever the network interfaces and the host name
    are by then.  The stored id, if the first call found one, is any text
    [TrimSpace] leaves; a generated id is written as it is and read back
    unchanged. *)
Theorem GetMachineID_linux_restart (L : CryptoLib) (Laws : CryptoLaws L)
    (U : UnicodeLib) (h : Host) (p p' : Process FileSystem) (id : string) :
  os_MkdirAll (platform_state p) "/var/lib/posservice" = None →
  linux_machineIDPath ∉ fs_denied (platform_state p) →
  linux_machineIDPath ∉ fs_unreadable (platform_state p) →
  cachedMachineID p = "" →
  GetMachineID h p = (inr id, p') →
  linux_readMachineIDFromRegistry (platform_state p') = inr id ∧
  ∀ h' : Host,
    GetMachineID h' (restart p') =
      (inr id,
       {| cachedMachineID := id; platform_state := platform_state p';
          stdout := stdout p' |}).
Proof.
  intros Hdir Hwrite Hreadable Hc Hget.
  pose proof (GetMachineID_nonempty h p p' id Hget) as Hne.
  assert (linux_readMachineIDFromRegistry (platform_state p') = inr id) as Hread.
  { revert Hget. unfold GetMachineID. rewrite Hc. simpl.
    assert (∀ gen, generateMachineID h (platform_state p) = inr gen →
              ∃ fs', linux_saveMachineIDToRegistry gen (platform_state p) = (None, fs') ∧
                     linux_readMachineIDFromRegistry fs' = inr gen) as Hsave.
    { intros gen Hgen.
      apply (generateMachineID_well_formed h (platform_state p)) in Hgen.
      unfold linux_saveMachineIDToRegistry. rewrite Hdir.
      unfold os_WriteFile.
      change ("/var/lib/posservice" +:+ "/machine_id") with linux_machineIDPath.
      rewrite bool_decide_eq_false_2 by done.
      eexists. split; [done |].
      unfold linux_readMachineIDFromRegistry, os_ReadFile. simpl.
      rewrite lookup_insert_eq, bool_decide_eq_false_2 by done.
      by rewrite string_of_bytes_of_string, strings_TrimSpace_fingerprint. }
    destruct (linux_readMachineIDFromRegistry (platform_state p))
      as [e | stored] eqn:Hr;
      [| case_bool_decide as Hs; simpl; [| by intros [= <- <-]]];
      (destruct (generateMachineID h (platform_state p)) as [e' | gen] eqn:Hgen;
         [done |];
       destruct (Hsave gen eq_refl) as (fs' & -> & Hread');
       by intros [= <- <-]). }
  split; [done |]. intros h'.
  unfold GetMachineID, restart. simpl. rewrite Hread. simpl.
  by rewrite bool_decide_eq_false_2.
Qed.

Lemma GetMachineID_linux_restart_witness :
  ∃ id p',
    GetMachineID (L := sim_crypto) (P := linux_platform (U := sim_unicode)) example_host
      {| cachedMachineID := ""; platform_state := linux_fs; stdout := [] |} =
      (inr id, p') ∧
    fs_files (platform_state p') !! linux_machineIDPath = Some (bytes_of_string id) ∧
    GetMachineID (L := sim_crypto) (P := linux_platform (U := sim_unicode)) silent_host
      (restart p') =
      (inr id,
       {| cachedMachineID := id; platform_state := platform_state p';
          stdout := stdout p' |}).
Proof.
  destruct (GetMachineID (L := sim_crypto) (P := linux_platform (U := sim_unicode))
              example_host
              {| cachedMachineID := ""; platform_state := linux_fs; stdout := [] |})
    as [[e | id] p'] eqn:Hget; [discriminate Hget |].
  destruct (GetMachineID_linux_restart sim_crypto sim_crypto_laws sim_unicode
              example_host
              {| cachedMachineID := ""; platform_state := linux_fs; stdout := [] |}
              p' id eq_refl ltac:(vm_compute; set_solver) ltac:(vm_compute; set_solver)
              eq_refl Hget) as [_ Hagain].
  exists id, p'. split; [reflexivity |]. split; [| exact (Hagain silent_host)].
  vm_compute in Hget. injection Hget as <- <-. reflexivity.
Defined.

(** X29.  On Linux the platform data is the machine id of systemd, or
    failing that the one of D-Bus, followed by the CPU information.
    [platformSpecificID] fails, with "could not collect Linux-specific
    data", exactly when neither [/etc/machine-id] nor
    [/var/lib/dbus/machine-id] can be read with something in it and
    [getCPUInfo] fails.  When [/etc/machine-id] is there, its trimmed text
    comes first and the D-Bus file is not used; the list never has more
    than two entries. *)
Theorem linux_platformSpecificID_sources (U : UnicodeLib) (fs : FileSystem) :
  (is_err (linux_platformSpecificID fs) ↔
     readable_nonempty fs "/etc/machine-id" = false ∧
     readable_nonempty fs "/var/lib/dbus/machine-id" = false ∧
     is_err (linux_getCPUInfo fs)) ∧
  (∀ err, linux_platformSpecificID fs = inl err →
     err = fmt_Errorf "could not collect Linux-specific data") ∧
  (∀ data, linux_platformSpecificID fs = inr data → (1 ≤ length data ≤ 2)%nat) ∧
  (∀ machineID, os_ReadFile fs "/etc/machine-id" = inr machineID → machineID ≠ [] →
     linux_platformSpecificID fs =
       inr (strings_TrimSpace (string_of_bytes machineID) ::
            match linux_getCPUInfo fs with inr cpuInfo => [cpuInfo] | inl _ => [] end)) ∧
  (readable_nonempty fs "/etc/machine-id" = false →
   ∀ dbusMachineID,
     os_ReadFile fs "/var/lib/dbus/machine-id" = inr dbusMachineID →
     dbusMachineID ≠ [] →
     linux_platformSpecificID fs =
       inr (strings_TrimSpace (string_of_bytes dbusMachineID) ::
            match linux_getCPUInfo fs with inr cpuInfo => [cpuInfo] | inl _ => [] end)).
Proof.
  unfold linux_platformSpecificID, readable_nonempty. cbv zeta.
  destruct (os_ReadFile fs "/etc/machine-id") as [e1 | [| c1 m1]];
    destruct (os_ReadFile fs "/var/lib/dbus/machine-id") as [e2 | [| c2 m2]];
    destruct (linux_getCPUInfo fs) as [e3 | cpu];
    simpl; split_and!; try done; try (intros; simplify_eq; simpl; done || lia);
    intuition (try done; try discriminate; try congruence).
Qed.

Lemma linux_platformSpecificID_sources_witness :
  linux_platformSpecificID (U := sim_unicode) linux_fs =
    inr ["0a1b2c3d4e5f"; "POS CPU 1.0"].
Proof.
  rewrite (proj1 (proj2 (proj2 (proj2 (linux_platformSpecificID_sources sim_unicode
                                         linux_fs))))
             (bytes_of_string ("0a1b2c3d4e5f" +:+ LF)) eq_refl ltac:(discriminate)).
  vm_compute. reflexivity.
Defined.

(** X30.  [getCPUInfo] on Linux takes, for the model and for the serial
    number, the value of the last line of [/proc/cpuinfo] that starts with
    "model name" (or "Serial") and has a colon, so a machine with several
    cores gives one entry.  It fails with "could not determine CPU info"
    when there is no such line for the model or the last one has an empty
    value, even if an earlier line had one; the serial number is appended
    after a bar when there is a non-empty one. *)
Theorem linux_getCPUInfo_last_line (U : UnicodeLib) (fs : FileSystem) (data : list byte) :
  os_ReadFile fs "/proc/cpuinfo" = inr data →
  let lines := strings_Split (string_of_bytes data) newline_LF in
  let cpuModel := default "" (last (omap (cpuinfo_value "model name") lines)) in
  let cpuSerial := default "" (last (omap (cpuinfo_value "Serial") lines)) in
  linux_getCPUInfo fs =
    if bool_decide (cpuModel = "") then inl (fmt_Errorf "could not determine CPU info")
    else if bool_decide (cpuSerial = "") then inr cpuModel
    else inr (cpuModel +:+ "|" +:+ cpuSerial).
Proof.
  intros Hread lines cpuModel cpuSerial. unfold linux_getCPUInfo. rewrite Hread.
  fold lines. rewrite linux_getCPUInfo_fold. simpl. fold cpuModel cpuSerial.
  by repeat case_bool_decide.
Qed.

Lemma linux_getCPUInfo_last_line_witness :
  linux_getCPUInfo (U := sim_unicode) linux_fs = inr "POS CPU 1.0".
Proof.
  rewrite (linux_getCPUInfo_last_line sim_unicode linux_fs
             (bytes_of_string example_cpuinfo) eq_refl).
  vm_compute. reflexivity.
Defined.
